(** * NetEvo: dynamical networks, their simulation and simulated annealing

    A shallow embedding of the NetEvo library (system.h, system.cc,
    simulate.h, simulate.cc, evolve.h, evolve_sa.h, evolve_sa.cc) and the
    properties of it that the specification states.

    Conventions of the embedding.
    - A C++ [int] is a [Z].  Signed overflow is undefined in C++ and is
      not modelled: a counter of the source ([t] in
      [SimulateMap::simulate], [iteration] in [EvolveSA::evolve]) is
      followed as long as it stays an [int], and the properties about
      such a counter say under which bound ([INT_MAX]) it does.  Where
      the source divides an [int] by a [size_t] the conversion of the
      [int] is written out ([to_size_t]), and so is the conversion of
      the quotient to [double] ([size_t_to_double]); where the source
      compares the size of a vector with a count of states, which is
      never negative, the two are compared as integers.
    - A C++ [double] is a rational [Q]: sums, differences and comparisons
      are exact.  The conversion of a [double] to an [int] truncates
      toward zero and yields [INT_MIN] outside the range of [int]
      ([trunc]).
    - [std::vector<double>] is [list Q]; [std::map<string,T*>] is a
      [gmap string _]; LEMON's [NodeMap]/[ArcMap] are [gmap]s read with a
      default value.
    - Pointers to dynamics objects are handles; the virtual methods of the
      user's objects are the fields of the class [UserDynamics].  A call
      through a null pointer is undefined in C++; the properties of code
      that makes such calls are stated for Systems whose pointers are
      bound ([dynamics_bound]).
    - Calls made to observers and change logs are recorded as a trace of
      events. *)

From Stdlib Require Import ZArith QArith List Lia Ascii String.
From stdpp Require Import base option list gmap strings pretty.

Local Open Scope string_scope.
Local Open Scope list_scope.
Local Open Scope Z_scope.

(** ** Data model (system.h) *)

(** LEMON handles. *)
Definition Node := nat.
Definition Arc := nat.

(** [typedef vector<double> State]. *)
Definition State := list Q.

(** A [NodeDynamic*]: null, the built-in [NoNodeDynamic] object of a
    System, or an object of the user. *)
Inductive NodeDynamicPtr :=
| NodeNULL
| NoNodeDynamic
| UserNodeDynamic (obj : nat).

Inductive ArcDynamicPtr :=
| ArcNULL
| NoArcDynamic
| UserArcDynamic (obj : nat).

Record Position := mkPosition { pos_x : Q; pos_y : Q; pos_z : Q }.

Record NodeData := mkNodeData {
  key : Z;
  name : string;
  position : Position;
  properties : list Q;
  dynamic : NodeDynamicPtr;
  dynamicParams : list Q
}.

Record ArcData := mkArcData {
  arc_name : string;
  weight : Q;
  arc_properties : list Q;
  arc_dynamic : ArcDynamicPtr;
  arc_dynamicParams : list Q
}.

(** An arc of the underlying [ListDigraph]. *)
Record ArcRec := mkArcRec { arc_id : Arc; arc_source : Node; arc_target : Node }.

(** The state of a [lemon::Random] generator: how it was seeded last, by
    [seed ()] ([None]: the seed is taken from the environment) or by
    [seed (int)], and how many numbers were drawn from it since. *)
Record Random := mkRandom { rnd_seed : option Z; rnd_draws : nat }.

(** [class System : public ListDigraph].  [nodes] is in [NodeIt] order:
    [ListDigraph::addNode] links the new node at the head of the node
    list.  [arcs] holds the arcs, newest first. *)
Record System := mkSystem {
  nodes : list Node;
  arcs : list ArcRec;
  next_node : nat;
  next_arc : nat;
  mNodeStates : Z;
  mArcStates : Z;
  mNodeIDs : gmap nat Z;
  mArcIDs : gmap nat Z;
  mValidNodeIDs : bool;
  mValidArcIDs : bool;
  mNodeData : gmap nat NodeData;
  mArcData : gmap nat ArcData;
  mNodeDynamics : gmap string NodeDynamicPtr;
  mArcDynamics : gmap string ArcDynamicPtr;
  mNextKey : Z;
  mRnd : Random
}.

(** Values of default-constructed map entries. *)
Definition NodeData_default : NodeData :=
  mkNodeData 0 "" (mkPosition 0 0 0) [] NodeNULL [].

Definition ArcData_default : ArcData :=
  mkArcData "" 0 [] ArcNULL [].

(** Field updates. *)
Definition set_graph (ns : list Node) (as_ : list ArcRec) (nn na : nat) (s : System) : System :=
  mkSystem ns as_ nn na (mNodeStates s) (mArcStates s) (mNodeIDs s) (mArcIDs s)
    (mValidNodeIDs s) (mValidArcIDs s) (mNodeData s) (mArcData s)
    (mNodeDynamics s) (mArcDynamics s) (mNextKey s) (mRnd s).

Definition set_mNodeStates (z : Z) (s : System) : System :=
  mkSystem (nodes s) (arcs s) (next_node s) (next_arc s) z (mArcStates s) (mNodeIDs s)
    (mArcIDs s) (mValidNodeIDs s) (mValidArcIDs s) (mNodeData s) (mArcData s)
    (mNodeDynamics s) (mArcDynamics s) (mNextKey s) (mRnd s).

Definition set_mArcStates (z : Z) (s : System) : System :=
  mkSystem (nodes s) (arcs s) (next_node s) (next_arc s) (mNodeStates s) z (mNodeIDs s)
    (mArcIDs s) (mValidNodeIDs s) (mValidArcIDs s) (mNodeData s) (mArcData s)
    (mNodeDynamics s) (mArcDynamics s) (mNextKey s) (mRnd s).

Definition set_mNodeIDs (m : gmap nat Z) (s : System) : System :=
  mkSystem (nodes s) (arcs s) (next_node s) (next_arc s) (mNodeStates s) (mArcStates s) m
    (mArcIDs s) (mValidNodeIDs s) (mValidArcIDs s) (mNodeData s) (mArcData s)
    (mNodeDynamics s) (mArcDynamics s) (mNextKey s) (mRnd s).

Definition set_mArcIDs (m : gmap nat Z) (s : System) : System :=
  mkSystem (nodes s) (arcs s) (next_node s) (next_arc s) (mNodeStates s) (mArcStates s)
    (mNodeIDs s) m (mValidNodeIDs s) (mValidArcIDs s) (mNodeData s) (mArcData s)
    (mNodeDynamics s) (mArcDynamics s) (mNextKey s) (mRnd s).

Definition set_mValidNodeIDs (b : bool) (s : System) : System :=
  mkSystem (nodes s) (arcs s) (next_node s) (next_arc s) (mNodeStates s) (mArcStates s)
    (mNodeIDs s) (mArcIDs s) b (mValidArcIDs s) (mNodeData s) (mArcData s)
    (mNodeDynamics s) (mArcDynamics s) (mNextKey s) (mRnd s).

Definition set_mValidArcIDs (b : bool) (s : System) : System :=
  mkSystem (nodes s) (arcs s) (next_node s) (next_arc s) (mNodeStates s) (mArcStates s)
    (mNodeIDs s) (mArcIDs s) (mValidNodeIDs s) b (mNodeData s) (mArcData s)
    (mNodeDynamics s) (mArcDynamics s) (mNextKey s) (mRnd s).

Definition set_mNodeData (m : gmap nat NodeData) (s : System) : System :=
  mkSystem (nodes s) (arcs s) (next_node s) (next_arc s) (mNodeStates s) (mArcStates s)
    (mNodeIDs s) (mArcIDs s) (mValidNodeIDs s) (mValidArcIDs s) m (mArcData s)
    (mNodeDynamics s) (mArcDynamics s) (mNextKey s) (mRnd s).

Definition set_mArcData (m : gmap nat ArcData) (s : System) : System :=
  mkSystem (nodes s) (arcs s) (next_node s) (next_arc s) (mNodeStates s) (mArcStates s)
    (mNodeIDs s) (mArcIDs s) (mValidNodeIDs s) (mValidArcIDs s) (mNodeData s) m
    (mNodeDynamics s) (mArcDynamics s) (mNextKey s) (mRnd s).

Definition set_mNodeDynamics (m : gmap string NodeDynamicPtr) (s : System) : System :=
  mkSystem (nodes s) (arcs s) (next_node s) (next_arc s) (mNodeStates s) (mArcStates s)
    (mNodeIDs s) (mArcIDs s) (mValidNodeIDs s) (mValidArcIDs s) (mNodeData s) (mArcData s)
    m (mArcDynamics s) (mNextKey s) (mRnd s).

Definition set_mArcDynamics (m : gmap string ArcDynamicPtr) (s : System) : System :=
  mkSystem (nodes s) (arcs s) (next_node s) (next_arc s) (mNodeStates s) (mArcStates s)
    (mNodeIDs s) (mArcIDs s) (mValidNodeIDs s) (mValidArcIDs s) (mNodeData s) (mArcData s)
    (mNodeDynamics s) m (mNextKey s) (mRnd s).

Definition set_mNextKey (z : Z) (s : System) : System :=
  mkSystem (nodes s) (arcs s) (next_node s) (next_arc s) (mNodeStates s) (mArcStates s)
    (mNodeIDs s) (mArcIDs s) (mValidNodeIDs s) (mValidArcIDs s) (mNodeData s) (mArcData s)
    (mNodeDynamics s) (mArcDynamics s) z (mRnd s).

Definition set_mRnd (r : Random) (s : System) : System :=
  mkSystem (nodes s) (arcs s) (next_node s) (next_arc s) (mNodeStates s) (mArcStates s)
    (mNodeIDs s) (mArcIDs s) (mValidNodeIDs s) (mValidArcIDs s) (mNodeData s) (mArcData s)
    (mNodeDynamics s) (mArcDynamics s) (mNextKey s) r.

(** [NodeData & nodeData (Node v)] and [ArcData & arcData (Arc e)]. *)
Definition nodeData (s : System) (v : Node) : NodeData :=
  default NodeData_default (mNodeData s !! v).

Definition arcData (s : System) (e : Arc) : ArcData :=
  default ArcData_default (mArcData s !! e).

Definition set_nodeData (v : Node) (d : NodeData) (s : System) : System :=
  set_mNodeData (<[v := d]> (mNodeData s)) s.

Definition set_arcData (e : Arc) (d : ArcData) (s : System) : System :=
  set_mArcData (<[e := d]> (mArcData s)) s.

(** The virtual methods of the user's [NodeDynamic] and [ArcDynamic]
    objects.  [setDefaultParams] fills the parameter vector of its
    entity: it is given as the values it pushes onto [dynamicParams].
    [fn] returns the derivative vector [dx] it has written. *)
Class UserDynamics := {
  node_getName : nat -> string;
  node_getStates : nat -> Z;
  node_setDefaultParams : nat -> Node -> System -> list Q;
  node_fn : nat -> Node -> System -> State -> State -> Q -> State;
  arc_getName : nat -> string;
  arc_getStates : nat -> Z;
  arc_setDefaultParams : nat -> Arc -> System -> list Q;
  arc_fn : nat -> Arc -> System -> State -> State -> Q -> State
}.

Section Dispatch.
Context `{UD : UserDynamics}.

(** Virtual dispatch.  A call through a null pointer is undefined in
    C++ (the program is killed, as a rule).  The functions below are
    total: on [NodeNULL] and [ArcNULL] they do what the null dynamics
    do, which is not what the code does.  They follow the code on the
    pointers of a System that is [dynamics_bound]. *)
Definition nd_getName (p : NodeDynamicPtr) : string :=
  match p with
  | UserNodeDynamic o => node_getName o
  | NoNodeDynamic => "NoNodeDynamic"
  | NodeNULL => ""
  end.

Definition nd_getStates (p : NodeDynamicPtr) : Z :=
  match p with
  | UserNodeDynamic o => node_getStates o
  | _ => 0
  end.

Definition nd_setDefaultParams (p : NodeDynamicPtr) (v : Node) (s : System) : System :=
  match p with
  | UserNodeDynamic o =>
      let d := nodeData s v in
      set_nodeData v
        (mkNodeData (key d) (name d) (position d) (properties d) (dynamic d)
           (dynamicParams d ++ node_setDefaultParams o v s)) s
  | _ => s
  end.

Definition nd_fn (p : NodeDynamicPtr) (v : Node) (s : System) (x dx : State) (t : Q) : State :=
  match p with
  | UserNodeDynamic o => node_fn o v s x dx t
  | _ => dx
  end.

Definition ad_getName (p : ArcDynamicPtr) : string :=
  match p with
  | UserArcDynamic o => arc_getName o
  | NoArcDynamic => "NoArcDynamic"
  | ArcNULL => ""
  end.

Definition ad_getStates (p : ArcDynamicPtr) : Z :=
  match p with
  | UserArcDynamic o => arc_getStates o
  | _ => 0
  end.

Definition ad_setDefaultParams (p : ArcDynamicPtr) (e : Arc) (s : System) : System :=
  match p with
  | UserArcDynamic o =>
      let d := arcData s e in
      set_arcData e
        (mkArcData (arc_name d) (weight d) (arc_properties d) (arc_dynamic d)
           (arc_dynamicParams d ++ arc_setDefaultParams o e s)) s
  | _ => s
  end.

Definition ad_fn (p : ArcDynamicPtr) (e : Arc) (s : System) (x dx : State) (t : Q) : State :=
  match p with
  | UserArcDynamic o => arc_fn o e s x dx t
  | _ => dx
  end.

(** ** Graph iteration (LEMON) *)

Definition NodeIt (s : System) : list Node := nodes s.

(** [ArcIt] visits the nodes in [NodeIt] order and, for each, its
    outgoing arcs, newest first. *)
Definition out_arcs (s : System) (v : Node) : list ArcRec :=
  filter (fun a => arc_source a = v) (arcs s).

Definition ArcIt (s : System) : list ArcRec :=
  flat_map (out_arcs s) (nodes s).

Definition countNodes (s : System) : Z := Z.of_nat (length (nodes s)).
Definition countArcs (s : System) : Z := Z.of_nat (length (arcs s)).

(** ** Registering dynamics (system.cc) *)

(** [std::map::insert]: an element is inserted only when the map has no
    element with that key. *)
Definition map_insert {V : Type} (k : string) (v : V) (m : gmap string V) : gmap string V :=
  match m !! k with
  | Some _ => m
  | None => <[k := v]> m
  end.

Definition addNodeDynamic (nodeDynamic : NodeDynamicPtr) (s : System) : System :=
  let s1 := set_mNodeDynamics (map_insert (nd_getName nodeDynamic) nodeDynamic (mNodeDynamics s)) s in
  if nd_getStates nodeDynamic >? mNodeStates s1
  then set_mNodeStates (nd_getStates nodeDynamic) s1
  else s1.

Definition addArcDynamic (arcDynamic : ArcDynamicPtr) (s : System) : System :=
  let s1 := set_mArcDynamics (map_insert (ad_getName arcDynamic) arcDynamic (mArcDynamics s)) s in
  if ad_getStates arcDynamic >? mArcStates s1
  then set_mArcStates (ad_getStates arcDynamic) s1
  else s1.

(** The constructor [System ()]. *)
Definition System_new : System :=
  addArcDynamic NoArcDynamic
    (addNodeDynamic NoNodeDynamic
       (mkSystem [] [] 0%nat 0%nat 0 0 ∅ ∅ true true ∅ ∅ ∅ ∅ 0 (mkRandom None 0))).

(** ** Adding and erasing nodes and arcs *)

(** [ListDigraph::addNode] and [ListDigraph::addArc]: a new handle,
    linked at the head of the list. *)
Definition Parent_addNode (s : System) : Node * System :=
  let v := next_node s in
  (v, set_graph (v :: nodes s) (arcs s) (S v) (next_arc s) s).

Definition Parent_addArc (u v : Node) (s : System) : Arc * System :=
  let e := next_arc s in
  (e, set_graph (nodes s) (mkArcRec e u v :: arcs s) (next_node s) (S e) s).

(** [Node System::addNode (string dynamic)].  [find] on an unregistered
    name yields [end()], whose dereference is undefined: [None]. *)
Definition addNode (dyn_name : string) (s : System) : option (Node * System) :=
  match mNodeDynamics s !! dyn_name with
  | None => None
  | Some dyn =>
      let '(v, s1) := Parent_addNode s in
      let d := nodeData s1 v in
      let s2 := set_nodeData v
                  (mkNodeData (mNextKey s1) (name d) (mkPosition 0 0 0)
                     (properties d) dyn []) s1 in
      let s3 := set_mNextKey (mNextKey s2 + 1) s2 in
      let s4 := nd_setDefaultParams dyn v s3 in
      Some (v, set_mValidNodeIDs false s4)
  end.

(** [Node System::addNode (string name, string dynamic)]. *)
Definition addNode_named (nm dyn_name : string) (s : System) : option (Node * System) :=
  match addNode dyn_name s with
  | None => None
  | Some (v, s1) =>
      let d := nodeData s1 v in
      Some (v, set_nodeData v
                 (mkNodeData (key d) nm (position d) (properties d) (dynamic d)
                    (dynamicParams d)) s1)
  end.

(** [Arc System::addArc (Node u, Node v, string dynamic)]. *)
Definition addArc (u v : Node) (dyn_name : string) (s : System) : option (Arc * System) :=
  match mArcDynamics s !! dyn_name with
  | None => None
  | Some dyn =>
      let '(e, s1) := Parent_addArc u v s in
      let d := arcData s1 e in
      let s2 := set_arcData e (mkArcData (arc_name d) 1 (arc_properties d) dyn []) s1 in
      let s3 := ad_setDefaultParams dyn e s2 in
      Some (e, set_mValidArcIDs false s3)
  end.

(** [Edge System::addEdge (Node u, Node v, string dynamic)]: the arc
    [v -> u], then the arc [u -> v]. *)
Definition addEdge (u v : Node) (dyn_name : string) (s : System) : option (Arc * Arc * System) :=
  match addArc v u dyn_name s with
  | None => None
  | Some (a1, s1) =>
      match addArc u v dyn_name s1 with
      | None => None
      | Some (a2, s2) => Some (a1, a2, s2)
      end
  end.

(** [ListDigraph::erase], inherited unchanged by [System]: the arcs of
    an erased node go with it and the map entries are reset. *)
Definition eraseArc (e : Arc) (s : System) : System :=
  let s1 := set_graph (nodes s) (filter (fun a => arc_id a ≠ e) (arcs s))
              (next_node s) (next_arc s) s in
  set_mArcIDs (delete e (mArcIDs s1)) (set_mArcData (delete e (mArcData s1)) s1).

Definition eraseNode (v : Node) (s : System) : System :=
  let incident := filter (fun a => arc_source a = v ∨ arc_target a = v) (arcs s) in
  let s1 := fold_left (fun acc a => eraseArc (arc_id a) acc) incident s in
  let s2 := set_graph (filter (fun n => n ≠ v) (nodes s1)) (arcs s1)
              (next_node s1) (next_arc s1) s1 in
  set_mNodeIDs (delete v (mNodeIDs s2)) (set_mNodeData (delete v (mNodeData s2)) s2).

(** [void System::clear ()]. *)
Definition clear (s : System) : System :=
  let s1 := set_graph [] [] 0%nat 0%nat s in
  let s2 := set_mArcIDs ∅ (set_mNodeIDs ∅ (set_mArcData ∅ (set_mNodeData ∅ s1))) in
  set_mNextKey 0 (set_mValidArcIDs false (set_mValidNodeIDs false s2)).

(** [void System::resetKeys ()]. *)
Definition resetKeys (s : System) : System :=
  fold_left
    (fun acc v =>
       let d := nodeData acc v in
       set_mNextKey (mNextKey acc + 1)
         (set_nodeData v
            (mkNodeData (mNextKey acc) (name d) (position d) (properties d)
               (dynamic d) (dynamicParams d)) acc))
    (NodeIt s) (set_mNextKey 0 s).

(** ** State indices *)

Definition validStateIDs (s : System) : bool :=
  mValidNodeIDs s && mValidArcIDs s.

(** The loop [i = 0; for (It x; ...) { ids[x] = i; ++i; }]. *)
Fixpoint renumber (i : Z) (l : list nat) (m : gmap nat Z) : gmap nat Z :=
  match l with
  | [] => m
  | x :: l' => renumber (i + 1) l' (<[x := i]> m)
  end.

Definition refreshStateIDs (s : System) : System :=
  let s1 := if negb (mValidNodeIDs s)
            then set_mNodeIDs (renumber 0 (NodeIt s) (mNodeIDs s)) s
            else s in
  if negb (mValidArcIDs s1)
  then set_mArcIDs (renumber 0 (map arc_id (ArcIt s1)) (mArcIDs s1)) s1
  else s1.

Definition totalStates (s : System) : Z :=
  mNodeStates s * countNodes s + mArcStates s * countArcs s.

Definition stateID_node (s : System) (v : Node) : Z :=
  mNodeStates s * default 0 (mNodeIDs s !! v).

Definition stateID_arc (s : System) (e : Arc) : Z :=
  mNodeStates s * countNodes s + mArcStates s * default 0 (mArcIDs s !! e).

(** [void System::operator() (const State &x, State &dx, const double t)]:
    returns [dx] as the dynamics have written it. *)
Definition operator_call (s : System) (x dx : State) (t : Q) : State :=
  let dx1 :=
    if mNodeStates s >? 0
    then fold_left (fun acc v => nd_fn (dynamic (nodeData s v)) v s x acc t) (NodeIt s) dx
    else dx in
  if mArcStates s >? 0
  then fold_left (fun acc a => ad_fn (arc_dynamic (arcData s (arc_id a))) (arc_id a) s x acc t)
         (ArcIt s) dx1
  else dx1.

End Dispatch.

(** ** The graph library (LEMON)

    [digraphCopy] and [countConnectedComponents] are LEMON's.  A copy
    yields the structure of the new graph, the node reference map [nr]
    (from the nodes of the source to their copies) and the arc map [acr].
    [copySystem] has LEMON fill [acr] as the arc cross reference, which
    goes from the arcs of the copy to the arcs of the source, and then
    reads it at the arcs of the source. *)
Record GraphCopy := mkGraphCopy {
  gc_nodes : list Node;
  gc_arcs : list ArcRec;
  gc_next_node : nat;
  gc_next_arc : nat;
  gc_nr : Node -> Node;
  gc_acr : Arc -> Arc
}.

Class Lemon := {
  digraphCopy : System -> GraphCopy;
  countConnectedComponents : System -> Z;
  (** the number [lemon::Random::operator()] yields in a state *)
  random_draw : Random -> Q
}.

(** [mRnd ()]: the number drawn and the generator after the draw. *)
Definition Random_call `{LM : Lemon} (r : Random) : Q * Random :=
  (random_draw r, mkRandom (rnd_seed r) (S (rnd_draws r))).

Section Copy.
Context `{UD : UserDynamics} `{LM : Lemon}.

(** [void System::copySystem (System &from)], called on [this]. *)
Definition copySystem (from this : System) : System :=
  let s0 := clear this in
  let gc := digraphCopy from in
  let s1 := set_graph (gc_nodes gc) (gc_arcs gc) (gc_next_node gc) (gc_next_arc gc) s0 in
  let s2 := set_mArcDynamics (mArcDynamics from)
              (set_mNodeDynamics (mNodeDynamics from) s1) in
  let s3 := fold_left (fun acc v => set_nodeData (gc_nr gc v) (nodeData from v) acc)
              (NodeIt from) s2 in
  let s4 := fold_left (fun acc a => set_arcData (gc_acr gc (arc_id a))
                                      (arcData from (arc_id a)) acc)
              (ArcIt from) s3 in
  let s5 := set_mValidArcIDs false (set_mValidNodeIDs false s4) in
  let s6 := set_mArcStates (mArcStates from) (set_mNodeStates (mNodeStates from) s5) in
  set_mNextKey (mNextKey from) s6.

(** [int System::weaklyConnectedComponents ()]. *)
Definition weaklyConnectedComponents (s : System) : Z :=
  countConnectedComponents s.

End Copy.

(** ** Change logs (system.h, system.cc) *)

Inductive step_type_e := INIT_STEP | SIM_STEP | EVO_STEP.

(** A call of a method of the [ChangeLog] interface. *)
Inductive LogCall :=
| LogAddNode (sys : System) (n : Node)
| LogAddArc (sys : System) (source target : Node)
| LogEraseNode (sys : System) (n : Node)
| LogEraseArc (sys : System) (e : Arc)
| LogUpdateNode (sys : System) (n : Node)
| LogUpdateArc (sys : System) (e : Arc)
| LogNewState (sys : System) (newState : State)
| LogEndStep (stepType : step_type_e)
| LogRollback
| LogCommit.

(** How a call into the library ends: it returns, it indexes a vector
    past its end (undefined behaviour), or the model ran out of fuel. *)
Inductive Outcome (A : Type) :=
| Returned (a : A)
| OutOfBounds (a : A)
| OutOfFuel (a : A).

Arguments Returned {A} a.
Arguments OutOfBounds {A} a.
Arguments OutOfFuel {A} a.

Module ChangeLogSet.

(** A registered [ChangeLog*]. *)
Definition ChangeLogPtr := nat.

Record t := mk { mLoggers : list ChangeLogPtr }.

(** The calls received by the sub-loggers, oldest first. *)
Definition Trace := list (ChangeLogPtr * LogCall).

Definition new : t := mk [].

(** [void ChangeLogSet::addChangeLog (ChangeLog *logger)]. *)
Definition addChangeLog (logger : ChangeLogPtr) (s : t) : t :=
  mk (mLoggers s ++ [logger]).

(** The loop shared by the ten methods,
    [for (int i=0; mLoggers.size(); ++i) { mLoggers[i]->call; }]:
    the condition is the size of the vector, and [mLoggers[i]] is read
    whatever [i] is. *)
Fixpoint forward (fuel : nat) (s : t) (c : LogCall) (i : nat) (tr : Trace) : Outcome Trace :=
  match fuel with
  | O => OutOfFuel tr
  | S fuel' =>
      if negb (Z.of_nat (length (mLoggers s)) =? 0)
      then match mLoggers s !! i with
           | None => OutOfBounds tr
           | Some l => forward fuel' s c (S i) (tr ++ [(l, c)])
           end
      else Returned tr
  end.

Definition addNode (fuel : nat) (s : t) (sys : System) (n : Node) :=
  forward fuel s (LogAddNode sys n) 0 [].
Definition addArc (fuel : nat) (s : t) (sys : System) (source target : Node) :=
  forward fuel s (LogAddArc sys source target) 0 [].
Definition erase_node (fuel : nat) (s : t) (sys : System) (n : Node) :=
  forward fuel s (LogEraseNode sys n) 0 [].
Definition erase_arc (fuel : nat) (s : t) (sys : System) (e : Arc) :=
  forward fuel s (LogEraseArc sys e) 0 [].
Definition update_node (fuel : nat) (s : t) (sys : System) (n : Node) :=
  forward fuel s (LogUpdateNode sys n) 0 [].
Definition update_arc (fuel : nat) (s : t) (sys : System) (e : Arc) :=
  forward fuel s (LogUpdateArc sys e) 0 [].
Definition newState (fuel : nat) (s : t) (sys : System) (x : State) :=
  forward fuel s (LogNewState sys x) 0 [].
Definition endStep (fuel : nat) (s : t) (stepType : step_type_e) :=
  forward fuel s (LogEndStep stepType) 0 [].
Definition rollback (fuel : nat) (s : t) :=
  forward fuel s LogRollback 0 [].
Definition commit (fuel : nat) (s : t) :=
  forward fuel s LogCommit 0 [].

(** What the specification asks of a call: every sub-logger receives it
    once, in registration order. *)
Definition fan_out (s : t) (c : LogCall) : Trace :=
  map (fun l => (l, c)) (mLoggers s).

End ChangeLogSet.

(** ** Simulation (simulate.h, simulate.cc) *)

(** What a [simulate] call does to its surroundings: a line on [cerr], a
    call of the change log, a call of the observer. *)
Inductive SimEvent :=
| Cerr (msg : string)
| Log (c : LogCall)
| Observe (x : State) (t : Q).

Inductive fixed_step_type_e := RK_4 | ADAM_BASH_MOUL.
Inductive adaptive_step_type_e := RK_CASH_KARP_54 | RK_DOPRI_5 | RK_DOPRI_5_DENSE.

(** The steppers handed to odeint. *)
Inductive Stepper :=
| runge_kutta4
| adams_bashforth_moulton5
| controlled_cash_karp54 (epsAbs epsRel : Q)
| controlled_dopri5 (epsAbs epsRel : Q)
| dense_dopri5 (epsAbs epsRel : Q).

(** The integration kernels of odeint: from a stepper, the derivative
    function, the start state, the start and end times and a step, the
    samples [(x, t)] handed to the observer, in order, and the end
    state. *)
Class Odeint := {
  integrate_const :
    Stepper -> (State -> State -> Q -> State) -> State -> Q -> Q -> Q ->
    list (State * Q) * State;
  integrate_adaptive :
    Stepper -> (State -> State -> Q -> State) -> State -> Q -> Q -> Q ->
    list (State * Q) * State
}.

(** The simulators: the base class, whose [simulate] is empty, and its
    four subclasses with their private members. *)
Inductive Simulate :=
| SimulateBase
| SimulateMap
| SimulateOdeFixed (mStepper : fixed_step_type_e) (mStepSize : Q)
| SimulateOdeConst (mStepper : adaptive_step_type_e) (mEpsAbs mEpsRel mOutputStep : Q)
| SimulateOdeAdaptive (mStepper : adaptive_step_type_e) (mEpsAbs mEpsRel mInitialStep : Q).

(** The range of a 32-bit [int]. *)
Definition INT_MIN : Z := -2147483648.
Definition INT_MAX : Z := 2147483647.

(** [(int) d]: truncation toward zero.  Where the truncated value is
    outside the range of [int] the conversion is undefined in C++; the
    conversion instruction of x86 yields [INT_MIN] there, and that is the
    value taken here. *)
Definition trunc (d : Q) : Z :=
  let z := Z.quot (Qnum d) (Z.pos (Qden d)) in
  if (INT_MIN <=? z) && (z <=? INT_MAX) then z else INT_MIN.

(** [(double) n] for a [size_t] [n]: a [double] has 53 significant
    bits, a larger number is rounded to the nearest one that can be
    represented, a tie to the one with an even last bit.  The value is a
    whole number. *)
Definition size_t_to_double (n : Z) : Z :=
  if n <? 2 ^ 53 then n
  else
    let e := Z.log2 n - 52 in
    let q := n / 2 ^ e in
    let r := n mod 2 ^ e in
    let half := 2 ^ (e - 1) in
    let q' := if (half <? r) || ((r =? half) && Z.odd q) then q + 1 else q in
    q' * 2 ^ e.

(** [(size_t) i] on a 64-bit target. *)
Definition to_size_t (i : Z) : Z := i mod 2 ^ 64.

(** [v.size ()]. *)
Definition size {A : Type} (v : list A) : Z := Z.of_nat (length v).

Section Simulation.
Context `{UD : UserDynamics} `{OD : Odeint}.

(** The four calls made for a sample, by [SimulateMap::simulate] and by
    [ObserverPassThrough::operator()]. *)
Definition sample (sys : System) (x : State) (t : Q) : list SimEvent :=
  [Log (LogNewState sys x); Log (LogEndStep SIM_STEP); Log LogCommit; Observe x t].

Definition ObserverPassThrough (sys : System) (samples : list (State * Q)) : list SimEvent :=
  flat_map (fun xt => sample sys (fst xt) (snd xt)) samples.

(** [int states = countNodes*nodeStates + countArcs*arcStates] and the
    test [initial.size() < states || initial.size() > states].  The
    widths of a System are never negative ([widths_nonneg] below), so
    the two sides are compared as integers. *)
Definition states_of (sys : System) : Z :=
  countNodes sys * mNodeStates sys + countArcs sys * mArcStates sys.

Definition wrong_size (initial : State) (sys : System) : bool :=
  (size initial <? states_of sys) || (size initial >? states_of sys).

(** [if (!sys.validStateIDs()) { sys.refreshStateIDs(); }]. *)
Definition ensure_state_ids (sys : System) : System :=
  if negb (validStateIDs sys) then refreshStateIDs sys else sys.

(** The loop [for (t = 1; t <= tEnd; t++)] of [SimulateMap::simulate],
    [n] iterations from [t]; it yields [t], [y1], [y2] and the events.
    [t] and [tEnd] are [int]s.  With [tEnd < INT_MAX] the loop is left
    after [tEnd] iterations (none when [tEnd < 1]) with [t = tEnd + 1],
    as here.  With [tEnd = INT_MAX] the test cannot fail and [t++]
    overflows: the source does not return, and this function, which does,
    is not a model of it. *)
Fixpoint map_steps (n : nat) (t : Z) (sys : System) (y1 y2 : State)
    (tr : list SimEvent) : Z * State * State * list SimEvent :=
  match n with
  | O => (t, y1, y2, tr)
  | S n' =>
      if Z.rem t 2 =? 0
      then let y2' := operator_call sys y1 y2 (inject_Z t) in
           map_steps n' (t + 1) sys y1 y2' (tr ++ sample sys y2' (inject_Z t))
      else let y1' := operator_call sys y2 y1 (inject_Z t) in
           map_steps n' (t + 1) sys y1' y2 (tr ++ sample sys y1' (inject_Z t))
  end.

(** [SimulateMap::simulate]: the System, the vector [initial] and the
    events after the call, for [(int) tMax < INT_MAX] (see [map_steps])
    and a System that is [dynamics_bound] (the maps are evaluated
    through the dynamics pointers). *)
Definition SimulateMap_simulate (sys : System) (tMax : Q) (initial : State)
    : System * State * list SimEvent :=
  let tEnd := trunc tMax in
  if wrong_size initial sys
  then (sys, initial,
        [Cerr "Incorrect number of states for initial conditions (SimulateMap::simulate)"])
  else
    let y1 := initial in
    let y2 := initial in
    let sys1 := ensure_state_ids sys in
    let tr0 := sample sys1 y1 0 in
    let '(t, y1', y2', tr) := map_steps (Z.to_nat tEnd) 1 sys1 y1 y2 tr0 in
    (sys1, if Z.rem t 2 =? 0 then y1' else y2', tr).

Definition fixed_stepper (st : fixed_step_type_e) : Stepper :=
  match st with
  | RK_4 => runge_kutta4
  | ADAM_BASH_MOUL => adams_bashforth_moulton5
  end.

Definition adaptive_stepper (st : adaptive_step_type_e) (epsAbs epsRel : Q) : Stepper :=
  match st with
  | RK_CASH_KARP_54 => controlled_cash_karp54 epsAbs epsRel
  | RK_DOPRI_5 => controlled_dopri5 epsAbs epsRel
  | RK_DOPRI_5_DENSE => dense_dopri5 epsAbs epsRel
  end.

(** [SimulateOdeFixed::simulate]. *)
Definition SimulateOdeFixed_simulate (mStepper : fixed_step_type_e) (mStepSize : Q)
    (sys : System) (tMax : Q) (initial : State) : System * State * list SimEvent :=
  if wrong_size initial sys
  then (sys, initial,
        [Cerr "Incorrect number of states for initial conditions (SimulateOdeFixed::simulate)"])
  else
    let sys1 := ensure_state_ids sys in
    let '(samples, final) :=
      integrate_const (fixed_stepper mStepper) (operator_call sys1) initial 0 tMax mStepSize in
    (sys1, final, ObserverPassThrough sys1 samples).

(** [SimulateOdeConst::simulate]. *)
Definition SimulateOdeConst_simulate (mStepper : adaptive_step_type_e)
    (mEpsAbs mEpsRel mOutputStep : Q)
    (sys : System) (tMax : Q) (initial : State) : System * State * list SimEvent :=
  if wrong_size initial sys
  then (sys, initial,
        [Cerr "Incorrect number of states for initial conditions (SimulateOdeConst::simulate)"])
  else
    let sys1 := ensure_state_ids sys in
    let '(samples, final) :=
      integrate_const (adaptive_stepper mStepper mEpsAbs mEpsRel) (operator_call sys1)
        initial 0 tMax mOutputStep in
    (sys1, final, ObserverPassThrough sys1 samples).

(** [SimulateOdeAdaptive::simulate]. *)
Definition SimulateOdeAdaptive_simulate (mStepper : adaptive_step_type_e)
    (mEpsAbs mEpsRel mInitialStep : Q)
    (sys : System) (tMax : Q) (initial : State) : System * State * list SimEvent :=
  if wrong_size initial sys
  then (sys, initial,
        [Cerr "Incorrect number of states for initial conditions (SimulateOdeAdaptive::simulate)"])
  else
    let sys1 := ensure_state_ids sys in
    let '(samples, final) :=
      integrate_adaptive (adaptive_stepper mStepper mEpsAbs mEpsRel) (operator_call sys1)
        initial 0 tMax mInitialStep in
    (sys1, final, ObserverPassThrough sys1 samples).

(** The virtual call [sim.simulate (sys, tMax, initial, obs, logger)]. *)
Definition simulate (sim : Simulate) (sys : System) (tMax : Q) (initial : State)
    : System * State * list SimEvent :=
  match sim with
  | SimulateBase => (sys, initial, [])
  | SimulateMap => SimulateMap_simulate sys tMax initial
  | SimulateOdeFixed st h => SimulateOdeFixed_simulate st h sys tMax initial
  | SimulateOdeConst st ea er h => SimulateOdeConst_simulate st ea er h sys tMax initial
  | SimulateOdeAdaptive st ea er h => SimulateOdeAdaptive_simulate st ea er h sys tMax initial
  end.

(** The calls of the observer in a trace, as [SimObserverToVectors]
    stores them: the states and their times. *)
Definition observed (tr : list SimEvent) : list State * list Q :=
  (flat_map (fun ev => match ev with Observe x _ => [x] | _ => [] end) tr,
   flat_map (fun ev => match ev with Observe _ t => [t] | _ => [] end) tr).

(** The calls of the change log in a trace. *)
Definition logged (tr : list SimEvent) : list LogCall :=
  flat_map (fun ev => match ev with Log c => [c] | _ => [] end) tr.

End Simulation.

(** ** Simulated annealing (evolve.h, evolve_sa.h, evolve_sa.cc) *)

Inductive performance_type_e := TOPOLOGY_ONLY | DYNAMICS_ONLY | TOPOLOGY_AND_DYNAMICS.

(** [evolve_sa_result_t]. *)
Record evolve_sa_result_t := mkResult { Q1 : Q; Q2 : Q; dQ : Q; a : bool }.

(** The data members of [EvolveSAParams]. *)
Record EvolveSAParams := mkParams {
  initialTrials : Z;
  mainTrials : Z;
  acceptTrials : Z;
  acceptRunsNoChange : Z;
  minTemp : Q;
  maxIterations : Z;
  ensureWeaklyConnected : bool;
  simTMax : Q
}.

(** The values set by the constructor [EvolveSAParams ()]. *)
Definition EvolveSAParams_default : EvolveSAParams :=
  mkParams 100 50 10 10 (1 # 100) 100000 true 100.

(** The defaults of two of the virtual methods of [EvolveSAParams]. *)
Definition initialTemperature_default (minQ maxQ : Q) : Q := (maxQ * 4)%Q.
Definition newTemperature_default (temp q oldQ : Q) : Q := (temp * (9 # 10))%Q.

(** The objects an [EvolveSA] works with: the parameters and their
    virtual methods, the random number generator [mParams.rnd], the
    [Performance] [mQ], the [Mutate] [mMut] and the [EvoInitialStates].
    [World] is the state these objects keep between calls (the random
    number generators among it). *)
Class Collaborators := {
  World : Type;
  mParams : EvolveSAParams;
  mParams_rnd : World -> Q * World;
  initialTemperature : Q -> Q -> Q;
  newTemperature : Q -> Q -> Q -> Q;
  acceptProb : Q -> Q -> Q;
  mQ_getType : performance_type_e;
  mQ_performance : System -> option (list State * list Q) -> Q;
  mMut_mutate : System -> World -> System * World;
  initial_initialStates : System -> World -> list State * World
}.

(** [x < y] on doubles. *)
Definition Qlt_bool (x y : Q) : bool := negb (Qle_bool y x).

(** [b++] on a [bool]: the result is [true]. *)
Definition bool_incr (b : bool) : bool := true.

(** A call of the [EvoObserver]. *)
Inductive EvoEvent := EvoObserve (sys : System) (perf : Q) (t : Z).

Module EvolveSA.
Section EvolveSA.
Context `{UD : UserDynamics} `{LM : Lemon} `{OD : Odeint} `{CO : Collaborators}.
Variable sim : Simulate.

(** The loop over the initial conditions of [EvolveSA::performance];
  [qSum] is an [int], so [qSum += d] converts the sum back to [int]
  ([trunc]: toward zero, and [INT_MIN] for a sum outside the range). *)
Fixpoint performance_loop (conds : list State) (sys : System) (qSum : Z) : System * Z :=
match conds with
| [] => (sys, qSum)
| runInit :: rest =>
    let '(sys1, _, tr) := simulate sim sys (simTMax mParams) runInit in
    let dyn := observed tr in
    let qSum1 := trunc (inject_Z qSum + mQ_performance sys1 (Some dyn))%Q in
    performance_loop rest sys1 qSum1
end.

(** [double EvolveSA::performance (System &sys, Simulate &sim,
  EvoInitialStates &initial)]: the result, and [sys] and the world
  after the call. *)
Definition performance (sys : System) (w : World) : Q * System * World :=
let perf : Q := 100000000000%Q in
match mQ_getType with
| TOPOLOGY_ONLY => (mQ_performance sys None, sys, w)
| DYNAMICS_ONLY | TOPOLOGY_AND_DYNAMICS =>
    let '(initialConds, w1) := initial_initialStates sys w in
    let numOfSims := size initialConds in
    if numOfSims >? 0
    then let '(sys1, qSum) := performance_loop initialConds sys 0 in
         (inject_Z (size_t_to_double (to_size_t qSum / size initialConds)), sys1, w1)
    else (perf, sys, w1)
end.

(** [System * EvolveSA::trial (temp, sys, sim, initial, result, logger)]:
  the new System, and [sys], [result] and the world after the call. *)
Definition trial (temp : Q) (sys : System) (result : evolve_sa_result_t) (w : World)
  : System * System * evolve_sa_result_t * World :=
let result0 := mkResult (Q1 result) (Q2 result) (dQ result) false in
let newSys0 := copySystem sys System_new in
let '(newSys, w1) := mMut_mutate newSys0 w in
if ensureWeaklyConnected mParams && negb (weaklyConnectedComponents newSys =? 1)
then (newSys, sys, result0, w1)
else
  let '(q2, sys1, w2) := performance sys w1 in
  let dq := (Q1 result0 - q2)%Q in
  if Qlt_bool 0 dq
  then (newSys, sys1, mkResult (Q1 result0) q2 dq true, w2)
  else
    if negb (Qeq_bool temp 0) && Qlt_bool 0 temp
    then let '(r, w3) := mParams_rnd w2 in
         if Qle_bool r (acceptProb dq temp)
         then (newSys, sys1, mkResult (Q1 result0) q2 dq true, w3)
         else (newSys, sys1, mkResult (Q1 result0) q2 dq false, w3)
    else (newSys, sys1, mkResult (Q1 result0) q2 dq false, w2).

(** The variables of [EvolveSA::evolve] that the cooling loop changes. *)
Record LoopState := mkLoopState {
ls_curSys : System;
ls_result : evolve_sa_result_t;
ls_iteration : Z;
ls_temp : Q;
ls_noChange : bool;
ls_world : World;
ls_obs : list EvoEvent
}.

(** The initial trials: the first runs on [curSys] itself ([tempSys]
  is [curSys]), the others on the System of the trial before.  With
  no initial trial [delete(newSys)] frees an uninitialised pointer:
  [None]. *)
Fixpoint initial_trials (n : nat) (temp : Q) (tempSys : System)
  (result : evolve_sa_result_t) (minQ maxQ : Q) (w : World)
  : evolve_sa_result_t * Q * Q * World :=
match n with
| O => (result, minQ, maxQ, w)
| S n' =>
    let '(newSys, _, result1, w1) := trial temp tempSys result w in
    let minQ1 := if Qlt_bool (Q2 result1) minQ then Q2 result1 else minQ in
    let maxQ1 := if Qlt_bool maxQ (Q2 result1) then Q2 result1 else maxQ in
    initial_trials n' temp newSys result1 minQ1 maxQ1 w1
end.

Definition bootstrap (temp : Q) (curSys : System) (result : evolve_sa_result_t)
  (minQ maxQ : Q) (w : World)
  : option (System * evolve_sa_result_t * Q * Q * World) :=
match Z.to_nat (initialTrials mParams) with
| O => None
| S n' =>
    let '(newSys, curSys1, result1, w1) := trial temp curSys result w in
    let minQ1 := if Qlt_bool (Q2 result1) minQ then Q2 result1 else minQ in
    let maxQ1 := if Qlt_bool maxQ (Q2 result1) then Q2 result1 else maxQ in
    let '(result2, minQ2, maxQ2, w2) :=
      initial_trials n' temp newSys result1 minQ1 maxQ1 w1 in
    Some (curSys1, result2, minQ2, maxQ2, w2)
end.

(** One trial of the cooling loop, from [newSys = trial (...)] to the
  update of [accepts]. *)
Definition main_trial (st : LoopState) (accepts : Z) : LoopState * Z :=
let '(newSys, sys1, r, w1) :=
  trial (ls_temp st) (ls_curSys st) (ls_result st) (ls_world st) in
let curSys := if a r then newSys else sys1 in
let r1 := if a r then mkResult (Q2 r) (Q1 r) (dQ r) (a r) else r in
let accepts1 := if a r then accepts + 1 else accepts in
(mkLoopState curSys r1 (ls_iteration st) (ls_temp st) (ls_noChange st) w1
   (ls_obs st ++ [EvoObserve curSys (Q1 r1) (ls_iteration st)]),
 accepts1).

(** [for (i=0; i<mParams.mainTrials; i++)], [k] iterations left.
    [iteration] is an [int]: [iteration++] is followed up to [INT_MAX].
    With [maxIterations < INT_MAX] the count never passes
    [maxIterations + 1]; with [maxIterations = INT_MAX] the test
    [iteration > maxIterations] cannot hold and the count of the source
    overflows, which this function does not follow. *)
Fixpoint main_trials (k : nat) (st : LoopState) (accepts : Z) : LoopState * Z :=
match k with
| O => (st, accepts)
| S k' =>
    let st1 := mkLoopState (ls_curSys st) (ls_result st) (ls_iteration st + 1)
                 (ls_temp st) (ls_noChange st) (ls_world st) (ls_obs st) in
    if ls_iteration st1 >? maxIterations mParams
    then (st1, accepts)
    else
      let '(st2, accepts2) := main_trial st1 accepts in
      if accepts2 >=? acceptTrials mParams
      then (st2, accepts2)
      else main_trials k' st2 accepts2
end.

(** The update of [noChange], declared [bool noChange], after the
  trials of an outer iteration. *)
Definition update_noChange (accepts : Z) (noChange : bool) : bool :=
if accepts =? 0 then bool_incr noChange else false.

(** The condition of the [while]; [noChange] is promoted to [int]. *)
Definition continue_search (st : LoopState) : bool :=
(Z.b2z (ls_noChange st) <=? acceptRunsNoChange mParams)
&& Qlt_bool (minTemp mParams) (ls_temp st)
&& (ls_iteration st <=? maxIterations mParams).

(** The body of the [while]; it also yields [accepts]. *)
Definition outer_iteration (st : LoopState) : LoopState * Z :=
let '(st1, accepts) := main_trials (Z.to_nat (mainTrials mParams)) st 0 in
(mkLoopState (ls_curSys st1) (ls_result st1) (ls_iteration st1)
   (newTemperature (ls_temp st1) (Q1 (ls_result st1)) (Q2 (ls_result st1)))
   (update_noChange accepts (ls_noChange st1)) (ls_world st1) (ls_obs st1),
 accepts).

(** The [while] loop; the list is the [accepts] of the outer
  iterations run, oldest first. *)
Fixpoint cooling_loop (fuel : nat) (st : LoopState) (runs : list Z)
  : Outcome (LoopState * list Z) :=
match fuel with
| O => OutOfFuel (st, runs)
| S fuel' =>
    if continue_search st
    then let '(st1, accepts) := outer_iteration st in
         cooling_loop fuel' st1 (runs ++ [accepts])
    else Returned (st, runs)
end.

(** [System * EvolveSA::evolve (sys, sim, initial, obs, logger)]. *)
Definition evolve (fuel : nat) (sys : System) (w : World)
  : option (Outcome (LoopState * list Z)) :=
let curSys0 := copySystem sys System_new in
let result0 := mkResult 0 0 0 false in
let iteration := 0 in
let temp0 : Q := 1000000000000%Q in
let '(initialPerf, curSys1, w1) := performance curSys0 w in
let result1 := mkResult initialPerf (Q2 result0) (dQ result0) (a result0) in
let obs0 := [EvoObserve curSys1 initialPerf iteration] in
match bootstrap temp0 curSys1 result1 initialPerf initialPerf w1 with
| None => None
| Some (curSys2, result2, minQ, maxQ, w2) =>
    let temp := initialTemperature minQ maxQ in
    let st := mkLoopState curSys2 result2 iteration temp false w2 obs0 in
    if Qlt_bool 0 temp
    then Some (cooling_loop fuel st [])
    else Some (Returned (st, []))
end.

End EvolveSA.
End EvolveSA.

(** ** Saving and loading (system.cc, gml.h)

    A GML file is represented by the list of key-value pairs that
    [GML_parser] builds from it.  How a number or a string reads back once
    written as text is the business of [operator<<] and of [GML_scanner];
    the class [Text] stands for them. *)
Module GML.

(** [struct GML_pair], by kind. *)
Local Unset Elimination Schemes.
Inductive GML_pair :=
| GML_INT (k : string) (integer : Z)
| GML_DOUBLE (k : string) (floating : Q)
| GML_STRING (k : string) (str : string)
| GML_LIST (k : string) (l : list GML_pair).
Local Set Elimination Schemes.

Definition pair_key (p : GML_pair) : string :=
  match p with
  | GML_INT k _ | GML_DOUBLE k _ | GML_STRING k _ | GML_LIST k _ => k
  end.

Class Text := {
  (** the token scanned from a [double] written with [<<] that is not a
      whole number of at most six digits: an integer or a
      floating-point number *)
  scanned_double : Q -> Z + Q;
  (** the text [<<] writes for a [double] *)
  print_double : Q -> string;
  (** [stm >> d] on one item of a comma-separated list *)
  read_double : string -> Q;
  (** the string scanned from a string written between quotes that is
      not [plain] *)
  scanned_string : string -> string;
  (** the date written after the creator *)
  creation_time : string
}.

(** A string without double quote, ampersand and NUL: the scanner
    copies it (a NUL ends the copy). *)
Fixpoint plain (s : string) : bool :=
  match s with
  | EmptyString => true
  | String c rest =>
      negb (Ascii.eqb c (ascii_of_nat 34)) && negb (Ascii.eqb c "&"%char)
      && negb (Ascii.eqb c Ascii.zero) && plain rest
  end.

(** A whole number of at most six digits: [<<] writes its digits and
    the scanner reads an integer. *)
Definition small_integer (d : Q) : bool :=
  (Z.rem (Qnum d) (Z.pos (Qden d)) =? 0)
  && (Z.abs (Z.quot (Qnum d) (Z.pos (Qden d))) <? 1000000).

(** [while (getline (ss, s, ','))]: the items between commas; an empty
    rest after the last comma gives no item. *)
Fixpoint getline_items (s cur : string) : list string :=
  match s with
  | EmptyString => if String.eqb cur "" then [] else [cur]
  | String c rest =>
      if Ascii.eqb c ","%char
      then cur :: getline_items rest ""
      else getline_items rest (String.append cur (String c ""))
  end.

(** [std::map::operator[]] on a map of pointers: a missing key is
    inserted with a null pointer. *)
Definition map_index {V : Type} (null : V) (k : string) (m : gmap string V)
    : V * gmap string V :=
  match m !! k with
  | Some p => (p, m)
  | None => (null, <[k := null]> m)
  end.

Section Codec.
Context `{UD : UserDynamics} `{TX : Text}.

Definition number (k : string) (d : Q) : GML_pair :=
  if small_integer d
  then GML_INT k (Z.quot (Qnum d) (Z.pos (Qden d)))
  else match scanned_double d with
       | inl z => GML_INT k z
       | inr f => GML_DOUBLE k f
       end.

(** The loop writing a list of doubles separated by commas. *)
Definition join_doubles (l : list Q) : string :=
  match l with
  | [] => ""
  | d :: l' =>
      fold_left (fun acc x => String.append acc (String.append "," (print_double x)))
        l' (print_double d)
  end.

(** A name written between double quotes, as [GML_scanner] reads it
    back.  [saveToGML] writes the name as it is.  A [plain] name comes
    back as written.  An ampersand starts a character entity for the
    scanner and a NUL ends the copy of the string ([scanned_string]).  A
    double quote inside the name ends the string for the scanner and
    what follows is read as further tokens: such a file does not parse,
    which this function does not follow; see [names_plain]. *)
Definition quoted (k s : string) : GML_pair :=
  GML_STRING k (if plain s then s else scanned_string s).

(** [nodeMap[v]]: the position of [v] in [NodeIt] order. *)
Fixpoint nodeMap (l : list Node) (i : Z) (v : Node) : Z :=
  match l with
  | [] => 0
  | x :: l' => if Nat.eqb x v then i else nodeMap l' (i + 1) v
  end.

Definition save_node (s : System) (i : Z) (v : Node) : GML_pair :=
  let d := nodeData s v in
  GML_LIST "node"
    [ GML_INT "id" i;
      GML_INT "key" (key d);
      quoted "label" (name d);
      GML_LIST "graphics"
        [ number "x" (pos_x (position d));
          number "y" (pos_y (position d));
          number "z" (pos_z (position d)) ];
      quoted "properties" (join_doubles (properties d));
      quoted "dynName" (nd_getName (dynamic d));
      quoted "dynParams" (join_doubles (dynamicParams d)) ].

Fixpoint save_nodes (s : System) (i : Z) (l : list Node) : list GML_pair :=
  match l with
  | [] => []
  | v :: l' => save_node s i v :: save_nodes s (i + 1) l'
  end.

Definition save_edge (s : System) (e : ArcRec) : GML_pair :=
  let d := arcData s (arc_id e) in
  GML_LIST "edge"
    [ GML_INT "source" (nodeMap (NodeIt s) 0 (arc_source e));
      GML_INT "target" (nodeMap (NodeIt s) 0 (arc_target e));
      quoted "label" (arc_name d);
      number "weight" (weight d);
      quoted "properties" (join_doubles (arc_properties d));
      quoted "dynName" (ad_getName (arc_dynamic d));
      quoted "dynParams" (join_doubles (arc_dynamicParams d)) ].

(** [int System::saveToGML (string filename)]: the content of the
    file written. *)
Definition saveToGML (s : System) : list GML_pair :=
  [ quoted "Creator" (String.append "NetEvo 2.0.0" creation_time);
    GML_LIST "graph"
      (GML_INT "directed" 1
         :: save_nodes s 0 (NodeIt s) ++ map (save_edge s) (ArcIt s)) ].

(** *** Loading.  A failed [assert] and a read of a missing map entry
    are [None]. *)

Fixpoint find_graph (l : list GML_pair) : option (list GML_pair) :=
  match l with
  | [] => None
  | p :: l' =>
      if String.eqb (pair_key p) "graph"
      then match p with GML_LIST _ g => Some g | _ => None end
      else find_graph l'
  end.

Fixpoint find_id (l : list GML_pair) : option Z :=
  match l with
  | [] => None
  | p :: l' =>
      if String.eqb (pair_key p) "id"
      then match p with GML_INT _ z => Some z | _ => None end
      else find_id l'
  end.

(** The search for [source] and [target], which stops once both are
    found. *)
Fixpoint find_ends (l : list GML_pair) (src tgt : option Z) : option (Z * Z) :=
  match l with
  | [] => match src, tgt with Some x, Some y => Some (x, y) | _, _ => None end
  | p :: l' =>
      if String.eqb (pair_key p) "source"
      then match p with
           | GML_INT _ z =>
               match tgt with Some y => Some (z, y) | None => find_ends l' (Some z) tgt end
           | _ => None
           end
      else if String.eqb (pair_key p) "target"
      then match p with
           | GML_INT _ z =>
               match src with Some x => Some (x, z) | None => find_ends l' src (Some z) end
           | _ => None
           end
      else find_ends l' src tgt
  end.

(** The pass that sorts the entries of the graph into [node_entries]
    and [edge_entries]. *)
Fixpoint sort_entries (l : list GML_pair)
    (node_entries : list (Z * list GML_pair))
    (edge_entries : list (Z * Z * list GML_pair))
    : option (list (Z * list GML_pair) * list (Z * Z * list GML_pair)) :=
  match l with
  | [] => Some (node_entries, edge_entries)
  | p :: l' =>
      if String.eqb (pair_key p) "node"
      then match p with
           | GML_LIST _ attrs =>
               match find_id attrs with
               | Some i => sort_entries l' (node_entries ++ [(i, attrs)]) edge_entries
               | None => None
               end
           | _ => None
           end
      else if String.eqb (pair_key p) "edge"
      then match p with
           | GML_LIST _ attrs =>
               match find_ends attrs None None with
               | Some (x, y) =>
                   sort_entries l' node_entries (edge_entries ++ [(x, y, attrs)])
               | None => None
               end
           | _ => None
           end
      else sort_entries l' node_entries edge_entries
  end.

Definition parse_doubles (s : string) : list Q :=
  map read_double (getline_items s "").

Definition graphics_attr (d : NodeData) (p : GML_pair) : NodeData :=
  let coord : option Q :=
    match p with
    | GML_DOUBLE _ f => Some f
    | GML_INT _ z => Some (inject_Z z)
    | _ => None
    end in
  match coord with
  | None => d
  | Some c =>
      let pos := position d in
      let pos1 := if String.eqb (pair_key p) "x"
                  then mkPosition c (pos_y pos) (pos_z pos) else pos in
      let pos2 := if String.eqb (pair_key p) "y"
                  then mkPosition (pos_x pos1) c (pos_z pos1) else pos1 in
      let pos3 := if String.eqb (pair_key p) "z"
                  then mkPosition (pos_x pos2) (pos_y pos2) c else pos2 in
      mkNodeData (key d) (name d) pos3 (properties d) (dynamic d) (dynamicParams d)
  end.

(** One attribute of a node entry, applied to [nData]. *)
Definition node_attr (v : Node) (s : System) (p : GML_pair) : option System :=
  let d := nodeData s v in
  let k := pair_key p in
  if String.eqb k "label" then
    match p with
    | GML_STRING _ str =>
        Some (set_nodeData v (mkNodeData (key d) str (position d) (properties d)
                                (dynamic d) (dynamicParams d)) s)
    | _ => None
    end
  else if String.eqb k "key" then
    match p with
    | GML_DOUBLE _ f =>
        Some (set_nodeData v (mkNodeData (trunc f) (name d) (position d) (properties d)
                                (dynamic d) (dynamicParams d)) s)
    | GML_INT _ z =>
        Some (set_nodeData v (mkNodeData z (name d) (position d) (properties d)
                                (dynamic d) (dynamicParams d)) s)
    | _ => Some s
    end
  else if String.eqb k "graphics" then
    match p with
    | GML_LIST _ l => Some (set_nodeData v (fold_left graphics_attr l d) s)
    | _ => None
    end
  else if String.eqb k "properties" then
    match p with
    | GML_STRING _ str =>
        Some (set_nodeData v (mkNodeData (key d) (name d) (position d) (parse_doubles str)
                                (dynamic d) (dynamicParams d)) s)
    | _ => None
    end
  else if String.eqb k "dynName" then
    match p with
    | GML_STRING _ str =>
        let '(dyn, reg) := map_index NodeNULL str (mNodeDynamics s) in
        Some (set_nodeData v (mkNodeData (key d) (name d) (position d) (properties d)
                                dyn (dynamicParams d))
                (set_mNodeDynamics reg s))
    | _ => None
    end
  else if String.eqb k "dynParams" then
    match p with
    | GML_STRING _ str =>
        Some (set_nodeData v (mkNodeData (key d) (name d) (position d) (properties d)
                                (dynamic d) (parse_doubles str)) s)
    | _ => None
    end
  else Some s.

Fixpoint apply_attrs {A : Type} (f : A -> System -> GML_pair -> option System)
    (x : A) (s : System) (l : list GML_pair) : option System :=
  match l with
  | [] => Some s
  | p :: l' =>
      match f x s p with
      | Some s1 => apply_attrs f x s1 l'
      | None => None
      end
  end.

(** The loop over [node_entries]; [id_2_node] maps the ids of the
    file to the new nodes. *)
Fixpoint load_nodes (entries : list (Z * list GML_pair)) (s : System)
    (id_2_node : gmap Z Node) : option (System * gmap Z Node) :=
  match entries with
  | [] => Some (s, id_2_node)
  | (i, attrs) :: rest =>
      match addNode "NoNodeDynamic" s with
      | None => None
      | Some (tmp_node, s1) =>
          match apply_attrs node_attr tmp_node s1 attrs with
          | Some s2 => load_nodes rest s2 (<[i := tmp_node]> id_2_node)
          | None => None
          end
      end
  end.

(** The loop headed "Make sure the next key is large enough". *)
Definition fix_next_key (s : System) : System :=
  let curKey := 0 in
  let s1 :=
    fold_left
      (fun acc v =>
         let d := nodeData acc v in
         let acc1 := set_nodeData v (mkNodeData curKey (name d) (position d)
                                       (properties d) (dynamic d) (dynamicParams d)) acc in
         if mNextKey acc1 <? curKey then set_mNextKey curKey acc1 else acc1)
      (NodeIt s) s in
  set_mNextKey (mNextKey s1 + 1) s1.

(** One attribute of an edge entry, applied to [eData]. *)
Definition edge_attr (e : Arc) (s : System) (p : GML_pair) : option System :=
  let d := arcData s e in
  let k := pair_key p in
  if String.eqb k "label" then
    match p with
    | GML_STRING _ str =>
        Some (set_arcData e (mkArcData str (weight d) (arc_properties d) (arc_dynamic d)
                               (arc_dynamicParams d)) s)
    | _ => None
    end
  else if String.eqb k "weight" then
    match p with
    | GML_DOUBLE _ f =>
        Some (set_arcData e (mkArcData (arc_name d) f (arc_properties d) (arc_dynamic d)
                               (arc_dynamicParams d)) s)
    | GML_INT _ z =>
        Some (set_arcData e (mkArcData (arc_name d) (inject_Z z) (arc_properties d)
                               (arc_dynamic d) (arc_dynamicParams d)) s)
    | _ => Some s
    end
  else if String.eqb k "properties" then
    match p with
    | GML_STRING _ str =>
        Some (set_arcData e (mkArcData (arc_name d) (weight d) (parse_doubles str)
                               (arc_dynamic d) (arc_dynamicParams d)) s)
    | _ => None
    end
  else if String.eqb k "dynName" then
    match p with
    | GML_STRING _ str =>
        let '(dyn, reg) := map_index ArcNULL str (mArcDynamics s) in
        Some (set_arcData e (mkArcData (arc_name d) (weight d) (arc_properties d) dyn
                               (arc_dynamicParams d))
                (set_mArcDynamics reg s))
    | _ => None
    end
  else if String.eqb k "dynParams" then
    match p with
    | GML_STRING _ str =>
        Some (set_arcData e (mkArcData (arc_name d) (weight d) (arc_properties d)
                               (arc_dynamic d) (parse_doubles str)) s)
    | _ => None
    end
  else Some s.

(** The loop over [edge_entries]. *)
Fixpoint load_edges (entries : list (Z * Z * list GML_pair)) (s : System)
    (id_2_node : gmap Z Node) : option System :=
  match entries with
  | [] => Some s
  | (x, y, attrs) :: rest =>
      match id_2_node !! x, id_2_node !! y with
      | Some source, Some target =>
          match addArc source target "NoArcDynamic" s with
          | None => None
          | Some (tmp_edge, s1) =>
              match apply_attrs edge_attr tmp_edge s1 attrs with
              | Some s2 => load_edges rest s2 id_2_node
              | None => None
              end
          end
      | _, _ => None
      end
  end.

(** [int System::openFromGML (string filename)] on the content of a
    file that parses, called on [s]. *)
Definition openFromGML (file : list GML_pair) (s : System) : option System :=
  match find_graph file with
  | None => None
  | Some graph_list =>
      match sort_entries graph_list [] [] with
      | None => None
      | Some (node_entries, edge_entries) =>
          match load_nodes node_entries s ∅ with
          | None => None
          | Some (s1, id_2_node) =>
              match load_edges edge_entries (fix_next_key s1) id_2_node with
              | None => None
              | Some s2 => Some (refreshStateIDs s2)
              end
          end
      end
  end.

(** A fresh System on which the given dynamics are registered. *)
Definition registered (nds : list NodeDynamicPtr) (ads : list ArcDynamicPtr) : System :=
  fold_left (fun s p => addArcDynamic p s) ads
    (fold_left (fun s p => addNodeDynamic p s) nds System_new).

End Codec.
End GML.

(** The state widths of a System are state counts. *)
Definition widths_nonneg (s : System) : Prop :=
  0 <= mNodeStates s ∧ 0 <= mArcStates s.

(** Going from [s] to [s'] sets no validity flag of the state indices. *)
Definition no_flag_raised (s s' : System) : Prop :=
  (mValidNodeIDs s' = true -> mValidNodeIDs s = true)
  ∧ (mValidArcIDs s' = true -> mValidArcIDs s = true).

(** The result of a [simulate] call that reported an error and did no
    work: the System and the vector are as they were, the only event is
    a line on [cerr], so neither the observer nor the change log was
    called. *)
Definition reports_and_does_nothing (sys : System) (initial : State)
    (r : System * State * list SimEvent) : Prop :=
  fst (fst r) = sys
  ∧ snd (fst r) = initial
  ∧ (exists msg, snd r = [Cerr msg])
  ∧ observed (snd r) = ([], [])
  ∧ logged (snd r) = [].

(** The events of the samples of an empty state at the times
    [t, t+1, ..., t+n-1]. *)
Definition empty_samples (sys : System) (t : Z) (n : nat) : list SimEvent :=
  flat_map (fun k => sample sys [] (inject_Z (t + Z.of_nat k))) (seq 0 n).

(** The sample times [0, 1, ..., n]. *)
Definition unit_times (n : nat) : list Q :=
  map (fun k => inject_Z (Z.of_nat k)) (seq 0 (S n)).

(** The arithmetic mean of a list of scores. *)
Definition arithmetic_mean (l : list Q) : Q :=
  (fold_right Qplus 0 l / inject_Z (size l))%Q.

Section Scores.
Context `{UD : UserDynamics} `{OD : Odeint} `{CO : Collaborators}.

(** The score of each initial condition, as [EvolveSA::performance]
    obtains it: the value of [mQ.performance] on the trajectory of the
    simulation started there. *)
Fixpoint condition_scores (sim : Simulate) (conds : list State) (sys : System) : list Q :=
  match conds with
  | [] => []
  | runInit :: rest =>
      let '(sys1, _, tr) := simulate sim sys (simTMax mParams) runInit in
      mQ_performance sys1 (Some (observed tr)) :: condition_scores sim rest sys1
  end.

End Scores.

(** ** Example objects *)
Module Examples.

(** Node dynamics all named "Oscillator", the object [o] with [o]
    states, and arc dynamics all named "Coupling"; they have no
    parameters and leave [dx] as it is. *)
Definition Oscillators : UserDynamics :=
  {| node_getName := fun _ => "Oscillator";
     node_getStates := fun o => Z.of_nat o;
     node_setDefaultParams := fun _ _ _ => [];
     node_fn := fun _ _ _ _ dx _ => dx;
     arc_getName := fun _ => "Coupling";
     arc_getStates := fun o => Z.of_nat o;
     arc_setDefaultParams := fun _ _ _ => [];
     arc_fn := fun _ _ _ _ dx _ => dx |}.

(** Connected components of the graph taken as undirected: every node
    starts with its own label and every arc merges two labels. *)
Definition label_of (v : Node) (lab : list (Node * nat)) : option nat :=
  snd <$> find (fun nl => Nat.eqb (fst nl) v) lab.

Definition relabel (old new : nat) (lab : list (Node * nat)) : list (Node * nat) :=
  map (fun nl => (fst nl, if Nat.eqb (snd nl) old then new else snd nl)) lab.

Definition components (s : System) : Z :=
  let lab0 := map (fun v => (v, v)) (nodes s) in
  let lab :=
    fold_left
      (fun lab e =>
         match label_of (arc_source e) lab, label_of (arc_target e) lab with
         | Some x, Some y => relabel y x lab
         | _, _ => lab
         end)
      (arcs s) lab0 in
  Z.of_nat (length (remove_dups (map snd lab))).

(** A copy made by adding the nodes, then the arcs, in iteration
    order. *)
Fixpoint position_of (v : nat) (l : list nat) (i : nat) : nat :=
  match l with
  | [] => i
  | x :: l' => if Nat.eqb x v then i else position_of v l' (S i)
  end.

Definition ListDigraph_copy (from : System)
    (NodeIt_from : list Node) (ArcIt_from : list ArcRec) : GraphCopy :=
  let nr := fun v => position_of v NodeIt_from 0%nat in
  let new_arcs :=
    imap (fun k e => mkArcRec k (nr (arc_source e)) (nr (arc_target e))) ArcIt_from in
  mkGraphCopy (rev (seq 0 (length NodeIt_from))) (rev new_arcs)
    (length NodeIt_from) (length ArcIt_from) nr
    (fun e => nth e (map arc_id ArcIt_from) 0%nat).

Definition ListDigraph : Lemon :=
  {| digraphCopy := fun from =>
       ListDigraph_copy from (nodes from) (flat_map
         (fun v => filter (fun e => arc_source e = v) (arcs from)) (nodes from));
     countConnectedComponents := components;
     random_draw := fun r => (1 # Pos.of_succ_nat (rnd_draws r))%Q |}.

(** An integration kernel that hands the start state to the observer
    and stops there. *)
Definition single_sample : Odeint :=
  {| integrate_const := fun _ _ x t0 _ _ => ([(x, t0)], x);
     integrate_adaptive := fun _ _ x t0 _ _ => ([(x, t0)], x) |}.

(** A search that scores a System by minus its number of nodes (the
    more nodes the better), with a mutation that adds a node. *)
Definition add_a_node (s : System) : System :=
  match @addNode Oscillators "NoNodeDynamic" s with
  | Some (_, s1) => s1
  | None => s
  end.

Definition grow_search : Collaborators :=
  {| World := unit;
     mParams := mkParams 1 1 1 10 (1 # 100) 10 false 0;
     mParams_rnd := fun w => (1%Q, w);
     initialTemperature := initialTemperature_default;
     newTemperature := newTemperature_default;
     acceptProb := fun _ _ => 0%Q;
     mQ_getType := TOPOLOGY_ONLY;
     mQ_performance := fun s _ => inject_Z (- Z.of_nat (length (nodes s)));
     mMut_mutate := fun s w => (add_a_node s, w);
     initial_initialStates := fun _ w => ([], w) |}.

(** A search on a System that never is connected: no trial is
    accepted.  The threshold [acceptRunsNoChange] is 1, the
    temperature stays at 1 and at most 5 iterations are made. *)
Definition stalled_search : Collaborators :=
  {| World := unit;
     mParams := mkParams 1 1 1 1 0 5 true 0;
     mParams_rnd := fun w => (1%Q, w);
     initialTemperature := fun _ _ => 1%Q;
     newTemperature := fun temp _ _ => temp;
     acceptProb := fun _ _ => 0%Q;
     mQ_getType := TOPOLOGY_ONLY;
     mQ_performance := fun _ _ => 1%Q;
     mMut_mutate := fun s w => (s, w);
     initial_initialStates := fun _ w => ([], w) |}.

(** A dynamics-only measure that scores every trajectory 1/2, with one
    initial condition (the empty vector). *)
Definition half_search : Collaborators :=
  {| World := unit;
     mParams := mkParams 1 1 1 10 (1 # 100) 10 false 0;
     mParams_rnd := fun w => (1%Q, w);
     initialTemperature := initialTemperature_default;
     newTemperature := newTemperature_default;
     acceptProb := fun _ _ => 0%Q;
     mQ_getType := DYNAMICS_ONLY;
     mQ_performance := fun _ _ => (1 # 2)%Q;
     mMut_mutate := fun s w => (s, w);
     initial_initialStates := fun _ w => ([[]], w) |}.

(** A System of two nodes without dynamics; their keys are 0 and 1. *)
Definition two_nodes : System :=
  add_a_node (add_a_node (@System_new Oscillators)).

End Examples.


(** ** Well-formed graphs *)



(** ** Generators (system.cc) *)

Section Generators.
Context `{UD : UserDynamics}.

(** [Node System::getNode (int ID)]: the iterator is advanced [ID] times
    from the first node.  Going past the last node is undefined, and the
    invalid node of an empty graph cannot be used: [None]. *)
Definition getNode (ID : Z) (s : System) : option Node :=
  NodeIt s !! Z.to_nat ID.

(** [Arc System::getArc (int ID)]. *)
Definition getArc (ID : Z) (s : System) : option Arc :=
  arc_id <$> ArcIt s !! Z.to_nat ID.

(** The loop [for (int i=0; i<numOfNodes; ++i) { addNode(defNodeDyn); }]. *)
Fixpoint add_nodes (n : nat) (defNodeDyn : string) (s : System) : option System :=
  match n with
  | O => Some s
  | S n' =>
      match addNode defNodeDyn s with
      | None => None
      | Some (_, s1) => add_nodes n' defNodeDyn s1
      end
  end.

(** The loop [for (j=i+1; j<=i+neighbours; ++j)] of [ringGraph], [count]
    iterations from [j]. *)
Fixpoint ring_neighbours (count : nat) (j : Z) (v : Node) (numOfNodes : Z)
    (defEdgeDyn : string) (undirected : bool) (s : System) : option System :=
  match count with
  | O => Some s
  | S count' =>
      match getNode (Z.rem j numOfNodes) s with
      | None => None
      | Some u =>
          let added :=
            if undirected
            then snd <$> addEdge v u defEdgeDyn s
            else snd <$> addArc v u defEdgeDyn s in
          match added with
          | None => None
          | Some s1 => ring_neighbours count' (j + 1) v numOfNodes defEdgeDyn undirected s1
          end
      end
  end.

(** The loop over the nodes of [ringGraph]; [i] counts them. *)
Fixpoint ring_nodes (l : list Node) (i : Z) (numOfNodes neighbours : Z)
    (defEdgeDyn : string) (undirected : bool) (s : System) : option System :=
  match l with
  | [] => Some s
  | v :: l' =>
      match ring_neighbours (Z.to_nat neighbours) (i + 1) v numOfNodes defEdgeDyn
              undirected s with
      | None => None
      | Some s1 => ring_nodes l' (i + 1) numOfNodes neighbours defEdgeDyn undirected s1
      end
  end.

(** [void System::ringGraph (int numOfNodes, int neighbours,
    string defNodeDyn, string defEdgeDyn, bool undirected)]. *)
Definition ringGraph (numOfNodes neighbours : Z) (defNodeDyn defEdgeDyn : string)
    (undirected : bool) (s : System) : option System :=
  match add_nodes (Z.to_nat numOfNodes) defNodeDyn (clear s) with
  | None => None
  | Some s1 =>
      match ring_nodes (NodeIt s1) 0 numOfNodes neighbours defEdgeDyn undirected s1 with
      | None => None
      | Some s2 => Some (refreshStateIDs s2)
      end
  end.

End Generators.


(** ** The change log written to a stream (system.h, system.cc) *)

Module ChangeLogToStream.

(** The output stream [mOut] and the [stringstream buffer], by the text
    written to them. *)
Record t := mk { mOut : string; buffer : string }.

Definition endl : string := String (ascii_of_nat 10) "".

Section Stream.
Context `{TX : GML.Text}.

(** [buffer << txt]. *)
Definition put (txt : string) (l : t) : t :=
  mk (mOut l) (String.append (buffer l) txt).

(** [sys.source(e)] and [sys.target(e)]; an arc that is not in the graph
    has none. *)
Definition arc_ends (sys : System) (e : Arc) : option (Node * Node) :=
  (fun r => (arc_source r, arc_target r)) <$> find (fun r => Nat.eqb (arc_id r) e) (arcs sys).

Definition node_key (sys : System) (n : Node) : string :=
  pretty (key (nodeData sys n)).

(** The loop [for (i=0; i<width; ++i) { buffer << "," << newState[stateIndex + i]; }];
    an index outside the vector is undefined: [None]. *)
Fixpoint state_slots (count : nat) (index : Z) (newState : State) : option string :=
  match count with
  | O => Some ""
  | S count' =>
      if index <? 0 then None
      else match newState !! Z.to_nat index, state_slots count' (index + 1) newState with
           | Some x, Some rest =>
               Some (String.append "," (String.append (GML.print_double x) rest))
           | _, _ => None
           end
  end.

Fixpoint concat_records (l : list (option string)) : option string :=
  match l with
  | [] => Some ""
  | Some r :: l' => String.append r <$> concat_records l'
  | None :: _ => None
  end.

Definition node_state_record (sys : System) (newState : State) (n : Node) : option string :=
  (fun slots => String.append "NS,"
     (String.append (node_key sys n) (String.append slots endl)))
  <$> state_slots (Z.to_nat (mNodeStates sys)) (stateID_node sys n) newState.

Definition arc_state_record (sys : System) (newState : State) (e : ArcRec) : option string :=
  (fun slots => String.append "ES,"
     (String.append (node_key sys (arc_source e))
        (String.append "," (String.append (node_key sys (arc_target e))
           (String.append slots endl)))))
  <$> state_slots (Z.to_nat (mArcStates sys)) (stateID_arc sys (arc_id e)) newState.

(** The text a call appends to the buffer; [None] for [rollback] and
    [commit], and where the call is undefined. *)
Definition record_text (c : LogCall) : option string :=
  match c with
  | LogAddNode sys n =>
      Some (String.append "N+," (String.append (node_key sys n) endl))
  | LogAddArc sys source target =>
      Some (String.append "E+,"
              (String.append (node_key sys source)
                 (String.append "," (String.append (node_key sys target) endl))))
  | LogEraseNode sys n =>
      Some (String.append "N-," (String.append (node_key sys n) endl))
  | LogEraseArc sys e =>
      (fun st => String.append "E-,"
         (String.append (node_key sys (fst st))
            (String.append "," (String.append (node_key sys (snd st)) endl))))
      <$> arc_ends sys e
  | LogUpdateNode sys n =>
      Some (String.append "NU," (String.append (node_key sys n) endl))
  | LogUpdateArc sys e =>
      (fun st => String.append "EU,"
         (String.append (node_key sys (fst st))
            (String.append "," (String.append (node_key sys (snd st)) endl))))
      <$> arc_ends sys e
  | LogNewState sys newState =>
      match (if mNodeStates sys >? 0
             then concat_records (map (node_state_record sys newState) (NodeIt sys))
             else Some ""),
            (if mArcStates sys >? 0
             then concat_records (map (arc_state_record sys newState) (ArcIt sys))
             else Some "") with
      | Some ns, Some es => Some (String.append ns es)
      | _, _ => None
      end
  | LogEndStep INIT_STEP => Some (String.append "---" endl)
  | LogEndStep SIM_STEP => Some (String.append "-" endl)
  | LogEndStep EVO_STEP => Some (String.append "--" endl)
  | LogRollback => None
  | LogCommit => None
  end.

(** [void ChangeLogToStream::rollback ()]. *)
Definition rollback (l : t) : t := mk (mOut l) "".

(** [void ChangeLogToStream::commit ()]. *)
Definition commit (l : t) : t := rollback (mk (String.append (mOut l) (buffer l)) (buffer l)).

(** A call of one of the methods. *)
Definition call (c : LogCall) (l : t) : option t :=
  match c with
  | LogRollback => Some (rollback l)
  | LogCommit => Some (commit l)
  | _ => (fun txt => put txt l) <$> record_text c
  end.

Fixpoint calls (cs : list LogCall) (l : t) : option t :=
  match cs with
  | [] => Some l
  | c :: cs' =>
      match call c l with
      | Some l1 => calls cs' l1
      | None => None
      end
  end.

End Stream.
End ChangeLogToStream.

(** A call that writes a record: neither [rollback] nor [commit]. *)
Definition is_record (c : LogCall) : bool :=
  match c with
  | LogRollback | LogCommit => false
  | _ => true
  end.

(** ** Random mutation (evolve.h, evolve.cc) *)

Module MutateRandom.

(** The data members of [MutateRandom], but for the generator. *)
Record t := mk {
  mProbNewNode : Q;
  mProbDelNode : Q;
  mProbNewEdge : Q;
  mProbDelEdge : Q;
  mProbUpdNode : Q;
  mProbUpdEdge : Q;
  mProbRewire : Q;
  mProbDup : Q;
  mMutateTrials : Z
}.

(** The constructor [MutateRandom ()]. *)
Definition new : t := mk 0 0 0 0 0 0 0 0 1.

(** The generator [mRnd] and the eight virtual methods; [Rnd] is the
    state of the generator and of whatever else the methods keep. *)
Class Hooks := {
  Rnd : Type;
  mRnd : Rnd -> Q * Rnd;
  newNode : System -> Rnd -> System * Rnd;
  delNode : System -> Rnd -> System * Rnd;
  newEdge : System -> Rnd -> System * Rnd;
  delEdge : System -> Rnd -> System * Rnd;
  updNode : System -> Rnd -> System * Rnd;
  updEdge : System -> Rnd -> System * Rnd;
  rewire : System -> Rnd -> System * Rnd;
  duplicate : System -> Rnd -> System * Rnd
}.

Section Mutate.
Context `{HK : Hooks}.

(** [if (mRnd() < prob) { hook(sys, logger); }]. *)
Definition maybe (prob : Q) (hook : System -> Rnd -> System * Rnd)
    (sr : System * Rnd) : System * Rnd :=
  let '(x, r1) := mRnd (snd sr) in
  if Qlt_bool x prob then hook (fst sr) r1 else (fst sr, r1).

(** The body of the loop of [MutateRandom::mutate]. *)
Definition mutate_trial (m : t) (sr : System * Rnd) : System * Rnd :=
  maybe (mProbDup m) duplicate
    (maybe (mProbRewire m) rewire
       (maybe (mProbUpdEdge m) updEdge
          (maybe (mProbUpdNode m) updNode
             (maybe (mProbDelEdge m) delEdge
                (maybe (mProbNewEdge m) newEdge
                   (maybe (mProbDelNode m) delNode
                      (maybe (mProbNewNode m) newNode sr))))))).

(** [void MutateRandom::mutate (System &sys, ChangeLog &logger)]. *)
Definition mutate (m : t) (sys : System) (r : Rnd) : System * Rnd :=
  Nat.iter (Z.to_nat (mMutateTrials m)) (mutate_trial m) (sys, r).

(** The generator after [n] numbers were drawn. *)
Definition drawn (n : nat) (r : Rnd) : Rnd :=
  Nat.iter n (fun r' => snd (mRnd r')) r.

End Mutate.
End MutateRandom.

(** ** Traces *)

(** The three calls of the change log made for the sample [x]. *)
Definition sample_log (sys : System) (x : State) : list LogCall :=
  [LogNewState sys x; LogEndStep SIM_STEP; LogCommit].

(** The iteration counts handed to the [EvoObserver]. *)
Definition obs_iterations (l : list EvoEvent) : list Z :=
  map (fun ev => match ev with EvoObserve _ _ t => t end) l.

(** The numbers [0, 1, ..., n - 1]. *)
Definition count_up (n : nat) : list Z :=
  map Z.of_nat (seq 0 n).

(** The graph of a System: no node and no arc is listed twice, and every
    arc leaves a node of the graph. *)
Definition graph_wf (s : System) : Prop :=
  NoDup (nodes s)
  ∧ NoDup (map arc_id (arcs s))
  ∧ forall r, r ∈ arcs s -> arc_source r ∈ nodes s.

(** ** More example objects *)
Module MoreExamples.

(** Two nodes without dynamics and the arc from the newer to the older. *)
Definition linked_pair : System :=
  match @addArc Examples.Oscillators 1%nat 0%nat "NoArcDynamic" Examples.two_nodes with
  | Some (_, s) => s
  | None => Examples.two_nodes
  end.


(** Two oscillators of two states each, coupled by one arc with one
    state. *)
Definition oscillator_pair : System :=
  let UD := Examples.Oscillators in
  let s0 := addArcDynamic (UserArcDynamic 1) (addNodeDynamic (UserNodeDynamic 2) System_new) in
  match addNode "Oscillator" s0 with
  | Some (u, s1) =>
      match addNode "Oscillator" s1 with
      | Some (v, s2) =>
          match addArc v u "Coupling" s2 with
          | Some (_, s3) => s3
          | None => s2
          end
      | None => s1
      end
  | None => s0
  end.

End MoreExamples.


(** ** A text layer for examples *)

Module StreamExamples.

(** Doubles are written by their whole part; nothing is scanned. *)
Definition whole_part : GML.Text :=
  {| GML.scanned_double := fun d => inr d;
     GML.print_double := fun d => pretty (trunc d);
     GML.read_double := fun _ => 0%Q;
     GML.scanned_string := fun s => s;
     GML.creation_time := "" |}.

End StreamExamples.


(** The eight probabilities of a [MutateRandom]. *)
Definition probabilities (m : MutateRandom.t) : list Q :=
  [MutateRandom.mProbNewNode m; MutateRandom.mProbDelNode m;
   MutateRandom.mProbNewEdge m; MutateRandom.mProbDelEdge m;
   MutateRandom.mProbUpdNode m; MutateRandom.mProbUpdEdge m;
   MutateRandom.mProbRewire m; MutateRandom.mProbDup m].

Module MutateExamples.

(** A generator that counts its draws and yields 1/2 each time; the
    hooks add a node. *)
Definition counting : MutateRandom.Hooks :=
  {| MutateRandom.Rnd := nat;
     MutateRandom.mRnd := fun r => ((1 # 2)%Q, S r);
     MutateRandom.newNode := fun s r => (Examples.add_a_node s, r);
     MutateRandom.delNode := fun s r => (Examples.add_a_node s, r);
     MutateRandom.newEdge := fun s r => (Examples.add_a_node s, r);
     MutateRandom.delEdge := fun s r => (Examples.add_a_node s, r);
     MutateRandom.updNode := fun s r => (Examples.add_a_node s, r);
     MutateRandom.updEdge := fun s r => (Examples.add_a_node s, r);
     MutateRandom.rewire := fun s r => (Examples.add_a_node s, r);
     MutateRandom.duplicate := fun s r => (Examples.add_a_node s, r) |}.

End MutateExamples.


(** The observer has seen the iterations 0, 1, ... up to the current one,
    or up to [maxIterations] when the count has passed it. *)
Definition observed_so_far `{CO : Collaborators} (st : EvolveSA.LoopState) : Prop :=
  0 <= EvolveSA.ls_iteration st
  ∧ obs_iterations (EvolveSA.ls_obs st)
    = count_up (S (Z.to_nat (Z.min (EvolveSA.ls_iteration st) (maxIterations mParams)))).


(** ** The entries of a saved file *)


Section SavedEntries.
Context `{UD : UserDynamics} `{TX : GML.Text}.



End SavedEntries.


Module ScoreExamples.

(** A dynamics-only measure that scores every trajectory -1, with one
    initial condition (the empty vector). *)
Definition minus_one_search : Collaborators :=
  {| World := unit;
     mParams := mkParams 1 1 1 10 (1 # 100) 10 false 0;
     mParams_rnd := fun w => (1%Q, w);
     initialTemperature := initialTemperature_default;
     newTemperature := newTemperature_default;
     acceptProb := fun _ _ => 0%Q;
     mQ_getType := DYNAMICS_ONLY;
     mQ_performance := fun _ _ => (-1)%Q;
     mMut_mutate := fun s w => (s, w);
     initial_initialStates := fun _ w => ([[]], w) |}.

End ScoreExamples.


(** ** Pointers that are bound, names that can be written *)

(** No node and no arc of the System has a null dynamics pointer.  A
    call through a null pointer is undefined in C++ (the program
    crashes), while [nd_fn], [ad_fn], [nd_getName], [ad_getName] and the
    two [setDefaultParams] above take the null dynamics there: what is
    proved of the results of such calls is proved of Systems whose
    pointers are bound. *)
Definition dynamics_bound (s : System) : Prop :=
  (forall v, v ∈ NodeIt s -> dynamic (nodeData s v) ≠ NodeNULL)
  ∧ (forall e, e ∈ ArcIt s -> arc_dynamic (arcData s (arc_id e)) ≠ ArcNULL).



(** ** More operations of a System (system.h, system.cc) *)

(** A loop over [l] whose body may fail. *)
Definition step_all {A : Type} (f : A -> System -> option System) (l : list A)
    (s : System) : option System :=
  fold_left (fun acc x => match acc with Some s1 => f x s1 | None => None end) l (Some s).

Section MoreOperations.
Context `{UD : UserDynamics} `{LM : Lemon}.

(** [void seedRnd (int seed) { mRnd.seed(seed); }]. *)
Definition seedRnd (seed : Z) (s : System) : System :=
  set_mRnd (mkRandom (Some seed) 0) s.

(** [double rnd () { return mRnd(); }]. *)
Definition rnd (s : System) : Q * System :=
  let '(x, r) := Random_call (mRnd s) in (x, set_mRnd r s).

(** LEMON's [findArc (g, u, v)]: an arc from [u] to [v], if there is
    one. *)
Definition findArc (s : System) (u v : Node) : option ArcRec :=
  find (fun a => Nat.eqb (arc_source a) u && Nat.eqb (arc_target a) v) (arcs s).

(** [void copyDigraph (const Digraph &from)]; the graph [from] is given
    as a System, of which the graph is read. *)
Definition copyDigraph (from this : System) : System :=
  let gc := digraphCopy from in
  set_graph (gc_nodes gc) (gc_arcs gc) (gc_next_node gc) (gc_next_arc gc) (clear this).

(** The body of the loop over the nodes of [copyDigraph (from,
    defNodeDyn, defArcDyn)].  [mNodeDynamics[defNodeDyn]] inserts a null
    pointer for a name that is not registered; the call of
    [setDefaultParams] through a null pointer is undefined: [None]. *)
Definition set_node_dynamic (defNodeDyn : string) (v : Node) (s : System) : option System :=
  let '(nDyn, reg) := GML.map_index NodeNULL defNodeDyn (mNodeDynamics s) in
  match nDyn with
  | NodeNULL => None
  | _ =>
      let s1 := set_mNodeDynamics reg s in
      let d := nodeData s1 v in
      Some (nd_setDefaultParams nDyn v
              (set_nodeData v
                 (mkNodeData (key d) (name d) (position d) (properties d) nDyn []) s1))
  end.

(** The body of the loop over the arcs. *)
Definition set_arc_dynamic (defArcDyn : string) (e : Arc) (s : System) : option System :=
  let '(eDyn, reg) := GML.map_index ArcNULL defArcDyn (mArcDynamics s) in
  match eDyn with
  | ArcNULL => None
  | _ =>
      let s1 := set_mArcDynamics reg s in
      let d := arcData s1 e in
      Some (ad_setDefaultParams eDyn e
              (set_arcData e
                 (mkArcData (arc_name d) (weight d) (arc_properties d) eDyn []) s1))
  end.

(** [void copyDigraph (const Digraph &from, string defNodeDyn,
    string defArcDyn)]. *)
Definition copyDigraph_dyn (from : System) (defNodeDyn defArcDyn : string)
    (this : System) : option System :=
  let s0 := copyDigraph from this in
  match step_all (set_node_dynamic defNodeDyn) (NodeIt s0) s0 with
  | None => None
  | Some s1 =>
      match step_all (set_arc_dynamic defArcDyn) (map arc_id (ArcIt s1)) s1 with
      | None => None
      | Some s2 => Some (set_mValidArcIDs false (set_mValidNodeIDs false s2))
      end
  end.

(** The body of the two loops of [randomGraph], for the nodes [n1] and
    [n2]. *)
Definition random_pair (edgeProb : Q) (selfLoops : bool) (defEdgeDyn : string)
    (undirected : bool) (n1 n2 : Node) (s : System) : option System :=
  if (Nat.eqb n1 n2 && selfLoops) || negb (Nat.eqb n1 n2)
  then
    let '(x, s1) := rnd s in
    if Qle_bool x edgeProb
    then
      if undirected
      then
        match findArc s1 n1 n2 with
        | Some _ => Some s1
        | None =>
            match addArc n1 n2 defEdgeDyn s1 with
            | Some (_, s2) => snd <$> addArc n2 n1 defEdgeDyn s2
            | None => None
            end
        end
      else snd <$> addArc n1 n2 defEdgeDyn s1
    else Some s1
  else Some s.

(** [void System::randomGraph (double edgeProb, int numOfNodes,
    bool selfLoops, string defNodeDyn, string defEdgeDyn,
    bool undirected)]. *)
Definition randomGraph (edgeProb : Q) (numOfNodes : Z) (selfLoops : bool)
    (defNodeDyn defEdgeDyn : string) (undirected : bool) (s : System) : option System :=
  match add_nodes (Z.to_nat numOfNodes) defNodeDyn (clear s) with
  | None => None
  | Some s1 =>
      match step_all
              (fun n1 acc =>
                 step_all (random_pair edgeProb selfLoops defEdgeDyn undirected n1)
                   (NodeIt acc) acc)
              (NodeIt s1) s1 with
      | None => None
      | Some s2 => Some (refreshStateIDs s2)
      end
  end.

(** The body of the loop of [makeUndirected]: the new arc gets the
    record of [e], field by field. *)
Definition mirror_arc (e : ArcRec) (s : System) : option System :=
  match findArc s (arc_target e) (arc_source e) with
  | Some _ => Some s
  | None =>
      match addArc (arc_target e) (arc_source e) "NoArcDynamic" s with
      | None => None
      | Some (eNew, s1) => Some (set_arcData eNew (arcData s1 (arc_id e)) s1)
      end
  end.

(** [void System::makeUndirected ()].  The loop runs over the arcs
    while it adds arcs.  An arc it adds is linked at the head of the
    out-list of its source; the iteration either has passed that node, or
    comes to the new arc later and finds the arc it mirrors, so that
    nothing is done for it: the loop is the one over the arcs present at
    the start. *)
Definition makeUndirected (s : System) : option System :=
  step_all mirror_arc (ArcIt s) s.

End MoreOperations.

(** ** Runs of operations on a System *)

(** The operations of a System that change it. *)
Inductive SystemOp :=
| OpAddNodeDynamic (p : NodeDynamicPtr)
| OpAddArcDynamic (p : ArcDynamicPtr)
| OpAddNode (dyn_name : string)
| OpAddNodeNamed (nm dyn_name : string)
| OpAddArc (u v : Node) (dyn_name : string)
| OpAddEdge (u v : Node) (dyn_name : string)
| OpEraseNode (v : Node)
| OpEraseArc (e : Arc)
| OpClear
| OpCopySystem (from : System)
| OpResetKeys
| OpRefreshStateIDs
| OpSimulate (sim : Simulate) (tMax : Q) (initial : State)
| OpRingGraph (numOfNodes neighbours : Z) (defNodeDyn defEdgeDyn : string)
    (undirected : bool)
| OpRandomGraph (edgeProb : Q) (numOfNodes : Z) (selfLoops : bool)
    (defNodeDyn defEdgeDyn : string) (undirected : bool)
| OpMakeUndirected
| OpCopyDigraph (from : System)
| OpCopyDigraphDyn (from : System) (defNodeDyn defArcDyn : string)
| OpOpenFromGML (file : list GML.GML_pair)
| OpSeedRnd (seed : Z)
| OpRnd.

Section Runs.
Context `{UD : UserDynamics} `{LM : Lemon} `{OD : Odeint} `{TX : GML.Text}.

Definition run_op (op : SystemOp) (s : System) : option System :=
  match op with
  | OpAddNodeDynamic p => Some (addNodeDynamic p s)
  | OpAddArcDynamic p => Some (addArcDynamic p s)
  | OpAddNode dyn_name => snd <$> addNode dyn_name s
  | OpAddNodeNamed nm dyn_name => snd <$> addNode_named nm dyn_name s
  | OpAddArc u v dyn_name => snd <$> addArc u v dyn_name s
  | OpAddEdge u v dyn_name => snd <$> addEdge u v dyn_name s
  | OpEraseNode v => Some (eraseNode v s)
  | OpEraseArc e => Some (eraseArc e s)
  | OpClear => Some (clear s)
  | OpCopySystem from => Some (copySystem from s)
  | OpResetKeys => Some (resetKeys s)
  | OpRefreshStateIDs => Some (refreshStateIDs s)
  | OpSimulate sim tMax initial => Some (fst (fst (simulate sim s tMax initial)))
  | OpRingGraph n k defNodeDyn defEdgeDyn undirected =>
      ringGraph n k defNodeDyn defEdgeDyn undirected s
  | OpRandomGraph edgeProb n selfLoops defNodeDyn defEdgeDyn undirected =>
      randomGraph edgeProb n selfLoops defNodeDyn defEdgeDyn undirected s
  | OpMakeUndirected => makeUndirected s
  | OpCopyDigraph from => Some (copyDigraph from s)
  | OpCopyDigraphDyn from defNodeDyn defArcDyn => copyDigraph_dyn from defNodeDyn defArcDyn s
  | OpOpenFromGML file => GML.openFromGML file s
  | OpSeedRnd seed => Some (seedRnd seed s)
  | OpRnd => Some (snd (rnd s))
  end.

Fixpoint run_ops (ops : list SystemOp) (s : System) : option System :=
  match ops with
  | [] => Some s
  | op :: ops' =>
      match run_op op s with
      | Some s1 => run_ops ops' s1
      | None => None
      end
  end.

End Runs.

(** Going from [s] to [s'] sets no validity flag and leaves the state
    widths as they are. *)
Definition quiet (s s' : System) : Prop :=
  no_flag_raised s s'
  ∧ mNodeStates s' = mNodeStates s ∧ mArcStates s' = mArcStates s.

Module CopyExamples.



End CopyExamples.


Module FlagExamples.


End FlagExamples.

(** * Properties *)

(** ** The registries of dynamics *)

Lemma map_insert_lookup {V : Type} (k : string) (v : V) (m : gmap string V) :
  map_insert k v m !! k = Some (default v (m !! k)).
Proof.
  unfold map_insert. destruct (m !! k) as [w|] eqn:E; simpl.
  - exact E.
  - apply lookup_insert_eq.
Qed.

Lemma map_insert_lookup_ne {V : Type} (k k' : string) (v : V) (m : gmap string V) :
  k ≠ k' -> map_insert k v m !! k' = m !! k'.
Proof.
  intros Hne. unfold map_insert. destruct (m !! k); [reflexivity|].
  now apply lookup_insert_ne.
Qed.

Section Registry.
Context `{UD : UserDynamics}.

Lemma addNodeDynamic_registry (p : NodeDynamicPtr) (s : System) :
  mNodeDynamics (addNodeDynamic p s) = map_insert (nd_getName p) p (mNodeDynamics s).
Proof. unfold addNodeDynamic. simpl. now destruct (_ >? _). Qed.

Lemma addArcDynamic_registry (p : ArcDynamicPtr) (s : System) :
  mArcDynamics (addArcDynamic p s) = map_insert (ad_getName p) p (mArcDynamics s).
Proof. unfold addArcDynamic. simpl. now destruct (_ >? _). Qed.

Lemma addNodeDynamic_width (p : NodeDynamicPtr) (s : System) :
  mNodeStates (addNodeDynamic p s) = Z.max (mNodeStates s) (nd_getStates p).
Proof.
  unfold addNodeDynamic. simpl.
  destruct (Z.gtb_spec (nd_getStates p) (mNodeStates s)); simpl; lia.
Qed.

Lemma addArcDynamic_width (p : ArcDynamicPtr) (s : System) :
  mArcStates (addArcDynamic p s) = Z.max (mArcStates s) (ad_getStates p).
Proof.
  unfold addArcDynamic. simpl.
  destruct (Z.gtb_spec (ad_getStates p) (mArcStates s)); simpl; lia.
Qed.

End Registry.

(** C5, as the code has it: registering a node (resp. arc) dynamics whose
    name is already in the registry leaves the registry entry of that name
    as it was (the first registration stays), a new name is mapped to the
    new descriptor, and in every case the node (resp. arc) state width
    becomes the larger of the old width and the state count of the
    descriptor. *)
Theorem addDynamic_keeps_first_and_widens `{UD : UserDynamics}
    (s : System) (np : NodeDynamicPtr) (ap : ArcDynamicPtr) :
  mNodeDynamics (addNodeDynamic np s) !! nd_getName np
    = Some (default np (mNodeDynamics s !! nd_getName np))
  ∧ mNodeStates (addNodeDynamic np s) = Z.max (mNodeStates s) (nd_getStates np)
  ∧ mArcDynamics (addArcDynamic ap s) !! ad_getName ap
    = Some (default ap (mArcDynamics s !! ad_getName ap))
  ∧ mArcStates (addArcDynamic ap s) = Z.max (mArcStates s) (ad_getStates ap).
Proof.
  repeat split.
  - rewrite addNodeDynamic_registry. apply map_insert_lookup.
  - apply addNodeDynamic_width.
  - rewrite addArcDynamic_registry. apply map_insert_lookup.
  - apply addArcDynamic_width.
Qed.

(** C5 as stated fails: after the oscillator object 1 is registered,
    registering the object 2 under the same name "Oscillator" does not make
    the registry map that name to the object 2; likewise for arcs. *)
Lemma addDynamic_last_registration_lost :
  let UD := Examples.Oscillators in
  let s := addArcDynamic (UserArcDynamic 1) (addNodeDynamic (UserNodeDynamic 1) System_new) in
  is_Some (mNodeDynamics s !! nd_getName (UserNodeDynamic 2))
  ∧ mNodeDynamics (addNodeDynamic (UserNodeDynamic 2) s) !! nd_getName (UserNodeDynamic 2)
    ≠ Some (UserNodeDynamic 2)
  ∧ is_Some (mArcDynamics s !! ad_getName (UserArcDynamic 2))
  ∧ mArcDynamics (addArcDynamic (UserArcDynamic 2) s) !! ad_getName (UserArcDynamic 2)
    ≠ Some (UserArcDynamic 2).
Proof.
  cbv zeta. repeat split.
  - exists (UserNodeDynamic 1). vm_compute. reflexivity.
  - vm_compute. intros H. discriminate H.
  - exists (UserArcDynamic 1). vm_compute. reflexivity.
  - vm_compute. intros H. discriminate H.
Qed.

(** ** Validity of the state indices *)

Lemma fold_left_preserves {A B C : Type} (proj : B -> C) (f : B -> A -> B)
    (l : list A) (b : B) :
  (forall x y, proj (f x y) = proj x) -> proj (fold_left f l b) = proj b.
Proof.
  intros Hf. revert b. induction l as [|y l IH]; intros b; simpl.
  - reflexivity.
  - rewrite IH. apply Hf.
Qed.

Lemma no_flag_raised_refl (s : System) : no_flag_raised s s.
Proof. split; auto. Qed.

Lemma no_flag_raised_trans (s1 s2 s3 : System) :
  no_flag_raised s1 s2 -> no_flag_raised s2 s3 -> no_flag_raised s1 s3.
Proof. intros [H1 H2] [H3 H4]. split; auto. Qed.

Lemma no_flag_raised_eq (s s' : System) :
  mValidNodeIDs s' = mValidNodeIDs s -> mValidArcIDs s' = mValidArcIDs s ->
  no_flag_raised s s'.
Proof. intros H1 H2. split; congruence. Qed.

Lemma no_flag_raised_invalid (s s' : System) :
  no_flag_raised s s' -> validStateIDs s = false -> validStateIDs s' = false.
Proof.
  unfold validStateIDs. intros [H1 H2] H.
  destruct (mValidNodeIDs s') eqn:E1; [|reflexivity].
  destruct (mValidArcIDs s') eqn:E2; [|reflexivity].
  rewrite H1, H2 in H by reflexivity. discriminate H.
Qed.

Section Flags.
Context `{UD : UserDynamics} `{LM : Lemon} `{OD : Odeint}.

Lemma nd_setDefaultParams_flags (p : NodeDynamicPtr) (v : Node) (s : System) :
  mValidNodeIDs (nd_setDefaultParams p v s) = mValidNodeIDs s
  ∧ mValidArcIDs (nd_setDefaultParams p v s) = mValidArcIDs s.
Proof. destruct p; simpl; auto. Qed.

Lemma ad_setDefaultParams_flags (p : ArcDynamicPtr) (e : Arc) (s : System) :
  mValidNodeIDs (ad_setDefaultParams p e s) = mValidNodeIDs s
  ∧ mValidArcIDs (ad_setDefaultParams p e s) = mValidArcIDs s.
Proof. destruct p; simpl; auto. Qed.

Lemma addNode_flags (dyn_name : string) (s : System) (v : Node) (s' : System) :
  addNode dyn_name s = Some (v, s') ->
  mValidNodeIDs s' = false ∧ mValidArcIDs s' = mValidArcIDs s.
Proof.
  unfold addNode. destruct (mNodeDynamics s !! dyn_name) as [dyn|]; [|discriminate].
  simpl. intros H. injection H as _ <-. split; [reflexivity|].
  simpl. now rewrite (proj2 (nd_setDefaultParams_flags _ _ _)).
Qed.

Lemma addNode_named_flags (nm dyn_name : string) (s : System) (v : Node) (s' : System) :
  addNode_named nm dyn_name s = Some (v, s') ->
  mValidNodeIDs s' = false ∧ mValidArcIDs s' = mValidArcIDs s.
Proof.
  unfold addNode_named. destruct (addNode dyn_name s) as [[w s1]|] eqn:E; [|discriminate].
  intros H. injection H as _ <-. simpl. eapply addNode_flags, E.
Qed.

Lemma addArc_flags (u v : Node) (dyn_name : string) (s : System) (e : Arc) (s' : System) :
  addArc u v dyn_name s = Some (e, s') ->
  mValidNodeIDs s' = mValidNodeIDs s ∧ mValidArcIDs s' = false.
Proof.
  unfold addArc. destruct (mArcDynamics s !! dyn_name) as [dyn|]; [|discriminate].
  simpl. intros H. injection H as _ <-. split; [|reflexivity].
  simpl. now rewrite (proj1 (ad_setDefaultParams_flags _ _ _)).
Qed.

Lemma addEdge_flags (u v : Node) (dyn_name : string) (s : System) (r : Arc * Arc) (s' : System) :
  addEdge u v dyn_name s = Some (r, s') ->
  mValidNodeIDs s' = mValidNodeIDs s ∧ mValidArcIDs s' = false.
Proof.
  unfold addEdge. destruct (addArc v u dyn_name s) as [[a1 s1]|] eqn:E1; [|discriminate].
  destruct (addArc u v dyn_name s1) as [[a2 s2]|] eqn:E2; [|discriminate].
  intros H. injection H as _ <-.
  destruct (addArc_flags _ _ _ _ _ _ E1) as [H1 _].
  destruct (addArc_flags _ _ _ _ _ _ E2) as [H2 H3].
  split; congruence.
Qed.

Lemma eraseArc_flags (e : Arc) (s : System) :
  mValidNodeIDs (eraseArc e s) = mValidNodeIDs s
  ∧ mValidArcIDs (eraseArc e s) = mValidArcIDs s.
Proof. split; reflexivity. Qed.

Lemma eraseNode_flags (v : Node) (s : System) :
  mValidNodeIDs (eraseNode v s) = mValidNodeIDs s
  ∧ mValidArcIDs (eraseNode v s) = mValidArcIDs s.
Proof.
  unfold eraseNode. simpl. split.
  - apply (fold_left_preserves mValidNodeIDs). reflexivity.
  - apply (fold_left_preserves mValidArcIDs). reflexivity.
Qed.

Lemma resetKeys_flags (s : System) :
  mValidNodeIDs (resetKeys s) = mValidNodeIDs s
  ∧ mValidArcIDs (resetKeys s) = mValidArcIDs s.
Proof.
  unfold resetKeys. split.
  - rewrite (fold_left_preserves mValidNodeIDs); reflexivity.
  - rewrite (fold_left_preserves mValidArcIDs); reflexivity.
Qed.

(** [refreshStateIDs] renumbers; it does not touch the flags. *)
Lemma refreshStateIDs_flags (s : System) :
  mValidNodeIDs (refreshStateIDs s) = mValidNodeIDs s
  ∧ mValidArcIDs (refreshStateIDs s) = mValidArcIDs s.
Proof.
  unfold refreshStateIDs.
  destruct (mValidNodeIDs s) eqn:E1; destruct (mValidArcIDs s) eqn:E2; simpl;
    rewrite ?E1, ?E2; simpl; rewrite ?E1, ?E2; auto.
Qed.

Lemma clear_flags (s : System) :
  mValidNodeIDs (clear s) = false ∧ mValidArcIDs (clear s) = false.
Proof. split; reflexivity. Qed.

Lemma copySystem_flags (from s : System) :
  mValidNodeIDs (copySystem from s) = false ∧ mValidArcIDs (copySystem from s) = false.
Proof. split; reflexivity. Qed.

Lemma ensure_state_ids_flags (s : System) :
  mValidNodeIDs (ensure_state_ids s) = mValidNodeIDs s
  ∧ mValidArcIDs (ensure_state_ids s) = mValidArcIDs s.
Proof.
  unfold ensure_state_ids. destruct (negb (validStateIDs s)); [|auto].
  apply refreshStateIDs_flags.
Qed.

(** The System a [simulate] call leaves: unchanged, or with its state
    indices ensured. *)
Lemma simulate_system (sim : Simulate) (s : System) (tMax : Q) (initial : State) :
  fst (fst (simulate sim s tMax initial))
  = match sim with
    | SimulateBase => s
    | _ => if wrong_size initial s then s else ensure_state_ids s
    end.
Proof.
  destruct sim; simpl; [reflexivity| | | |].
  - unfold SimulateMap_simulate. destruct (wrong_size initial s); [reflexivity|].
    destruct (map_steps _ _ _ _ _ _) as [[[t y1] y2] tr]. reflexivity.
  - unfold SimulateOdeFixed_simulate. destruct (wrong_size initial s); [reflexivity|].
    destruct (integrate_const _ _ _ _ _ _). reflexivity.
  - unfold SimulateOdeConst_simulate. destruct (wrong_size initial s); [reflexivity|].
    destruct (integrate_const _ _ _ _ _ _). reflexivity.
  - unfold SimulateOdeAdaptive_simulate. destruct (wrong_size initial s); [reflexivity|].
    destruct (integrate_adaptive _ _ _ _ _ _). reflexivity.
Qed.

Lemma simulate_flags (sim : Simulate) (s : System) (tMax : Q) (initial : State) :
  mValidNodeIDs (fst (fst (simulate sim s tMax initial))) = mValidNodeIDs s
  ∧ mValidArcIDs (fst (fst (simulate sim s tMax initial))) = mValidArcIDs s.
Proof.
  rewrite simulate_system.
  destruct sim; auto; destruct (wrong_size initial s); auto using ensure_state_ids_flags.
Qed.

End Flags.

(** ** The state widths *)

Section Widths.
Context `{UD : UserDynamics} `{LM : Lemon} `{OD : Odeint}.

Lemma widths_nonneg_new : widths_nonneg System_new.
Proof. split; vm_compute; discriminate. Qed.

Lemma addNode_widths (dyn_name : string) (s : System) (v : Node) (s' : System) :
  addNode dyn_name s = Some (v, s') ->
  mNodeStates s' = mNodeStates s ∧ mArcStates s' = mArcStates s.
Proof.
  unfold addNode. destruct (mNodeDynamics s !! dyn_name) as [dyn|]; [|discriminate].
  simpl. intros H. injection H as _ <-. destruct dyn; simpl; auto.
Qed.

Lemma addArc_widths (u v : Node) (dyn_name : string) (s : System) (e : Arc) (s' : System) :
  addArc u v dyn_name s = Some (e, s') ->
  mNodeStates s' = mNodeStates s ∧ mArcStates s' = mArcStates s.
Proof.
  unfold addArc. destruct (mArcDynamics s !! dyn_name) as [dyn|]; [|discriminate].
  simpl. intros H. injection H as _ <-. destruct dyn; simpl; auto.
Qed.

Lemma refreshStateIDs_widths (s : System) :
  mNodeStates (refreshStateIDs s) = mNodeStates s
  ∧ mArcStates (refreshStateIDs s) = mArcStates s.
Proof.
  unfold refreshStateIDs.
  destruct (mValidNodeIDs s) eqn:E1; destruct (mValidArcIDs s) eqn:E2; simpl;
    rewrite ?E1, ?E2; simpl; rewrite ?E1, ?E2; auto.
Qed.

Lemma ensure_state_ids_widths (s : System) :
  mNodeStates (ensure_state_ids s) = mNodeStates s
  ∧ mArcStates (ensure_state_ids s) = mArcStates s.
Proof.
  unfold ensure_state_ids, refreshStateIDs, validStateIDs.
  destruct (mValidNodeIDs s) eqn:E1; destruct (mValidArcIDs s) eqn:E2; simpl;
    rewrite ?E1, ?E2; simpl; rewrite ?E1, ?E2; auto.
Qed.

End Widths.

(** ** Simulation *)

Section SimulationProps.
Context `{UD : UserDynamics} `{OD : Odeint}.

Lemma states_of_totalStates (sys : System) : states_of sys = totalStates sys.
Proof. unfold states_of, totalStates. ring. Qed.

Lemma wrong_size_spec (initial : State) (sys : System) :
  wrong_size initial sys = true <-> size initial ≠ totalStates sys.
Proof.
  unfold wrong_size. rewrite states_of_totalStates.
  rewrite orb_true_iff, Z.ltb_lt, Z.gtb_lt. lia.
Qed.

Lemma wrong_size_false (initial : State) (sys : System) :
  wrong_size initial sys = false <-> size initial = totalStates sys.
Proof.
  destruct (wrong_size initial sys) eqn:E.
  - apply wrong_size_spec in E. split; [discriminate | contradiction].
  - split; [intros _ | reflexivity].
    destruct (Z.eq_dec (size initial) (totalStates sys)) as [Heq|Hne]; [exact Heq|].
    apply wrong_size_spec in Hne. congruence.
Qed.

Lemma error_does_nothing (sys : System) (initial : State) (msg : string) :
  reports_and_does_nothing sys initial (sys, initial, [Cerr msg]).
Proof. unfold reports_and_does_nothing. simpl. eauto 6. Qed.

End SimulationProps.

(** C7: each of the four simulators, called with an initial vector whose
    length differs from [totalStates sys], writes an error and does no
    work: no observer call, no change-log call, the System and the vector
    unchanged. *)
Theorem simulate_wrong_size_does_nothing `{UD : UserDynamics} `{OD : Odeint}
    (sys : System) (tMax : Q) (initial : State) :
  size initial ≠ totalStates sys ->
  reports_and_does_nothing sys initial (SimulateMap_simulate sys tMax initial)
  ∧ (forall st h,
       reports_and_does_nothing sys initial
         (SimulateOdeFixed_simulate st h sys tMax initial))
  ∧ (forall st epsAbs epsRel h,
       reports_and_does_nothing sys initial
         (SimulateOdeConst_simulate st epsAbs epsRel h sys tMax initial))
  ∧ (forall st epsAbs epsRel h,
       reports_and_does_nothing sys initial
         (SimulateOdeAdaptive_simulate st epsAbs epsRel h sys tMax initial)).
Proof.
  intros Hne. apply wrong_size_spec in Hne.
  unfold SimulateMap_simulate, SimulateOdeFixed_simulate, SimulateOdeConst_simulate,
    SimulateOdeAdaptive_simulate.
  rewrite Hne. repeat split; intros; apply error_does_nothing.
Qed.

(** An instance of C7: the System of two nodes has no state, and a
    vector of one element is refused by the four simulators. *)
Lemma simulate_wrong_size_does_nothing_witness :
  reports_and_does_nothing Examples.two_nodes [1%Q]
    (@SimulateMap_simulate Examples.Oscillators Examples.two_nodes 5 [1%Q])
  ∧ reports_and_does_nothing Examples.two_nodes [1%Q]
      (@SimulateOdeFixed_simulate Examples.Oscillators Examples.single_sample
         RK_4 (1 # 10) Examples.two_nodes 5 [1%Q]).
Proof.
  destruct (@simulate_wrong_size_does_nothing Examples.Oscillators Examples.single_sample
              Examples.two_nodes 5 [1%Q]) as (H1 & H2 & _).
  - vm_compute. discriminate.
  - split; [exact H1 | apply H2].
Defined.

Section MapSimulation.
Context `{UD : UserDynamics}.

Lemma ArcIt_no_arcs (sys : System) : arcs sys = [] -> ArcIt sys = [].
Proof.
  intros H. unfold ArcIt, out_arcs. rewrite H.
  induction (nodes sys) as [|v l IH]; simpl; auto.
Qed.

(** Without states no dynamics is called: [dx] stays as it is. *)
Lemma operator_call_stateless (sys : System) (x dx : State) (t : Q) :
  widths_nonneg sys -> totalStates sys = 0 -> countNodes sys = 1 ->
  operator_call sys x dx t = dx.
Proof.
  unfold widths_nonneg, totalStates, countNodes, countArcs, operator_call.
  intros [Hn Ha] Htot Hone. rewrite Hone in Htot.
  assert (Hn0 : mNodeStates sys = 0) by nia.
  rewrite Hn0. simpl.
  destruct (Z.gtb_spec (mArcStates sys) 0) as [Hpos|]; [|reflexivity].
  assert (Hlen : length (arcs sys) = 0%nat) by nia.
  rewrite ArcIt_no_arcs; [reflexivity|].
  now destruct (arcs sys).
Qed.

Lemma empty_samples_succ (sys : System) (t : Z) (n : nat) :
  empty_samples sys t (S n) = sample sys [] (inject_Z t) ++ empty_samples sys (t + 1) n.
Proof.
  unfold empty_samples. cbn [seq flat_map]. rewrite Z.add_0_r. f_equal.
  generalize 0%nat as i. induction n as [|n IH]; intros i.
  - reflexivity.
  - cbn [seq flat_map]. rewrite IH. do 3 f_equal. lia.
Qed.

Lemma map_steps_stateless (sys : System) (n : nat) (t : Z) (tr : list SimEvent) :
  (forall x dx u, operator_call sys x dx u = dx) ->
  map_steps n t sys [] [] tr = (t + Z.of_nat n, [], [], tr ++ empty_samples sys t n).
Proof.
  intros Hop. revert t tr. induction n as [|n IH]; intros t tr.
  - simpl. rewrite Z.add_0_r, app_nil_r. reflexivity.
  - cbn [map_steps]. rewrite !Hop.
    assert (Hstep : forall b : bool,
              (if b
               then map_steps n (t + 1) sys [] [] (tr ++ sample sys [] (inject_Z t))
               else map_steps n (t + 1) sys [] [] (tr ++ sample sys [] (inject_Z t)))
              = map_steps n (t + 1) sys [] [] (tr ++ sample sys [] (inject_Z t)))
      by (now intros []).
    rewrite Hstep, IH, empty_samples_succ, <- app_assoc.
    do 3 f_equal. lia.
Qed.

Lemma observed_app (tr1 tr2 : list SimEvent) :
  observed (tr1 ++ tr2)
  = (fst (observed tr1) ++ fst (observed tr2), snd (observed tr1) ++ snd (observed tr2)).
Proof. unfold observed. simpl. now rewrite !flat_map_app. Qed.

Lemma observed_empty_samples (sys : System) (t : Z) (n : nat) :
  observed (empty_samples sys t n)
  = (repeat [] n, map (fun k => inject_Z (t + Z.of_nat k)) (seq 0 n)).
Proof.
  revert t. induction n as [|n IH]; intros t.
  - reflexivity.
  - rewrite empty_samples_succ, observed_app, IH. simpl.
    rewrite Z.add_0_r. do 2 f_equal.
    rewrite <- seq_shift, map_map. apply map_ext. intros k. f_equal. lia.
Qed.

Lemma unit_times_from_zero (n : nat) :
  unit_times n = map (fun k => inject_Z (0 + Z.of_nat k)) (seq 0 (S n)).
Proof. reflexivity. Qed.

End MapSimulation.

(** A whole number within the range of [int] converts to itself. *)
Lemma trunc_inject_Z (z : Z) : INT_MIN <= z <= INT_MAX -> trunc (inject_Z z) = z.
Proof.
  intros [Hlo Hhi]. unfold trunc. cbn [inject_Z Qnum Qden]. rewrite Z.quot_1_r.
  destruct (Z.leb_spec INT_MIN z), (Z.leb_spec z INT_MAX); cbn; lia.
Qed.

(** The result of [trunc] is an [int]. *)
Lemma trunc_range (d : Q) : INT_MIN <= trunc d <= INT_MAX.
Proof.
  unfold trunc.
  destruct (Z.leb_spec INT_MIN (Qnum d ÷ Z.pos (Qden d))),
           (Z.leb_spec (Qnum d ÷ Z.pos (Qden d)) INT_MAX); cbn; try lia;
    unfold INT_MIN, INT_MAX; lia.
Qed.

(** C9, as the code has it: on a System with one node and no state at
    all, the discrete-map simulation over [tMax] steps, for
    [0 <= tMax < INT_MAX] (the loop counts in an [int]), leaves the empty
    state vector empty and calls the observer [tMax + 1] times, with the
    empty state, at the times 0, 1, ..., tMax.  ([widths_nonneg] holds of
    every System.) *)
Theorem map_simulation_without_states `{UD : UserDynamics} (sys : System) (tMax : Z) :
  widths_nonneg sys -> countNodes sys = 1 -> totalStates sys = 0 ->
  0 <= tMax -> tMax < INT_MAX ->
  snd (fst (SimulateMap_simulate sys (inject_Z tMax) [])) = []
  ∧ observed (snd (SimulateMap_simulate sys (inject_Z tMax) []))
    = (repeat [] (S (Z.to_nat tMax)), unit_times (Z.to_nat tMax))
  ∧ Z.of_nat (length (snd (observed (snd (SimulateMap_simulate sys (inject_Z tMax) [])))))
    = tMax + 1.
Proof.
  intros Hw Hone Htot Hpos Hmax.
  assert (Hop : forall x dx u, operator_call (ensure_state_ids sys) x dx u = dx).
  { intros x dx u. apply operator_call_stateless.
    - unfold widths_nonneg. destruct (ensure_state_ids_widths sys) as [-> ->]. exact Hw.
    - unfold totalStates, countNodes, countArcs in *.
      destruct (ensure_state_ids_widths sys) as [-> ->].
      assert (Hg : nodes (ensure_state_ids sys) = nodes sys
                   ∧ arcs (ensure_state_ids sys) = arcs sys).
      { unfold ensure_state_ids, refreshStateIDs, validStateIDs.
        destruct (mValidNodeIDs sys) eqn:E1; destruct (mValidArcIDs sys) eqn:E2; simpl;
          rewrite ?E1, ?E2; simpl; rewrite ?E1, ?E2; auto. }
      destruct Hg as [-> ->]. exact Htot.
    - unfold countNodes in *.
      assert (Hg : nodes (ensure_state_ids sys) = nodes sys).
      { unfold ensure_state_ids, refreshStateIDs, validStateIDs.
        destruct (mValidNodeIDs sys) eqn:E1; destruct (mValidArcIDs sys) eqn:E2; simpl;
          rewrite ?E1, ?E2; simpl; rewrite ?E1, ?E2; auto. }
      rewrite Hg. exact Hone. }
  assert (Hsize : wrong_size [] sys = false).
  { apply wrong_size_false. unfold size. simpl. lia. }
  assert (Htrunc : trunc (inject_Z tMax) = tMax) by (apply trunc_inject_Z; unfold INT_MIN, INT_MAX in *; lia).
  unfold SimulateMap_simulate. rewrite Hsize, Htrunc.
  rewrite (map_steps_stateless _ _ _ _ Hop).
  assert (Hfinal : forall b : bool, (if b then @nil Q else []) = []) by (now intros []).
  cbn [fst snd]. rewrite Hfinal.
  assert (Hobs : observed (sample (ensure_state_ids sys) [] 0
                           ++ empty_samples (ensure_state_ids sys) 1 (Z.to_nat tMax))
                 = (repeat [] (S (Z.to_nat tMax)), unit_times (Z.to_nat tMax))).
  { change (sample (ensure_state_ids sys) [] 0)
      with (sample (ensure_state_ids sys) [] (inject_Z 0)).
    rewrite <- empty_samples_succ, observed_empty_samples. reflexivity. }
  rewrite Hobs. split; [reflexivity|]. split; [reflexivity|].
  cbn [snd]. unfold unit_times. rewrite length_map, length_seq. lia.
Qed.

(** An instance of C9: one node without dynamics, three steps. *)
Lemma map_simulation_without_states_witness :
  let sys := Examples.add_a_node (@System_new Examples.Oscillators) in
  snd (fst (@SimulateMap_simulate Examples.Oscillators sys (inject_Z 3) [])) = []
  ∧ snd (observed (snd (@SimulateMap_simulate Examples.Oscillators sys (inject_Z 3) [])))
    = [0%Q; 1%Q; 2%Q; 3%Q].
Proof.
  cbv zeta.
  destruct (@map_simulation_without_states Examples.Oscillators
              (Examples.add_a_node (@System_new Examples.Oscillators)) 3)
    as (H1 & H2 & _).
  - split; vm_compute; discriminate.
  - vm_compute. reflexivity.
  - vm_compute. reflexivity.
  - lia.
  - reflexivity.
  - split; [exact H1|]. rewrite H2. reflexivity.
Defined.

(** C9 as stated fails beyond the range of [int]: with
    [tMax = 3000000000] the conversion [(int) tMax] does not give
    3000000000, the loop makes no step and the observer is called once,
    at time 0, not 3000000001 times. *)
Lemma map_simulation_beyond_int :
  let sys := Examples.add_a_node (@System_new Examples.Oscillators) in
  let tMax := 3000000000 in
  countNodes sys = 1 ∧ totalStates sys = 0 ∧ 0 <= tMax
  ∧ snd (observed (snd (@SimulateMap_simulate Examples.Oscillators sys (inject_Z tMax) [])))
    = [0%Q]
  ∧ Z.of_nat (length (snd (observed (snd (@SimulateMap_simulate Examples.Oscillators sys
                                             (inject_Z tMax) [])))))
    ≠ tMax + 1.
Proof.
  cbv zeta. split; [reflexivity|]. split; [reflexivity|]. split; [lia|].
  split; [vm_compute; reflexivity|]. vm_compute. discriminate.
Qed.

(** ** The composite change log *)

(** Without sub-loggers a call returns at once and reaches nobody. *)
Lemma forward_no_loggers (fuel : nat) (c : LogCall) :
  ChangeLogSet.forward (S fuel) ChangeLogSet.new c 0 [] = Returned [].
Proof. reflexivity. Qed.

(** With a sub-logger the condition of the loop never fails: the call
    does not return. *)
Lemma forward_never_returns (fuel : nat) (s : ChangeLogSet.t) (c : LogCall) (i : nat)
    (tr tr' : ChangeLogSet.Trace) :
  ChangeLogSet.mLoggers s ≠ [] -> ChangeLogSet.forward fuel s c i tr ≠ Returned tr'.
Proof.
  intros Hne. revert i tr. induction fuel as [|fuel IH]; intros i tr; simpl.
  - discriminate.
  - destruct (ChangeLogSet.mLoggers s) as [|l0 ls] eqn:E; [contradiction|].
    cbn [length]. rewrite Nat2Z.inj_succ.
    destruct (Z.eqb_spec (Z.succ (Z.of_nat (length ls))) 0) as [H0|_]; [lia|].
    cbn [negb]. destruct ((l0 :: ls) !! i) as [l|]; [|discriminate].
    apply IH.
Qed.

(** It reaches every sub-logger once, in order, and then reads
    [mLoggers] past its end. *)
Lemma forward_overruns_from (s : ChangeLogSet.t) (c : LogCall) (fuel i : nat)
    (tr : ChangeLogSet.Trace) :
  ChangeLogSet.mLoggers s ≠ [] ->
  (length (ChangeLogSet.mLoggers s) - i < fuel)%nat ->
  ChangeLogSet.forward fuel s c i tr
  = OutOfBounds (tr ++ map (fun l => (l, c)) (drop i (ChangeLogSet.mLoggers s))).
Proof.
  intros Hne. revert i tr. induction fuel as [|fuel IH]; intros i tr Hfuel; [lia|].
  cbn [ChangeLogSet.forward].
  assert (Hsize : negb (Z.of_nat (length (ChangeLogSet.mLoggers s)) =? 0) = true).
  { destruct (ChangeLogSet.mLoggers s); [contradiction|].
    cbn [length]. rewrite Nat2Z.inj_succ.
    destruct (Z.eqb_spec (Z.succ (Z.of_nat (length l))) 0); [lia|reflexivity]. }
  rewrite Hsize.
  destruct (ChangeLogSet.mLoggers s !! i) as [l|] eqn:E.
  - rewrite IH by (apply lookup_lt_Some in E; lia).
    rewrite (drop_S _ _ _ E). cbn [map]. now rewrite <- app_assoc.
  - apply lookup_ge_None in E. rewrite drop_ge by exact E. now rewrite app_nil_r.
Qed.

Lemma forward_overruns (s : ChangeLogSet.t) (c : LogCall) (fuel : nat) :
  ChangeLogSet.mLoggers s ≠ [] ->
  (length (ChangeLogSet.mLoggers s) < fuel)%nat ->
  ChangeLogSet.forward fuel s c 0 [] = OutOfBounds (ChangeLogSet.fan_out s c).
Proof.
  intros Hne Hfuel. rewrite forward_overruns_from by (auto; lia).
  reflexivity.
Qed.

(** C6 fails on the code: on a set with the one sub-logger 7, [commit]
    forwards the call to it, then reads [mLoggers[1]], past the end of the
    vector; whatever the fuel, it does not return. *)
Theorem changeLogSet_commit_runs_past_the_loggers :
  ChangeLogSet.commit 2 (ChangeLogSet.addChangeLog 7%nat ChangeLogSet.new)
  = OutOfBounds [(7%nat, LogCommit)]
  ∧ (forall fuel tr,
       ChangeLogSet.commit fuel (ChangeLogSet.addChangeLog 7%nat ChangeLogSet.new)
       ≠ Returned tr).
Proof.
  split.
  - reflexivity.
  - intros fuel tr. apply forward_never_returns. discriminate.
Qed.

(** ** Simulated annealing *)

Section TrialProps.
Context `{UD : UserDynamics} `{LM : Lemon} `{OD : Odeint} `{CO : Collaborators}.
Variable sim : Simulate.

(** A trial stopped by the connectivity check: nothing is scored. *)
Lemma trial_disconnected (temp : Q) (sys : System) (result : evolve_sa_result_t)
    (w : World) :
  ensureWeaklyConnected mParams = true ->
  weaklyConnectedComponents (fst (mMut_mutate (copySystem sys System_new) w)) ≠ 1 ->
  EvolveSA.trial sim temp sys result w
  = (fst (mMut_mutate (copySystem sys System_new) w), sys,
     mkResult (Q1 result) (Q2 result) (dQ result) false,
     snd (mMut_mutate (copySystem sys System_new) w)).
Proof.
  intros Hwc Hcc. unfold EvolveSA.trial.
  destruct (mMut_mutate (copySystem sys System_new) w) as [newSys w1]. simpl in *.
  rewrite Hwc. destruct (Z.eqb_spec (weaklyConnectedComponents newSys) 1) as [H1|_];
    [contradiction|reflexivity].
Qed.

(** A trial that passes the connectivity check: [Q2] is the value of
    [performance] on [sys], the System the trial was started from. *)
Lemma trial_Q2 (temp : Q) (sys : System) (result : evolve_sa_result_t) (w : World) :
  (ensureWeaklyConnected mParams
   && negb (weaklyConnectedComponents (fst (mMut_mutate (copySystem sys System_new) w))
            =? 1)) = false ->
  Q2 (snd (fst (EvolveSA.trial sim temp sys result w)))
  = fst (fst (EvolveSA.performance sim sys
                (snd (mMut_mutate (copySystem sys System_new) w)))).
Proof.
  intros Hpass. unfold EvolveSA.trial.
  destruct (mMut_mutate (copySystem sys System_new) w) as [newSys w1]. simpl in *.
  rewrite Hpass.
  destruct (EvolveSA.performance sim sys w1) as [[q2 sys1] w2]. simpl.
  destruct (Qlt_bool 0 (Q1 result - q2)); [reflexivity|].
  destruct (negb (Qeq_bool temp 0) && Qlt_bool 0 temp); [|reflexivity].
  destruct (mParams_rnd w2) as [r w3].
  destruct (Qle_bool r (acceptProb (Q1 result - q2) temp)); reflexivity.
Qed.

(** The streak [noChange] is a [bool]: it never counts beyond one, and
    with a threshold of one or more its test never stops the search. *)
Lemma noChange_at_most_one (accepts : Z) (noChange : bool) :
  Z.b2z (EvolveSA.update_noChange accepts noChange) <= 1.
Proof. destruct (EvolveSA.update_noChange accepts noChange); simpl; lia. Qed.

Lemma noChange_test_always_true (st : EvolveSA.LoopState) :
  1 <= acceptRunsNoChange mParams ->
  (Z.b2z (EvolveSA.ls_noChange st) <=? acceptRunsNoChange mParams) = true.
Proof. intros H. apply Z.leb_le. destruct (EvolveSA.ls_noChange st); simpl; lia. Qed.

(** Without initial conditions a measure that needs dynamics gets the
    fixed poor score. *)
Lemma performance_no_initial_states (sys : System) (w : World) :
  mQ_getType ≠ TOPOLOGY_ONLY ->
  fst (initial_initialStates sys w) = [] ->
  fst (fst (EvolveSA.performance sim sys w)) = 100000000000%Q.
Proof.
  intros Hty Hnone. unfold EvolveSA.performance.
  destruct mQ_getType; [contradiction| |];
    destruct (initial_initialStates sys w) as [conds w1]; simpl in Hnone; subst conds;
    reflexivity.
Qed.

End TrialProps.

(** C8: with [ensureWeaklyConnected] set, a trial whose mutated copy does
    not have exactly one weakly connected component leaves the accept flag
    false and the System it started from untouched, whatever the scores;
    in the cooling loop the incumbent stays and no accept is counted. *)
Theorem disconnected_trial_is_never_accepted
    `{UD : UserDynamics} `{LM : Lemon} `{OD : Odeint} `{CO : Collaborators}
    (sim : Simulate) (st : EvolveSA.LoopState) (accepts : Z) :
  ensureWeaklyConnected mParams = true ->
  weaklyConnectedComponents
    (fst (mMut_mutate (copySystem (EvolveSA.ls_curSys st) System_new) (EvolveSA.ls_world st)))
  ≠ 1 ->
  a (snd (fst (EvolveSA.trial sim (EvolveSA.ls_temp st) (EvolveSA.ls_curSys st)
                 (EvolveSA.ls_result st) (EvolveSA.ls_world st)))) = false
  ∧ snd (fst (fst (EvolveSA.trial sim (EvolveSA.ls_temp st) (EvolveSA.ls_curSys st)
                     (EvolveSA.ls_result st) (EvolveSA.ls_world st))))
    = EvolveSA.ls_curSys st
  ∧ EvolveSA.ls_curSys (fst (EvolveSA.main_trial sim st accepts)) = EvolveSA.ls_curSys st
  ∧ Q1 (EvolveSA.ls_result (fst (EvolveSA.main_trial sim st accepts)))
    = Q1 (EvolveSA.ls_result st)
  ∧ snd (EvolveSA.main_trial sim st accepts) = accepts.
Proof.
  intros Hwc Hcc. unfold EvolveSA.main_trial.
  rewrite (trial_disconnected sim _ _ _ _ Hwc Hcc). simpl. auto.
Qed.

(** An instance of C8: the search of [Examples.stalled_search] on a new
    System, whose copy has no node and so no component. *)
Lemma disconnected_trial_is_never_accepted_witness :
  EvolveSA.ls_curSys
    (fst (@EvolveSA.main_trial Examples.Oscillators Examples.ListDigraph
            Examples.single_sample Examples.stalled_search SimulateMap
            (@EvolveSA.mkLoopState Examples.stalled_search
               (@System_new Examples.Oscillators) (mkResult 5 0 0 false) 0 1 false tt [])
            0))
  = @System_new Examples.Oscillators.
Proof.
  refine (proj1 (proj2 (proj2
    (@disconnected_trial_is_never_accepted Examples.Oscillators Examples.ListDigraph
       Examples.single_sample Examples.stalled_search SimulateMap
       (@EvolveSA.mkLoopState Examples.stalled_search
          (@System_new Examples.Oscillators) (mkResult 5 0 0 false) 0 1 false tt [])
       0 _ _)))).
  - reflexivity.
  - vm_compute. discriminate.
Defined.

(** C1 fails on the code: in [Examples.grow_search] a trial on the new
    System (score 0) produces a copy with one node, whose score is -1, an
    improvement; the [Q2] of the trial is 0, the score of the System the
    trial started from, [dQ] is 0 and the copy is not accepted. *)
Theorem trial_scores_the_incumbent :
  let r := @EvolveSA.trial Examples.Oscillators Examples.ListDigraph
             Examples.single_sample Examples.grow_search SimulateMap
             1 (@System_new Examples.Oscillators) (mkResult 0 0 0 false) tt in
  let newSys := fst (fst (fst r)) in
  Q2 (snd (fst r)) = 0%Q
  ∧ fst (fst (@EvolveSA.performance Examples.Oscillators Examples.single_sample
                Examples.grow_search SimulateMap (@System_new Examples.Oscillators) tt))
    = 0%Q
  ∧ fst (fst (@EvolveSA.performance Examples.Oscillators Examples.single_sample
                Examples.grow_search SimulateMap newSys tt))
    = (-1)%Q
  ∧ a (snd (fst r)) = false.
Proof. cbv zeta. repeat split; vm_compute; reflexivity. Qed.

(** C2 fails on the code: in [Examples.stalled_search] the threshold
    [acceptRunsNoChange] is 1 and no trial is ever accepted; the claim
    ends the loop after two outer iterations, the code runs six, until
    the iteration count stops it, and the streak is still 1. *)
Theorem cooling_loop_outlasts_the_threshold :
  acceptRunsNoChange (@mParams Examples.stalled_search) = 1
  ∧ exists st,
      @EvolveSA.evolve Examples.Oscillators Examples.ListDigraph Examples.single_sample
        Examples.stalled_search SimulateMap 100 (@System_new Examples.Oscillators) tt
      = Some (Returned (st, [0; 0; 0; 0; 0; 0]))
      ∧ Z.b2z (EvolveSA.ls_noChange st) = 1
      ∧ EvolveSA.ls_iteration st = 6.
Proof.
  split; [reflexivity|].
  eexists. split; [vm_compute; reflexivity|].
  split; reflexivity.
Qed.

(** C3 fails on the code: in [Examples.half_search] there is one initial
    condition and its score is 1/2, so the mean is 1/2; [performance]
    returns 0, because the sum is kept in an [int]. *)
Theorem performance_truncates_the_scores :
  @condition_scores Examples.Oscillators Examples.single_sample Examples.half_search
    SimulateMap [[]] (@System_new Examples.Oscillators) = [(1 # 2)%Q]
  ∧ (arithmetic_mean [(1 # 2)%Q] == 1 # 2)%Q
  ∧ fst (fst (@EvolveSA.performance Examples.Oscillators Examples.single_sample
                Examples.half_search SimulateMap (@System_new Examples.Oscillators) tt))
    = 0%Q.
Proof. repeat split; vm_compute; reflexivity. Qed.

(** ** Saving and loading *)

Section Loading.
Context `{UD : UserDynamics} `{TX : GML.Text}.

Lemma nodeData_set_nodeData (v u : Node) (d : NodeData) (s : System) :
  nodeData (set_nodeData v d s) u = if decide (v = u) then d else nodeData s u.
Proof.
  unfold nodeData, set_nodeData. simpl. rewrite lookup_insert.
  now destruct (decide (v = u)).
Qed.

(** The loop of [fix_next_key] leaves the nodes in place and the key 0 in
    every node it visits. *)
Lemma fix_next_key_loop (l : list Node) (acc : System) :
  let step := fun acc v =>
    let d := nodeData acc v in
    let acc1 := set_nodeData v (mkNodeData 0 (name d) (position d) (properties d)
                                  (dynamic d) (dynamicParams d)) acc in
    if mNextKey acc1 <? 0 then set_mNextKey 0 acc1 else acc1 in
  nodes (fold_left step l acc) = nodes acc
  ∧ (forall v, v ∈ l ∨ key (nodeData acc v) = 0 ->
       key (nodeData (fold_left step l acc) v) = 0).
Proof.
  intros step. revert acc. induction l as [|x l IH]; intros acc.
  - simpl. split; [reflexivity|]. intros v [Hin|H0]; [inversion Hin | exact H0].
  - cbn [fold_left]. destruct (IH (step acc x)) as [Hn Hk]. split.
    + rewrite Hn. unfold step. now destruct (_ <? _).
    + intros v Hv. apply Hk.
      assert (Hdata : nodeData (step acc x) v
                      = if decide (x = v)
                        then let d := nodeData acc x in
                             mkNodeData 0 (name d) (position d) (properties d)
                               (dynamic d) (dynamicParams d)
                        else nodeData acc v).
      { unfold step. destruct (_ <? _); apply nodeData_set_nodeData. }
      destruct Hv as [Hin|H0].
      * apply elem_of_cons in Hin as [->|Hin]; [|now left].
        right. rewrite Hdata. now destruct (decide (x = x)).
      * right. rewrite Hdata. now destruct (decide (x = v)).
Qed.

Lemma fix_next_key_keys (s : System) :
  nodes (GML.fix_next_key s) = nodes s
  ∧ (forall v, v ∈ nodes s -> key (nodeData (GML.fix_next_key s) v) = 0).
Proof.
  unfold GML.fix_next_key. destruct (fix_next_key_loop (NodeIt s) s) as [Hn Hk].
  split; [exact Hn|]. intros v Hv. apply (Hk v). now left.
Qed.

Lemma edge_attr_nodes (e : Arc) (s s' : System) (p : GML.GML_pair) :
  GML.edge_attr e s p = Some s' -> nodes s' = nodes s ∧ mNodeData s' = mNodeData s.
Proof.
  unfold GML.edge_attr.
  repeat match goal with
         | |- context [if ?b then _ else _] => destruct b
         end;
    destruct p; try discriminate;
    try destruct (GML.map_index _ _ _);
    intros H; injection H as <-; auto.
Qed.

Lemma apply_edge_attrs_nodes (e : Arc) (l : list GML.GML_pair) (s s' : System) :
  GML.apply_attrs GML.edge_attr e s l = Some s' ->
  nodes s' = nodes s ∧ mNodeData s' = mNodeData s.
Proof.
  revert s. induction l as [|p l IH]; intros s; simpl.
  - intros H. injection H as <-. auto.
  - destruct (GML.edge_attr e s p) as [s1|] eqn:E; [|discriminate].
    intros H. destruct (IH _ H) as [-> ->]. eapply edge_attr_nodes, E.
Qed.

Lemma addArc_nodes (u v : Node) (dyn_name : string) (s : System) (e : Arc) (s' : System) :
  addArc u v dyn_name s = Some (e, s') ->
  nodes s' = nodes s ∧ mNodeData s' = mNodeData s.
Proof.
  unfold addArc. destruct (mArcDynamics s !! dyn_name) as [dyn|]; [|discriminate].
  simpl. intros H. injection H as _ <-. destruct dyn; simpl; auto.
Qed.

Lemma load_edges_nodes (entries : list (Z * Z * list GML.GML_pair)) (s : System)
    (id_2_node : gmap Z Node) (s' : System) :
  GML.load_edges entries s id_2_node = Some s' ->
  nodes s' = nodes s ∧ mNodeData s' = mNodeData s.
Proof.
  revert s. induction entries as [|[[x y] attrs] rest IH]; intros s; simpl.
  - intros H. injection H as <-. auto.
  - destruct (id_2_node !! x) as [source|]; [|discriminate].
    destruct (id_2_node !! y) as [target|]; [|discriminate].
    destruct (addArc source target "NoArcDynamic" s) as [[e s1]|] eqn:E1; [|discriminate].
    destruct (GML.apply_attrs GML.edge_attr e s1 attrs) as [s2|] eqn:E2; [|discriminate].
    intros H. destruct (IH _ H) as [-> ->].
    destruct (apply_edge_attrs_nodes _ _ _ _ E2) as [-> ->].
    eapply addArc_nodes, E1.
Qed.

Lemma refreshStateIDs_nodes (s : System) :
  nodes (refreshStateIDs s) = nodes s ∧ mNodeData (refreshStateIDs s) = mNodeData s.
Proof.
  unfold refreshStateIDs.
  destruct (mValidNodeIDs s) eqn:E1; destruct (mValidArcIDs s) eqn:E2; simpl;
    rewrite ?E1, ?E2; simpl; rewrite ?E1, ?E2; auto.
Qed.

(** Whatever the file, every node of a System that [openFromGML] has
    loaded carries the key 0. *)
Lemma openFromGML_resets_keys (file : list GML.GML_pair) (s L : System) :
  GML.openFromGML file s = Some L ->
  forall v, v ∈ NodeIt L -> key (nodeData L v) = 0.
Proof.
  unfold GML.openFromGML.
  destruct (GML.find_graph file) as [graph_list|]; [|discriminate].
  destruct (GML.sort_entries graph_list [] []) as [[node_entries edge_entries]|];
    [|discriminate].
  destruct (GML.load_nodes node_entries s ∅) as [[s1 id_2_node]|]; [|discriminate].
  destruct (GML.load_edges edge_entries (GML.fix_next_key s1) id_2_node) as [s2|] eqn:E;
    [|discriminate].
  intros H. injection H as <-. intros v. unfold NodeIt, nodeData.
  destruct (refreshStateIDs_nodes s2) as [-> ->].
  destruct (load_edges_nodes _ _ _ _ E) as [-> ->].
  destruct (fix_next_key_keys s1) as [Hn Hk]. rewrite Hn. apply Hk.
Qed.

End Loading.

(** C4 fails on the code: the System [Examples.two_nodes] has the node
    keys 1 and 0; once saved and loaded into a new System it has two nodes
    and no arc again, but both keys are 0: the loop after the nodes are
    read writes [curKey], which is 0, into every node. *)
Theorem load_of_save_loses_the_keys (TX : GML.Text) :
  map (fun v => key (nodeData Examples.two_nodes v)) (NodeIt Examples.two_nodes) = [1; 0]
  ∧ match @GML.openFromGML Examples.Oscillators TX
            (@GML.saveToGML Examples.Oscillators TX Examples.two_nodes)
            (@GML.registered Examples.Oscillators [] []) with
    | Some L =>
        countNodes L = 2 ∧ countArcs L = 0
        ∧ map (fun v => key (nodeData L v)) (NodeIt L) = [0; 0]
    | None => False
    end.
Proof. split; vm_compute; auto. Qed.

(** ** Renumbering the state indices *)

Lemma renumber_not_in (i : Z) (l : list nat) (m : gmap nat Z) (x : nat) :
  x ∉ l -> renumber i l m !! x = m !! x.
Proof.
  revert i m. induction l as [|y l IH]; intros i m Hx; simpl; [reflexivity|].
  apply not_elem_of_cons in Hx as [Hne Hx].
  rewrite IH by exact Hx. now apply lookup_insert_ne.
Qed.

(** Where [renumber] writes, the old content does not matter. *)
Lemma renumber_in (i : Z) (l : list nat) (m m' : gmap nat Z) (x : nat) :
  x ∈ l -> renumber i l m !! x = renumber i l m' !! x.
Proof.
  revert i m m'. induction l as [|y l IH]; intros i m m' Hx; simpl.
  - inversion Hx.
  - destruct (decide (x ∈ l)) as [Hin|Hout].
    + now apply IH.
    + apply elem_of_cons in Hx as [->|Hx]; [|contradiction].
      rewrite !renumber_not_in by exact Hout. now rewrite !lookup_insert_eq.
Qed.

Lemma renumber_twice (i : Z) (l : list nat) (m : gmap nat Z) :
  renumber i l (renumber i l m) = renumber i l m.
Proof.
  apply map_eq. intros x. destruct (decide (x ∈ l)) as [Hin|Hout].
  - now apply renumber_in.
  - now rewrite renumber_not_in.
Qed.

(** Without repetition the element at position [k] gets the number
    [i + k]. *)
Lemma renumber_lookup (i : Z) (l : list nat) (m : gmap nat Z) (k : nat) (x : nat) :
  NoDup l -> l !! k = Some x -> renumber i l m !! x = Some (i + Z.of_nat k).
Proof.
  revert i m k. induction l as [|y l IH]; intros i m k Hnd Hk; [discriminate|].
  apply NoDup_cons in Hnd as [Hy Hnd]. destruct k as [|k]; simpl in *.
  - injection Hk as ->. rewrite renumber_not_in by exact Hy.
    rewrite lookup_insert_eq. f_equal. lia.
  - rewrite (IH _ _ k Hnd Hk). f_equal. lia.
Qed.

Section Refresh.
Context `{UD : UserDynamics}.

Lemma refreshStateIDs_graph (s : System) :
  nodes (refreshStateIDs s) = nodes s ∧ arcs (refreshStateIDs s) = arcs s.
Proof.
  unfold refreshStateIDs.
  destruct (mValidNodeIDs s) eqn:E1; destruct (mValidArcIDs s) eqn:E2; simpl;
    rewrite ?E1, ?E2; simpl; rewrite ?E1, ?E2; auto.
Qed.

Lemma refreshStateIDs_IDs (s : System) :
  mNodeIDs (refreshStateIDs s)
  = (if mValidNodeIDs s then mNodeIDs s else renumber 0 (NodeIt s) (mNodeIDs s))
  ∧ mArcIDs (refreshStateIDs s)
    = (if mValidArcIDs s then mArcIDs s
       else renumber 0 (map arc_id (ArcIt s)) (mArcIDs s)).
Proof.
  unfold refreshStateIDs.
  destruct (mValidNodeIDs s) eqn:E1; destruct (mValidArcIDs s) eqn:E2; simpl;
    rewrite ?E1, ?E2; simpl; rewrite ?E1, ?E2; auto.
Qed.

End Refresh.

(** X1: [refreshStateIDs] is idempotent: a second call right after the
    first changes nothing, whether the flags say valid or not. *)
Theorem refreshStateIDs_idempotent (s : System) :
  refreshStateIDs (refreshStateIDs s) = refreshStateIDs s.
Proof.
  destruct s as [ns ars nn na nst ast nids aids vn va nd ad ndyn adyn nk].
  unfold refreshStateIDs. destruct vn, va; simpl; try reflexivity.
  - unfold set_mArcIDs. simpl. f_equal. apply renumber_twice.
  - unfold set_mNodeIDs. simpl. f_equal. apply renumber_twice.
  - unfold set_mArcIDs, set_mNodeIDs. simpl. f_equal; apply renumber_twice.
Qed.

Lemma filter_split_disjoint {A : Type} (P Q : A -> Prop)
    `{!forall x, Decision (P x)} `{!forall x, Decision (Q x)} (l : list A) :
  (forall x, P x -> Q x -> False) ->
  filter P l ++ filter Q l ≡ₚ filter (fun x => P x ∨ Q x) l.
Proof.
  intros Hdis. induction l as [|x l IH]; [reflexivity|].
  rewrite !filter_cons.
  destruct (decide (P x)) as [HP|HP]; destruct (decide (Q x)) as [HQ|HQ];
    destruct (decide (P x ∨ Q x)) as [HPQ|HPQ]; try tauto.
  - exfalso. eauto.
  - simpl. now rewrite IH.
  - rewrite <- Permutation_middle. now rewrite IH.
Qed.

Lemma filter_all {A : Type} (P : A -> Prop) `{!forall x, Decision (P x)} (l : list A) :
  (forall x, x ∈ l -> P x) -> filter P l = l.
Proof.
  induction l as [|x l IH]; intros Hall; [reflexivity|].
  rewrite filter_cons_True by (apply Hall; left).
  f_equal. apply IH. intros y Hy. apply Hall. now right.
Qed.

(** The iteration of the arcs visits every arc whose source is a node,
    once. *)
Lemma ArcIt_filter (ars : list ArcRec) (l : list Node) :
  NoDup l ->
  flat_map (fun v => filter (fun r => arc_source r = v) ars) l
  ≡ₚ filter (fun r => arc_source r ∈ l) ars.
Proof.
  induction 1 as [|v l Hv Hnd IH]; simpl.
  - induction ars as [|r ars IHa]; [reflexivity|].
    rewrite filter_cons. destruct (decide (arc_source r ∈ [])) as [Hin|_]; [|exact IHa].
    inversion Hin.
  - rewrite IH.
    rewrite (filter_split_disjoint (fun r => arc_source r = v) (fun r => arc_source r ∈ l)).
    + erewrite (list_filter_iff (fun r => arc_source r = v ∨ arc_source r ∈ l)
                  (fun r => arc_source r ∈ v :: l)); [reflexivity|].
      intros r. rewrite elem_of_cons. reflexivity.
    + intros r -> Hin. contradiction.
Qed.

Lemma ArcIt_Permutation (s : System) :
  graph_wf s -> ArcIt s ≡ₚ arcs s.
Proof.
  intros (Hnd & _ & Hsrc). unfold ArcIt, out_arcs. rewrite ArcIt_filter by exact Hnd.
  now rewrite filter_all by exact Hsrc.
Qed.



(** ** Operations that raise no flag and keep the widths *)

Lemma quiet_refl (s : System) : quiet s s.
Proof. split; [apply no_flag_raised_refl|]. split; reflexivity. Qed.

Lemma quiet_trans (s1 s2 s3 : System) : quiet s1 s2 -> quiet s2 s3 -> quiet s1 s3.
Proof.
  intros (F1 & N1 & A1) (F2 & N2 & A2). split; [eapply no_flag_raised_trans; eassumption|].
  split; congruence.
Qed.

Lemma quiet_eq (s s' : System) :
  mValidNodeIDs s' = mValidNodeIDs s -> mValidArcIDs s' = mValidArcIDs s ->
  mNodeStates s' = mNodeStates s -> mArcStates s' = mArcStates s -> quiet s s'.
Proof. intros H1 H2 H3 H4. split; [now apply no_flag_raised_eq|]. now split. Qed.

(** A System whose flags both say invalid has had no flag raised. *)
Lemma quiet_invalid (s s' : System) :
  mValidNodeIDs s' = false -> mValidArcIDs s' = false ->
  mNodeStates s' = mNodeStates s -> mArcStates s' = mArcStates s -> quiet s s'.
Proof.
  intros H1 H2 H3 H4. split; [|now split].
  split; intros H; congruence.
Qed.

Lemma step_all_None {A : Type} (f : A -> System -> option System) (l : list A) :
  fold_left (fun acc x => match acc with Some s1 => f x s1 | None => None end) l None = None.
Proof. induction l as [|x l IH]; [reflexivity|exact IH]. Qed.

Lemma step_all_cons {A : Type} (f : A -> System -> option System) (x : A) (l : list A)
    (s : System) :
  step_all f (x :: l) s = match f x s with Some s1 => step_all f l s1 | None => None end.
Proof.
  unfold step_all. cbn [fold_left]. destruct (f x s); [reflexivity|apply step_all_None].
Qed.

Lemma step_all_quiet {A : Type} (f : A -> System -> option System) (l : list A)
    (s s' : System) :
  (forall x s1 s2, f x s1 = Some s2 -> quiet s1 s2) ->
  step_all f l s = Some s' -> quiet s s'.
Proof.
  intros Hf. revert s. induction l as [|x l IH]; intros s H.
  - injection H as <-. apply quiet_refl.
  - rewrite step_all_cons in H. destruct (f x s) as [s1|] eqn:E; [|discriminate H].
    exact (quiet_trans _ _ _ (Hf _ _ _ E) (IH _ H)).
Qed.

Section QuietOperations.
Context `{UD : UserDynamics} `{LM : Lemon} `{OD : Odeint} `{TX : GML.Text}.

Lemma addNode_quiet (dyn_name : string) (s : System) (v : Node) (s' : System) :
  addNode dyn_name s = Some (v, s') -> quiet s s'.
Proof.
  intros H. destruct (addNode_flags _ _ _ _ H) as [F1 F2].
  destruct (addNode_widths _ _ _ _ H) as [W1 W2].
  split; [|now split]. split; intros Ht; congruence.
Qed.

Lemma addArc_quiet (u v : Node) (dyn_name : string) (s : System) (e : Arc) (s' : System) :
  addArc u v dyn_name s = Some (e, s') -> quiet s s'.
Proof.
  intros H. destruct (addArc_flags _ _ _ _ _ _ H) as [F1 F2].
  destruct (addArc_widths _ _ _ _ _ _ H) as [W1 W2].
  split; [|now split]. split; intros Ht; congruence.
Qed.

Lemma addEdge_quiet (u v : Node) (dyn_name : string) (s : System) (r : Arc * Arc)
    (s' : System) :
  addEdge u v dyn_name s = Some (r, s') -> quiet s s'.
Proof.
  unfold addEdge. destruct (addArc v u dyn_name s) as [[a1 s1]|] eqn:E1; [|discriminate].
  destruct (addArc u v dyn_name s1) as [[a2 s2]|] eqn:E2; [|discriminate].
  intros H. injection H as _ <-.
  exact (quiet_trans _ _ _ (addArc_quiet _ _ _ _ _ _ E1) (addArc_quiet _ _ _ _ _ _ E2)).
Qed.

Lemma clear_quiet (s : System) : quiet s (clear s).
Proof. apply quiet_invalid; reflexivity. Qed.

Lemma refreshStateIDs_quiet (s : System) : quiet s (refreshStateIDs s).
Proof.
  destruct (refreshStateIDs_flags s), (refreshStateIDs_widths s). now apply quiet_eq.
Qed.

Lemma add_nodes_quiet (n : nat) (defNodeDyn : string) (s s' : System) :
  add_nodes n defNodeDyn s = Some s' -> quiet s s'.
Proof.
  revert s. induction n as [|n IH]; intros s; cbn [add_nodes].
  - intros H. injection H as <-. apply quiet_refl.
  - destruct (addNode defNodeDyn s) as [[v s1]|] eqn:E; [|discriminate].
    intros H. exact (quiet_trans _ _ _ (addNode_quiet _ _ _ _ E) (IH _ H)).
Qed.

Lemma ring_neighbours_quiet (count : nat) (j : Z) (v : Node) (numOfNodes : Z)
    (defEdgeDyn : string) (undirected : bool) (s s' : System) :
  ring_neighbours count j v numOfNodes defEdgeDyn undirected s = Some s' -> quiet s s'.
Proof.
  revert j s. induction count as [|count IH]; intros j s; cbn [ring_neighbours].
  - intros H. injection H as <-. apply quiet_refl.
  - destruct (getNode (Z.rem j numOfNodes) s) as [u|]; [|discriminate].
    destruct undirected.
    + destruct (addEdge v u defEdgeDyn s) as [[r s1]|] eqn:E; [|discriminate]. cbn.
      intros H. exact (quiet_trans _ _ _ (addEdge_quiet _ _ _ _ _ _ E) (IH _ _ H)).
    + destruct (addArc v u defEdgeDyn s) as [[e s1]|] eqn:E; [|discriminate]. cbn.
      intros H. exact (quiet_trans _ _ _ (addArc_quiet _ _ _ _ _ _ E) (IH _ _ H)).
Qed.

Lemma ring_nodes_quiet (l : list Node) (i numOfNodes neighbours : Z)
    (defEdgeDyn : string) (undirected : bool) (s s' : System) :
  ring_nodes l i numOfNodes neighbours defEdgeDyn undirected s = Some s' -> quiet s s'.
Proof.
  revert i s. induction l as [|v l IH]; intros i s; cbn [ring_nodes].
  - intros H. injection H as <-. apply quiet_refl.
  - destruct (ring_neighbours _ _ _ _ _ _ s) as [s1|] eqn:E; [|discriminate].
    intros H. exact (quiet_trans _ _ _ (ring_neighbours_quiet _ _ _ _ _ _ _ _ E) (IH _ _ H)).
Qed.

Lemma ringGraph_quiet (numOfNodes neighbours : Z) (defNodeDyn defEdgeDyn : string)
    (undirected : bool) (s s' : System) :
  ringGraph numOfNodes neighbours defNodeDyn defEdgeDyn undirected s = Some s' -> quiet s s'.
Proof.
  unfold ringGraph.
  destruct (add_nodes _ _ (clear s)) as [s1|] eqn:E1; [|discriminate].
  destruct (ring_nodes _ _ _ _ _ _ s1) as [s2|] eqn:E2; [|discriminate].
  intros H. injection H as <-.
  eapply quiet_trans; [apply clear_quiet|].
  eapply quiet_trans; [eapply add_nodes_quiet, E1|].
  eapply quiet_trans; [eapply ring_nodes_quiet, E2|]. apply refreshStateIDs_quiet.
Qed.

Lemma rnd_quiet (s : System) : quiet s (snd (rnd s)).
Proof. apply quiet_eq; reflexivity. Qed.

Lemma random_pair_quiet (edgeProb : Q) (selfLoops : bool) (defEdgeDyn : string)
    (undirected : bool) (n1 n2 : Node) (s s' : System) :
  random_pair edgeProb selfLoops defEdgeDyn undirected n1 n2 s = Some s' -> quiet s s'.
Proof.
  unfold random_pair.
  destruct ((Nat.eqb n1 n2 && selfLoops) || negb (Nat.eqb n1 n2));
    [|intros H; injection H as <-; apply quiet_refl].
  pose proof (rnd_quiet s) as Hr. destruct (rnd s) as [x s1]. cbn [snd] in Hr.
  destruct (Qle_bool x edgeProb); [|intros H; injection H as <-; exact Hr].
  destruct undirected.
  - destruct (findArc s1 n1 n2); [intros H; injection H as <-; exact Hr|].
    destruct (addArc n1 n2 defEdgeDyn s1) as [[e1 s2]|] eqn:E1; [|discriminate].
    destruct (addArc n2 n1 defEdgeDyn s2) as [[e2 s3]|] eqn:E2; [|discriminate].
    cbn. intros H. injection H as <-.
    eapply quiet_trans; [exact Hr|].
    exact (quiet_trans _ _ _ (addArc_quiet _ _ _ _ _ _ E1) (addArc_quiet _ _ _ _ _ _ E2)).
  - destruct (addArc n1 n2 defEdgeDyn s1) as [[e1 s2]|] eqn:E1; [|discriminate].
    cbn. intros H. injection H as <-.
    exact (quiet_trans _ _ _ Hr (addArc_quiet _ _ _ _ _ _ E1)).
Qed.

Lemma randomGraph_quiet (edgeProb : Q) (numOfNodes : Z) (selfLoops : bool)
    (defNodeDyn defEdgeDyn : string) (undirected : bool) (s s' : System) :
  randomGraph edgeProb numOfNodes selfLoops defNodeDyn defEdgeDyn undirected s = Some s' ->
  quiet s s'.
Proof.
  unfold randomGraph.
  destruct (add_nodes _ _ (clear s)) as [s1|] eqn:E1; [|discriminate].
  destruct (step_all _ (NodeIt s1) s1) as [s2|] eqn:E2; [|discriminate].
  intros H. injection H as <-.
  eapply quiet_trans; [apply clear_quiet|].
  eapply quiet_trans; [eapply add_nodes_quiet, E1|].
  eapply quiet_trans; [|apply refreshStateIDs_quiet].
  eapply step_all_quiet; [|exact E2].
  intros n1 t1 t2 Ht. eapply step_all_quiet; [|exact Ht].
  intros n2 u1 u2. apply random_pair_quiet.
Qed.

Lemma mirror_arc_quiet (e : ArcRec) (s s' : System) : mirror_arc e s = Some s' -> quiet s s'.
Proof.
  unfold mirror_arc.
  destruct (findArc s (arc_target e) (arc_source e));
    [intros H; injection H as <-; apply quiet_refl|].
  destruct (addArc _ _ _ s) as [[eNew s1]|] eqn:E; [|discriminate].
  intros H. injection H as <-.
  eapply quiet_trans; [eapply addArc_quiet, E|]. apply quiet_eq; reflexivity.
Qed.

Lemma makeUndirected_quiet (s s' : System) : makeUndirected s = Some s' -> quiet s s'.
Proof. apply step_all_quiet. intros e. apply mirror_arc_quiet. Qed.

Lemma copyDigraph_quiet (from s : System) : quiet s (copyDigraph from s).
Proof. apply quiet_invalid; reflexivity. Qed.

Lemma set_node_dynamic_quiet (defNodeDyn : string) (v : Node) (s s' : System) :
  set_node_dynamic defNodeDyn v s = Some s' -> quiet s s'.
Proof.
  unfold set_node_dynamic. destruct (GML.map_index _ _ _) as [nDyn reg].
  destruct nDyn; [discriminate| |]; intros H; injection H as <-;
    apply quiet_eq; reflexivity.
Qed.

Lemma set_arc_dynamic_quiet (defArcDyn : string) (e : Arc) (s s' : System) :
  set_arc_dynamic defArcDyn e s = Some s' -> quiet s s'.
Proof.
  unfold set_arc_dynamic. destruct (GML.map_index _ _ _) as [eDyn reg].
  destruct eDyn; [discriminate| |]; intros H; injection H as <-;
    apply quiet_eq; reflexivity.
Qed.

Lemma copyDigraph_dyn_quiet (from : System) (defNodeDyn defArcDyn : string)
    (s s' : System) :
  copyDigraph_dyn from defNodeDyn defArcDyn s = Some s' -> quiet s s'.
Proof.
  unfold copyDigraph_dyn.
  destruct (step_all _ (NodeIt _) _) as [s1|] eqn:E1; [|discriminate].
  destruct (step_all _ (map arc_id _) s1) as [s2|] eqn:E2; [|discriminate].
  intros H. injection H as <-.
  eapply quiet_trans; [apply copyDigraph_quiet|].
  eapply quiet_trans;
    [eapply step_all_quiet; [|exact E1]; intros v; apply set_node_dynamic_quiet|].
  eapply quiet_trans;
    [eapply step_all_quiet; [|exact E2]; intros e; apply set_arc_dynamic_quiet|].
  split; [split; discriminate|]. split; reflexivity.
Qed.

Lemma node_attr_quiet (v : Node) (s s' : System) (p : GML.GML_pair) :
  GML.node_attr v s p = Some s' -> quiet s s'.
Proof.
  unfold GML.node_attr.
  repeat match goal with
         | |- context [if ?b then _ else _] => destruct b
         end;
    destruct p; try discriminate;
    try destruct (GML.map_index _ _ _);
    intros H; injection H as <-; apply quiet_eq; reflexivity.
Qed.

Lemma edge_attr_quiet (e : Arc) (s s' : System) (p : GML.GML_pair) :
  GML.edge_attr e s p = Some s' -> quiet s s'.
Proof.
  unfold GML.edge_attr.
  repeat match goal with
         | |- context [if ?b then _ else _] => destruct b
         end;
    destruct p; try discriminate;
    try destruct (GML.map_index _ _ _);
    intros H; injection H as <-; apply quiet_eq; reflexivity.
Qed.

Lemma apply_attrs_quiet {A : Type} (f : A -> System -> GML.GML_pair -> option System)
    (x : A) (l : list GML.GML_pair) (s s' : System) :
  (forall s1 s2 p, f x s1 p = Some s2 -> quiet s1 s2) ->
  GML.apply_attrs f x s l = Some s' -> quiet s s'.
Proof.
  intros Hf. revert s. induction l as [|p l IH]; intros s; cbn [GML.apply_attrs].
  - intros H. injection H as <-. apply quiet_refl.
  - destruct (f x s p) as [s1|] eqn:E; [|discriminate].
    intros H. exact (quiet_trans _ _ _ (Hf _ _ _ E) (IH _ H)).
Qed.

Lemma load_nodes_quiet (entries : list (Z * list GML.GML_pair)) (s : System)
    (id_2_node : gmap Z Node) (s' : System) (m : gmap Z Node) :
  GML.load_nodes entries s id_2_node = Some (s', m) -> quiet s s'.
Proof.
  revert s id_2_node. induction entries as [|[i attrs] rest IH]; intros s id_2_node;
    cbn [GML.load_nodes].
  - intros H. injection H as <- _. apply quiet_refl.
  - destruct (addNode "NoNodeDynamic" s) as [[v s1]|] eqn:E1; [|discriminate].
    destruct (GML.apply_attrs GML.node_attr v s1 attrs) as [s2|] eqn:E2; [|discriminate].
    intros H. eapply quiet_trans; [eapply addNode_quiet, E1|].
    eapply quiet_trans; [|eapply IH, H].
    eapply apply_attrs_quiet; [|exact E2]. intros t1 t2 p. apply node_attr_quiet.
Qed.

Lemma fix_next_key_quiet (s : System) : quiet s (GML.fix_next_key s).
Proof.
  unfold GML.fix_next_key.
  apply quiet_eq; cbn [mValidNodeIDs mValidArcIDs mNodeStates mArcStates set_mNextKey];
    [apply (fold_left_preserves mValidNodeIDs) | apply (fold_left_preserves mValidArcIDs)
     | apply (fold_left_preserves mNodeStates) | apply (fold_left_preserves mArcStates)];
    intros acc v; now destruct (_ <? _).
Qed.

Lemma load_edges_quiet (entries : list (Z * Z * list GML.GML_pair)) (s : System)
    (id_2_node : gmap Z Node) (s' : System) :
  GML.load_edges entries s id_2_node = Some s' -> quiet s s'.
Proof.
  revert s. induction entries as [|[[x y] attrs] rest IH]; intros s; cbn [GML.load_edges].
  - intros H. injection H as <-. apply quiet_refl.
  - destruct (id_2_node !! x) as [source|]; [|discriminate].
    destruct (id_2_node !! y) as [target|]; [|discriminate].
    destruct (addArc source target "NoArcDynamic" s) as [[e s1]|] eqn:E1; [|discriminate].
    destruct (GML.apply_attrs GML.edge_attr e s1 attrs) as [s2|] eqn:E2; [|discriminate].
    intros H. eapply quiet_trans; [eapply addArc_quiet, E1|].
    eapply quiet_trans; [|eapply IH, H].
    eapply apply_attrs_quiet; [|exact E2]. intros t1 t2 p. apply edge_attr_quiet.
Qed.

Lemma openFromGML_quiet (file : list GML.GML_pair) (s s' : System) :
  GML.openFromGML file s = Some s' -> quiet s s'.
Proof.
  unfold GML.openFromGML.
  destruct (GML.find_graph file) as [graph_list|]; [|discriminate].
  destruct (GML.sort_entries graph_list [] []) as [[node_entries edge_entries]|];
    [|discriminate].
  destruct (GML.load_nodes node_entries s ∅) as [[s1 id_2_node]|] eqn:E1; [|discriminate].
  destruct (GML.load_edges edge_entries (GML.fix_next_key s1) id_2_node) as [s2|] eqn:E2;
    [|discriminate].
  intros H. injection H as <-.
  eapply quiet_trans; [eapply load_nodes_quiet, E1|].
  eapply quiet_trans; [apply fix_next_key_quiet|].
  eapply quiet_trans; [eapply load_edges_quiet, E2|]. apply refreshStateIDs_quiet.
Qed.

(** No operation of a System sets a validity flag. *)
Lemma run_op_no_flag_raised (op : SystemOp) (s s' : System) :
  run_op op s = Some s' -> no_flag_raised s s'.
Proof.
  destruct op; cbn [run_op]; intros H.
  - injection H as <-. apply no_flag_raised_eq; unfold addNodeDynamic; simpl;
      now destruct (_ >? _).
  - injection H as <-. apply no_flag_raised_eq; unfold addArcDynamic; simpl;
      now destruct (_ >? _).
  - destruct (addNode dyn_name s) as [[v s1]|] eqn:E; [|discriminate].
    injection H as <-. exact (proj1 (addNode_quiet _ _ _ _ E)).
  - destruct (addNode_named nm dyn_name s) as [[v s1]|] eqn:E; [|discriminate].
    injection H as <-. destruct (addNode_named_flags _ _ _ _ _ E) as [H1 H2].
    split; [rewrite H1; discriminate | now rewrite H2].
  - destruct (addArc u v dyn_name s) as [[e s1]|] eqn:E; [|discriminate].
    injection H as <-. exact (proj1 (addArc_quiet _ _ _ _ _ _ E)).
  - destruct (addEdge u v dyn_name s) as [[r s1]|] eqn:E; [|discriminate].
    injection H as <-. exact (proj1 (addEdge_quiet _ _ _ _ _ _ E)).
  - injection H as <-. apply no_flag_raised_eq; apply eraseNode_flags.
  - injection H as <-. apply no_flag_raised_eq; apply eraseArc_flags.
  - injection H as <-. split; discriminate.
  - injection H as <-. split; discriminate.
  - injection H as <-. apply no_flag_raised_eq; apply resetKeys_flags.
  - injection H as <-. apply no_flag_raised_eq; apply refreshStateIDs_flags.
  - injection H as <-. apply no_flag_raised_eq; apply simulate_flags.
  - exact (proj1 (ringGraph_quiet _ _ _ _ _ _ _ H)).
  - exact (proj1 (randomGraph_quiet _ _ _ _ _ _ _ _ H)).
  - exact (proj1 (makeUndirected_quiet _ _ H)).
  - injection H as <-. exact (proj1 (copyDigraph_quiet _ _)).
  - exact (proj1 (copyDigraph_dyn_quiet _ _ _ _ _ H)).
  - exact (proj1 (openFromGML_quiet _ _ _ H)).
  - injection H as <-. apply no_flag_raised_eq; reflexivity.
  - injection H as <-. exact (proj1 (rnd_quiet s)).
Qed.

Lemma run_ops_no_flag_raised (ops : list SystemOp) (s s' : System) :
  run_ops ops s = Some s' -> no_flag_raised s s'.
Proof.
  revert s. induction ops as [|op ops IH]; intros s; simpl.
  - intros H. injection H as <-. apply no_flag_raised_refl.
  - destruct (run_op op s) as [s1|] eqn:E; [|discriminate].
    intros H. eapply no_flag_raised_trans.
    + eapply run_op_no_flag_raised, E.
    + apply IH, H.
Qed.

Lemma quiet_widths_nonneg (s s' : System) : quiet s s' -> widths_nonneg s -> widths_nonneg s'.
Proof. intros (_ & H1 & H2) [Hn Ha]. unfold widths_nonneg. now rewrite H1, H2. Qed.

(** The widths of a System built by the operations are never negative. *)
Lemma run_op_widths_nonneg (op : SystemOp) (s s' : System) :
  match op with OpCopySystem from => widths_nonneg from | _ => True end ->
  widths_nonneg s -> run_op op s = Some s' -> widths_nonneg s'.
Proof.
  intros Hsrc Hw. destruct op; cbn [run_op]; intros H.
  - injection H as <-. destruct Hw as [Hn Ha]. unfold widths_nonneg.
    rewrite addNodeDynamic_width.
    unfold addNodeDynamic. simpl. destruct (_ >? _); simpl; lia.
  - injection H as <-. destruct Hw as [Hn Ha]. unfold widths_nonneg.
    rewrite addArcDynamic_width.
    unfold addArcDynamic. simpl. destruct (_ >? _); simpl; lia.
  - destruct (addNode dyn_name s) as [[v s1]|] eqn:E; [|discriminate].
    injection H as <-. exact (quiet_widths_nonneg _ _ (addNode_quiet _ _ _ _ E) Hw).
  - unfold addNode_named in H.
    destruct (addNode dyn_name s) as [[v s1]|] eqn:E; [|discriminate].
    injection H as <-.
    exact (quiet_widths_nonneg _ _ (addNode_quiet _ _ _ _ E) Hw).
  - destruct (addArc u v dyn_name s) as [[e s1]|] eqn:E; [|discriminate].
    injection H as <-. exact (quiet_widths_nonneg _ _ (addArc_quiet _ _ _ _ _ _ E) Hw).
  - destruct (addEdge u v dyn_name s) as [[r s1]|] eqn:E; [|discriminate].
    injection H as <-. exact (quiet_widths_nonneg _ _ (addEdge_quiet _ _ _ _ _ _ E) Hw).
  - injection H as <-. destruct Hw as [Hn Ha]. unfold widths_nonneg, eraseNode. simpl.
    rewrite (fold_left_preserves mNodeStates), (fold_left_preserves mArcStates); auto.
  - injection H as <-. exact Hw.
  - injection H as <-. exact Hw.
  - injection H as <-. exact Hsrc.
  - injection H as <-. destruct Hw as [Hn Ha]. unfold widths_nonneg, resetKeys.
    rewrite (fold_left_preserves mNodeStates), (fold_left_preserves mArcStates); auto.
  - injection H as <-. exact (quiet_widths_nonneg _ _ (refreshStateIDs_quiet s) Hw).
  - injection H as <-. destruct Hw as [Hn Ha]. unfold widths_nonneg.
    rewrite simulate_system.
    destruct (ensure_state_ids_widths s) as [Hr1 Hr2].
    destruct sim; auto; destruct (wrong_size initial s); auto; now rewrite Hr1, Hr2.
  - exact (quiet_widths_nonneg _ _ (ringGraph_quiet _ _ _ _ _ _ _ H) Hw).
  - exact (quiet_widths_nonneg _ _ (randomGraph_quiet _ _ _ _ _ _ _ _ H) Hw).
  - exact (quiet_widths_nonneg _ _ (makeUndirected_quiet _ _ H) Hw).
  - injection H as <-. exact (quiet_widths_nonneg _ _ (copyDigraph_quiet _ _) Hw).
  - exact (quiet_widths_nonneg _ _ (copyDigraph_dyn_quiet _ _ _ _ _ H) Hw).
  - exact (quiet_widths_nonneg _ _ (openFromGML_quiet _ _ _ H) Hw).
  - injection H as <-. exact Hw.
  - injection H as <-. exact (quiet_widths_nonneg _ _ (rnd_quiet s) Hw).
Qed.

End QuietOperations.

(** What [refreshStateIDs] does for the kinds of entity flagged invalid:
    the entity at position [k] of the iteration gets the index [k]. *)
Lemma refreshStateIDs_renumbers (s : System) :
  graph_wf s ->
  (mValidNodeIDs s = false ->
   forall k v, NodeIt s !! k = Some v ->
     mNodeIDs (refreshStateIDs s) !! v = Some (Z.of_nat k))
  ∧ (mValidArcIDs s = false ->
     forall j e, ArcIt s !! j = Some e ->
       mArcIDs (refreshStateIDs s) !! arc_id e = Some (Z.of_nat j)).
Proof.
  intros Hwf. pose proof (ArcIt_Permutation s Hwf) as Hperm.
  destruct Hwf as (Hnd & Hnda & _).
  destruct (refreshStateIDs_IDs s) as [Hn Ha]. split.
  - intros Hvn k v Hk. rewrite Hn, Hvn. exact (renumber_lookup 0 _ _ k v Hnd Hk).
  - intros Hva j e Hj. rewrite Ha, Hva.
    assert (Hnda' : NoDup (map arc_id (ArcIt s))) by (now rewrite Hperm).
    assert (Hj' : map arc_id (ArcIt s) !! j = Some (arc_id e))
      by (rewrite list_lookup_fmap, Hj; reflexivity).
    exact (renumber_lookup 0 _ _ j (arc_id e) Hnda' Hj').
Qed.

(** C10: a structural mutation (addNode, addArc, clear, a copy into the
    System) leaves [validStateIDs] false.  [refreshStateIDs] recomputes
    the dense numbering of each kind of entity flagged invalid (the
    entity at position [k] of the iteration gets the index [k]) and leaves
    both flags as they are.  So once [validStateIDs] is false it is false
    after every further run of operations of the System, and every later
    [simulate] call of one of the four simulators, given a vector of the
    right size, runs [refreshStateIDs] again: the System it leaves is the
    renumbered one. *)
Theorem invalid_state_ids_stay_invalid
    `{UD : UserDynamics} `{LM : Lemon} `{OD : Odeint} `{TX : GML.Text} :
  (forall dyn_name s v s', addNode dyn_name s = Some (v, s') -> validStateIDs s' = false)
  ∧ (forall u v dyn_name s e s', addArc u v dyn_name s = Some (e, s') ->
       validStateIDs s' = false)
  ∧ (forall s, validStateIDs (clear s) = false)
  ∧ (forall from s, validStateIDs (copySystem from s) = false)
  ∧ (forall s, mValidNodeIDs (refreshStateIDs s) = mValidNodeIDs s
               ∧ mValidArcIDs (refreshStateIDs s) = mValidArcIDs s)
  ∧ (forall s, graph_wf s ->
       (mValidNodeIDs s = false ->
        forall k v, NodeIt s !! k = Some v ->
          mNodeIDs (refreshStateIDs s) !! v = Some (Z.of_nat k))
       ∧ (mValidArcIDs s = false ->
          forall j e, ArcIt s !! j = Some e ->
            mArcIDs (refreshStateIDs s) !! arc_id e = Some (Z.of_nat j)))
  ∧ (forall ops s s', validStateIDs s = false -> run_ops ops s = Some s' ->
       validStateIDs s' = false)
  ∧ (forall sim s tMax initial,
       sim ≠ SimulateBase -> validStateIDs s = false -> wrong_size initial s = false ->
       fst (fst (simulate sim s tMax initial)) = refreshStateIDs s
       ∧ validStateIDs (fst (fst (simulate sim s tMax initial))) = false).
Proof.
  split; [|split; [|split; [|split; [|split; [|split; [|split]]]]]].
  - intros dyn_name s v s' H. unfold validStateIDs.
    now rewrite (proj1 (addNode_flags _ _ _ _ H)).
  - intros u v dyn_name s e s' H. unfold validStateIDs.
    rewrite (proj2 (addArc_flags _ _ _ _ _ _ H)). apply andb_false_r.
  - reflexivity.
  - reflexivity.
  - apply refreshStateIDs_flags.
  - apply refreshStateIDs_renumbers.
  - intros ops s s' Hs Hrun.
    eapply no_flag_raised_invalid; [eapply run_ops_no_flag_raised, Hrun | exact Hs].
  - intros sim s tMax initial Hsim Hs Hsize.
    assert (E : fst (fst (simulate sim s tMax initial)) = refreshStateIDs s).
    { rewrite simulate_system. unfold ensure_state_ids. rewrite Hsize, Hs. simpl.
      destruct sim; [contradiction|reflexivity..]. }
    split; [exact E|]. rewrite E. unfold validStateIDs.
    destruct (refreshStateIDs_flags s) as [-> ->]. exact Hs.
Qed.

(** An instance of C10: on the pair of oscillators the indices are
    refreshed, a ring of three nodes is built and made undirected, which
    adds the arcs 3, 4 and 5 without an index; a map simulation is run,
    after which the arc 5, the first of the iteration, has the index 0 and
    the arc 0 the index 1; and a saved System is loaded.
    [validStateIDs] is false at the end. *)
Lemma invalid_state_ids_stay_invalid_witness :
  let ops := [OpRefreshStateIDs; OpRingGraph 3 1 "NoNodeDynamic" "NoArcDynamic" false;
              OpMakeUndirected] in
  exists s1 s2 s3,
    @run_ops Examples.Oscillators Examples.ListDigraph Examples.single_sample
      StreamExamples.whole_part ops MoreExamples.oscillator_pair = Some s1
    ∧ mArcIDs s1 !! 5%nat = None ∧ mArcIDs s1 !! 0%nat = Some 0
    ∧ @run_ops Examples.Oscillators Examples.ListDigraph Examples.single_sample
        StreamExamples.whole_part [OpSimulate SimulateMap 3 (repeat 0%Q 12)] s1 = Some s2
    ∧ mArcIDs s2 !! 5%nat = Some 0 ∧ mArcIDs s2 !! 0%nat = Some 1
    ∧ @run_ops Examples.Oscillators Examples.ListDigraph Examples.single_sample
        StreamExamples.whole_part
        [OpOpenFromGML (@GML.saveToGML Examples.Oscillators StreamExamples.whole_part
                          Examples.two_nodes)] s2 = Some s3
    ∧ validStateIDs s3 = false.
Proof.
  cbv zeta.
  destruct (@invalid_state_ids_stay_invalid Examples.Oscillators Examples.ListDigraph
              Examples.single_sample StreamExamples.whole_part)
    as (_ & _ & _ & _ & _ & _ & H & _).
  eexists. eexists. eexists. split; [vm_compute; reflexivity|].
  split; [vm_compute; reflexivity|]. split; [vm_compute; reflexivity|].
  split; [vm_compute; reflexivity|].
  split; [vm_compute; reflexivity|]. split; [vm_compute; reflexivity|].
  split; [vm_compute; reflexivity|].
  eapply (H [OpRefreshStateIDs; OpRingGraph 3 1 "NoNodeDynamic" "NoArcDynamic" false;
             OpMakeUndirected; OpSimulate SimulateMap 3 (repeat 0%Q 12);
             OpOpenFromGML (@GML.saveToGML Examples.Oscillators StreamExamples.whole_part
                              Examples.two_nodes)]
            MoreExamples.oscillator_pair).
  - vm_compute. reflexivity.
  - vm_compute. reflexivity.
Defined.



(** ** Keys *)

Lemma nodeData_set_mNextKey (z : Z) (s : System) (u : Node) :
  nodeData (set_mNextKey z s) u = nodeData s u.
Proof. reflexivity. Qed.

(** The loop of [resetKeys], started with the next key [mNextKey acc]. *)
Lemma resetKeys_loop (l : list Node) (acc : System) :
  let step := fun acc v =>
    let d := nodeData acc v in
    set_mNextKey (mNextKey acc + 1)
      (set_nodeData v
         (mkNodeData (mNextKey acc) (name d) (position d) (properties d)
            (dynamic d) (dynamicParams d)) acc) in
  NoDup l ->
  nodes (fold_left step l acc) = nodes acc
  ∧ mNextKey (fold_left step l acc) = mNextKey acc + Z.of_nat (length l)
  ∧ (forall u, u ∉ l -> nodeData (fold_left step l acc) u = nodeData acc u)
  ∧ (forall k v, l !! k = Some v ->
       let d := nodeData acc v in
       nodeData (fold_left step l acc) v
       = mkNodeData (mNextKey acc + Z.of_nat k) (name d) (position d) (properties d)
           (dynamic d) (dynamicParams d)).
Proof.
  intros step Hnd. revert acc. induction Hnd as [|x l Hx Hnd IH]; intros acc.
  - simpl. repeat split; auto; try lia. intros k v Hk. discriminate.
  - cbn [fold_left]. destruct (IH (step acc x)) as (Hn & Hk & Hout & Hin).
    assert (Hdata : forall u, nodeData (step acc x) u
                     = if decide (x = u)
                       then let d := nodeData acc x in
                            mkNodeData (mNextKey acc) (name d) (position d) (properties d)
                              (dynamic d) (dynamicParams d)
                       else nodeData acc u).
    { intros u. unfold step. rewrite nodeData_set_mNextKey. apply nodeData_set_nodeData. }
    repeat split.
    + rewrite Hn. reflexivity.
    + rewrite Hk. unfold step. simpl. lia.
    + intros u Hu. apply not_elem_of_cons in Hu as [Hne Hu].
      rewrite (Hout u Hu), Hdata. destruct (decide (x = u)); [congruence|reflexivity].
    + intros k v Hkv. destruct k as [|k]; simpl in Hkv.
      * injection Hkv as ->. rewrite (Hout v Hx), Hdata.
        destruct (decide (v = v)); [|contradiction]. simpl. now rewrite Z.add_0_r.
      * rewrite (Hin k v Hkv). rewrite Hdata.
        destruct (decide (x = v)) as [->|Hne].
        -- exfalso. apply Hx. eapply list_elem_of_lookup_2, Hkv.
        -- simpl. f_equal. unfold step. simpl. lia.
Qed.

(** X3: [resetKeys] gives the nodes the keys 0, 1, 2, ... in iteration
    order, leaves the rest of their records alone and sets the next key
    to the number of nodes. *)
Theorem resetKeys_numbers_the_nodes (s : System) (k : nat) (v : Node) :
  NoDup (nodes s) -> NodeIt s !! k = Some v ->
  nodeData (resetKeys s) v
  = mkNodeData (Z.of_nat k) (name (nodeData s v)) (position (nodeData s v))
      (properties (nodeData s v)) (dynamic (nodeData s v)) (dynamicParams (nodeData s v))
  ∧ mNextKey (resetKeys s) = countNodes s
  ∧ NodeIt (resetKeys s) = NodeIt s.
Proof.
  intros Hnd Hk. unfold resetKeys, NodeIt in *.
  destruct (resetKeys_loop (nodes s) (set_mNextKey 0 s) Hnd) as (Hn & Hnk & _ & Hin).
  repeat split.
  - exact (Hin k v Hk).
  - etransitivity; [exact Hnk|]. simpl. unfold countNodes. lia.
  - exact Hn.
Qed.

(** An instance of X3: the keys 1 and 0 of the two nodes become 0 and 1. *)
Lemma resetKeys_numbers_the_nodes_witness :
  key (nodeData (resetKeys Examples.two_nodes) 1%nat) = 0
  ∧ key (nodeData (resetKeys Examples.two_nodes) 0%nat) = 1
  ∧ mNextKey (resetKeys Examples.two_nodes) = 2.
Proof.
  assert (Hnd : NoDup (nodes Examples.two_nodes))
    by (apply (bool_decide_unpack _); vm_compute; exact I).
  destruct (resetKeys_numbers_the_nodes Examples.two_nodes 0 1%nat Hnd eq_refl)
    as (H1 & H2 & _).
  destruct (resetKeys_numbers_the_nodes Examples.two_nodes 1 0%nat Hnd eq_refl)
    as (H3 & _ & _).
  rewrite H1, H3, H2. repeat split.
Defined.

(** ** Copies *)





Section CopyProps.
Context `{LM : Lemon}.




End CopyProps.



(** The cases of a membership in a list that is written out. *)
Ltac elem_cases H :=
  repeat match type of H with
         | _ ∈ _ :: _ => apply elem_of_cons in H as [H|H]
         | _ ∈ [] => inversion H
         end.


(** ** Adding nodes *)

Section AddNode.
Context `{UD : UserDynamics}.

Lemma nd_setDefaultParams_nodeData (p : NodeDynamicPtr) (v : Node) (s : System) (u : Node) :
  nodeData (nd_setDefaultParams p v s) u
  = if decide (v = u)
    then let d := nodeData s v in
         mkNodeData (key d) (name d) (position d) (properties d) (dynamic d)
           (dynamicParams d
            ++ match p with UserNodeDynamic o => node_setDefaultParams o v s | _ => [] end)
    else nodeData s u.
Proof.
  destruct p; simpl.
  - destruct (decide (v = u)) as [->|]; [|reflexivity].
    rewrite app_nil_r. now destruct (nodeData s u).
  - destruct (decide (v = u)) as [->|]; [|reflexivity].
    rewrite app_nil_r. now destruct (nodeData s u).
  - apply nodeData_set_nodeData.
Qed.

Lemma addNode_effect (dyn_name : string) (s : System) (v : Node) (s' : System) :
  addNode dyn_name s = Some (v, s') ->
  v = next_node s
  ∧ nodes s' = v :: nodes s
  ∧ next_node s' = S v
  ∧ mNextKey s' = mNextKey s + 1
  ∧ key (nodeData s' v) = mNextKey s
  ∧ mNodeDynamics s !! dyn_name = Some (dynamic (nodeData s' v))
  ∧ (forall u, u ≠ v -> nodeData s' u = nodeData s u).
Proof.
  unfold addNode. destruct (mNodeDynamics s !! dyn_name) as [dyn|] eqn:E; [|discriminate].
  simpl. intros H. injection H as <- <-.
  match goal with
  | |- context [nd_setDefaultParams dyn ?w ?x] => set (s3 := x)
  end.
  assert (Hg : nodes (nd_setDefaultParams dyn (next_node s) s3) = nodes s3
               ∧ next_node (nd_setDefaultParams dyn (next_node s) s3) = next_node s3
               ∧ mNextKey (nd_setDefaultParams dyn (next_node s) s3) = mNextKey s3)
    by (destruct dyn; simpl; auto).
  destruct Hg as (Hg1 & Hg2 & Hg3).
  assert (Hd : forall u, nodeData (set_mValidNodeIDs false
                                     (nd_setDefaultParams dyn (next_node s) s3)) u
                         = nodeData (nd_setDefaultParams dyn (next_node s) s3) u)
    by reflexivity.
  assert (Hs3 : forall u, nodeData s3 u
                          = if decide (next_node s = u)
                            then mkNodeData (mNextKey s) (name (nodeData s (next_node s)))
                                   (mkPosition 0 0 0)
                                   (properties (nodeData s (next_node s))) dyn []
                            else nodeData s u).
  { intros u. subst s3. rewrite nodeData_set_mNextKey, nodeData_set_nodeData.
    repeat case_decide; congruence || reflexivity. }
  split; [reflexivity|].
  split; [etransitivity; [exact Hg1|reflexivity]|].
  split; [etransitivity; [exact Hg2|reflexivity]|].
  split; [etransitivity; [exact Hg3|reflexivity]|].
  rewrite !Hd, !nd_setDefaultParams_nodeData.
  case_decide; [|contradiction].
  cbn zeta. rewrite Hs3.
  case_decide; [|contradiction].
  split; [reflexivity|]. split; [reflexivity|].
  intros u Hu. rewrite Hd, nd_setDefaultParams_nodeData.
  case_decide; [congruence|].
  rewrite Hs3. case_decide; [congruence|reflexivity].
Qed.

End AddNode.




(** ** The ring generator *)

Section Ring.
Context `{UD : UserDynamics}.

Lemma addArc_effect (u v : Node) (dyn_name : string) (s : System) (e : Arc) (s' : System) :
  addArc u v dyn_name s = Some (e, s') ->
  nodes s' = nodes s
  ∧ arcs s' = mkArcRec e u v :: arcs s
  ∧ mArcDynamics s' = mArcDynamics s
  ∧ mNextKey s' = mNextKey s.
Proof.
  unfold addArc. destruct (mArcDynamics s !! dyn_name) as [dyn|]; [|discriminate].
  simpl. intros H. injection H as <- <-. destruct dyn; simpl; auto.
Qed.



Lemma addNode_rest (dyn_name : string) (s : System) (v : Node) (s' : System) :
  addNode dyn_name s = Some (v, s') ->
  arcs s' = arcs s ∧ mNodeDynamics s' = mNodeDynamics s ∧ mArcDynamics s' = mArcDynamics s.
Proof.
  unfold addNode. destruct (mNodeDynamics s !! dyn_name) as [dyn|]; [|discriminate].
  simpl. intros H. injection H as <- <-. destruct dyn; simpl; auto.
Qed.




End Ring.



(** ** The samples of a simulation *)

Lemma ObserverPassThrough_app (sys : System) (l1 l2 : list (State * Q)) :
  ObserverPassThrough sys (l1 ++ l2)
  = ObserverPassThrough sys l1 ++ ObserverPassThrough sys l2.
Proof. unfold ObserverPassThrough. apply flat_map_app. Qed.

Lemma observed_ObserverPassThrough (sys : System) (l : list (State * Q)) :
  observed (ObserverPassThrough sys l) = (map fst l, map snd l).
Proof.
  induction l as [|[x t] l IH]; [reflexivity|].
  change (ObserverPassThrough sys ((x, t) :: l))
    with (sample sys x t ++ ObserverPassThrough sys l).
  rewrite observed_app, IH. reflexivity.
Qed.

Lemma logged_ObserverPassThrough (sys : System) (l : list (State * Q)) :
  logged (ObserverPassThrough sys l) = flat_map (sample_log sys) (map fst l).
Proof.
  induction l as [|[x t] l IH]; [reflexivity|].
  change (ObserverPassThrough sys ((x, t) :: l))
    with (sample sys x t ++ ObserverPassThrough sys l).
  unfold logged in *. rewrite flat_map_app, IH. reflexivity.
Qed.

Lemma zip_fst_snd {A B : Type} (l : list (A * B)) : zip (map fst l) (map snd l) = l.
Proof. induction l as [|[x y] l IH]; simpl; [reflexivity|]. now rewrite IH. Qed.

Lemma parity_step (t : Z) :
  0 <= t -> (Z.rem (t + 1) 2 =? 0) = negb (Z.rem t 2 =? 0).
Proof.
  intros Ht. rewrite !Z.rem_mod_nonneg by lia.
  destruct (Z.eqb_spec ((t + 1) mod 2) 0), (Z.eqb_spec (t mod 2) 0); simpl; try reflexivity;
    pose proof (Z.mod_pos_bound t 2); pose proof (Z.mod_pos_bound (t + 1) 2);
    pose proof (Z.div_mod t 2); pose proof (Z.div_mod (t + 1) 2); lia.
Qed.

Section MapSamples.
Context `{UD : UserDynamics}.

(** The loop of [SimulateMap::simulate]: it samples the times
    [t, ..., t+n-1], each with the four calls of a sample, and the buffer
    picked at the end is the one written last. *)
Lemma map_steps_samples (sys : System) (n : nat) (t : Z) (y1 y2 : State)
    (tr : list SimEvent) :
  0 <= t ->
  exists l,
    fst (fst (fst (map_steps n t sys y1 y2 tr))) = t + Z.of_nat n
    ∧ snd (map_steps n t sys y1 y2 tr) = tr ++ ObserverPassThrough sys l
    ∧ map snd l = map (fun k => inject_Z (t + Z.of_nat k)) (seq 0 n)
    ∧ (n ≠ 0%nat ->
       last (map fst l)
       = Some (if Z.rem (fst (fst (fst (map_steps n t sys y1 y2 tr)))) 2 =? 0
               then snd (fst (fst (map_steps n t sys y1 y2 tr)))
               else snd (fst (map_steps n t sys y1 y2 tr)))).
Proof.
  revert t y1 y2 tr. induction n as [|n IH]; intros t y1 y2 tr Ht.
  - exists []. simpl. rewrite Z.add_0_r, app_nil_r. repeat split; auto. contradiction.
  - cbn [map_steps].
    assert (Hseq : map (fun k => inject_Z (t + Z.of_nat k)) (seq 0 (S n))
                   = inject_Z t
                     :: map (fun k => inject_Z (t + 1 + Z.of_nat k)) (seq 0 n)).
    { cbn [seq map]. rewrite Z.add_0_r. f_equal. rewrite <- seq_shift, map_map.
      apply map_ext. intros k. f_equal. lia. }
    pose proof (parity_step t Ht) as Hpar.
    destruct (Z.rem t 2 =? 0) eqn:Et.
    + set (y2' := operator_call sys y1 y2 (inject_Z t)).
      destruct (IH (t + 1) y1 y2' (tr ++ sample sys y2' (inject_Z t))) as
        (l & H1 & H2 & H3 & H4); [lia|].
      exists ((y2', inject_Z t) :: l).
      split; [rewrite H1; lia|]. split; [rewrite H2, <- app_assoc; reflexivity|].
      split; [rewrite Hseq; cbn [map]; now rewrite H3|].
      intros _. cbn [map fst]. destruct n as [|n].
      * destruct l; [|discriminate H3]. cbn [map_steps fst snd map last].
        rewrite Hpar. reflexivity.
      * rewrite <- H4 by discriminate. destruct l; [discriminate H3|]. reflexivity.
    + set (y1' := operator_call sys y2 y1 (inject_Z t)).
      destruct (IH (t + 1) y1' y2 (tr ++ sample sys y1' (inject_Z t))) as
        (l & H1 & H2 & H3 & H4); [lia|].
      exists ((y1', inject_Z t) :: l).
      split; [rewrite H1; lia|]. split; [rewrite H2, <- app_assoc; reflexivity|].
      split; [rewrite Hseq; cbn [map]; now rewrite H3|].
      intros _. cbn [map fst]. destruct n as [|n].
      * destruct l; [|discriminate H3]. cbn [map_steps fst snd map last].
        rewrite Hpar. reflexivity.
      * rewrite <- H4 by discriminate. destruct l; [discriminate H3|]. reflexivity.
Qed.

End MapSamples.

Section SamplesOfSimulators.
Context `{UD : UserDynamics} `{OD : Odeint}.

(** The events of a discrete-map simulation with an input of the right
    size: the sample at time 0 and the samples of the loop. *)
Lemma SimulateMap_simulate_samples (sys : System) (tMax : Q) (initial : State) :
  size initial = totalStates sys ->
  exists l,
    snd (SimulateMap_simulate sys tMax initial)
    = ObserverPassThrough (ensure_state_ids sys) ((initial, 0%Q) :: l)
    ∧ map snd l
      = map (fun k => inject_Z (1 + Z.of_nat k)) (seq 0 (Z.to_nat (trunc tMax)))
    ∧ last (map fst ((initial, 0%Q) :: l))
      = Some (snd (fst (SimulateMap_simulate sys tMax initial))).
Proof.
  intros Hsize. apply wrong_size_false in Hsize.
  unfold SimulateMap_simulate. rewrite Hsize.
  destruct (map_steps_samples (ensure_state_ids sys) (Z.to_nat (trunc tMax)) 1
              initial initial (sample (ensure_state_ids sys) initial 0))
    as (l & H1 & H2 & H3 & H4); [lia|].
  exists l.
  destruct (map_steps _ _ _ _ _ _) as [[[t y1] y2] tr] eqn:E.
  cbn [fst snd] in *. split; [|split].
  - rewrite H2. reflexivity.
  - exact H3.
  - destruct (Z.to_nat (trunc tMax)) as [|n] eqn:En.
    + destruct l; [|discriminate H3]. cbn [map_steps] in E.
      injection E as <- <- <- <-. reflexivity.
    + specialize (H4 ltac:(discriminate)). rewrite <- H4.
      destruct l; [discriminate H3|]. reflexivity.
Qed.

(** Every simulator that runs emits whole samples only. *)
Lemma simulate_emits_samples (sim : Simulate) (sys : System) (tMax : Q) (initial : State) :
  sim ≠ SimulateBase -> size initial = totalStates sys ->
  exists l, snd (simulate sim sys tMax initial)
            = ObserverPassThrough (ensure_state_ids sys) l.
Proof.
  intros Hsim Hsize. destruct sim; [contradiction| | | |]; cbn [simulate].
  - destruct (SimulateMap_simulate_samples sys tMax initial Hsize) as (l & H & _).
    eexists. exact H.
  - apply wrong_size_false in Hsize. unfold SimulateOdeFixed_simulate. rewrite Hsize.
    destruct (integrate_const _ _ _ _ _ _) as [l final]. exists l. reflexivity.
  - apply wrong_size_false in Hsize. unfold SimulateOdeConst_simulate. rewrite Hsize.
    destruct (integrate_const _ _ _ _ _ _) as [l final]. exists l. reflexivity.
  - apply wrong_size_false in Hsize. unfold SimulateOdeAdaptive_simulate. rewrite Hsize.
    destruct (integrate_adaptive _ _ _ _ _ _) as [l final]. exists l. reflexivity.
Qed.

End SamplesOfSimulators.

(** X8: whichever simulator runs (discrete map or one of the three ODE
    simulators) on an input of the right size, its events are whole
    samples and nothing else: for each state the observer is handed, in
    order, the change log gets [newState] with the System after the
    state-index check and that state, [endStep (SIM_STEP)] and [commit],
    and then the observer is called; no line goes to [cerr]. *)
Theorem simulate_logs_every_sample `{UD : UserDynamics} `{OD : Odeint}
    (sim : Simulate) (sys : System) (tMax : Q) (initial : State) :
  sim ≠ SimulateBase -> size initial = totalStates sys ->
  snd (simulate sim sys tMax initial)
  = ObserverPassThrough (ensure_state_ids sys)
      (zip (fst (observed (snd (simulate sim sys tMax initial))))
           (snd (observed (snd (simulate sim sys tMax initial)))))
  ∧ logged (snd (simulate sim sys tMax initial))
    = flat_map (sample_log (ensure_state_ids sys))
        (fst (observed (snd (simulate sim sys tMax initial)))).
Proof.
  intros Hsim Hsize.
  destruct (simulate_emits_samples sim sys tMax initial Hsim Hsize) as (l & ->).
  rewrite observed_ObserverPassThrough, logged_ObserverPassThrough. cbn [fst snd].
  rewrite zip_fst_snd. split; reflexivity.
Qed.

Lemma simulate_logs_every_sample_witness :
  let sim := SimulateOdeFixed RK_4 (1 # 10) in
  let r := @simulate Examples.Oscillators Examples.single_sample sim
             MoreExamples.oscillator_pair 1 [1; 2; 3; 4; 5]%Q in
  logged (snd r)
  = [LogNewState (refreshStateIDs MoreExamples.oscillator_pair) [1; 2; 3; 4; 5]%Q;
     LogEndStep SIM_STEP; LogCommit].
Proof.
  cbv zeta.
  destruct (@simulate_logs_every_sample Examples.Oscillators Examples.single_sample
              (SimulateOdeFixed RK_4 (1 # 10)) MoreExamples.oscillator_pair 1
              [1; 2; 3; 4; 5]%Q) as [_ H].
  - discriminate.
  - vm_compute. reflexivity.
  - rewrite H. vm_compute. reflexivity.
Defined.

(** X9: on a System whose dynamics pointers are bound, a discrete-map
    simulation with an input of the right size and [(int) tMax] below
    [INT_MAX] calls the observer at the times 0, 1, ..., [(int) tMax] and
    at no other time; below [tMax = 1] (negative values included) that is
    the one call at time 0.  (At [(int) tMax = INT_MAX] the test of the
    loop cannot fail and its [int] counter overflows; a call through a
    null dynamics pointer is undefined.) *)
Theorem SimulateMap_sample_times `{UD : UserDynamics}
    (sys : System) (tMax : Q) (initial : State) :
  dynamics_bound sys -> trunc tMax < INT_MAX ->
  size initial = totalStates sys ->
  snd (observed (snd (SimulateMap_simulate sys tMax initial)))
  = unit_times (Z.to_nat (trunc tMax)).
Proof.
  intros _ _ Hsize.
  destruct (SimulateMap_simulate_samples sys tMax initial Hsize) as (l & -> & H & _).
  rewrite observed_ObserverPassThrough. cbn [snd map]. rewrite H.
  unfold unit_times. cbn [seq map]. f_equal.
  rewrite <- seq_shift, map_map. apply map_ext. intros k. f_equal. lia.
Qed.

(** The dynamics pointers of the pair of oscillators are bound. *)
Lemma oscillator_pair_bound : dynamics_bound MoreExamples.oscillator_pair.
Proof.
  split.
  - intros v Hv. change (v ∈ [1%nat; 0%nat]) in Hv.
    elem_cases Hv; subst; vm_compute; discriminate.
  - intros e He. change (e ∈ [mkArcRec 0%nat 1%nat 0%nat]) in He.
    elem_cases He; subst; vm_compute; discriminate.
Qed.

Lemma SimulateMap_sample_times_witness :
  snd (observed (snd (@SimulateMap_simulate Examples.Oscillators
                        MoreExamples.oscillator_pair (5 # 2) [1; 2; 3; 4; 5]%Q)))
  = [0; 1; 2]%Q.
Proof.
  rewrite (@SimulateMap_sample_times Examples.Oscillators
             MoreExamples.oscillator_pair (5 # 2) [1; 2; 3; 4; 5]%Q).
  - vm_compute. reflexivity.
  - exact oscillator_pair_bound.
  - reflexivity.
  - vm_compute. reflexivity.
Defined.

(** X10: after a discrete-map simulation with an input of the right size
    the vector [initial] holds the state the observer was handed last;
    when [(int) tMax] is below 1 no step is made and the vector is
    unchanged. *)
Theorem SimulateMap_returns_last_sample `{UD : UserDynamics}
    (sys : System) (tMax : Q) (initial : State) :
  size initial = totalStates sys ->
  last (fst (observed (snd (SimulateMap_simulate sys tMax initial))))
  = Some (snd (fst (SimulateMap_simulate sys tMax initial)))
  ∧ (trunc tMax < 1 -> snd (fst (SimulateMap_simulate sys tMax initial)) = initial).
Proof.
  intros Hsize.
  destruct (SimulateMap_simulate_samples sys tMax initial Hsize) as (l & Htr & Ht & Hl).
  split.
  - rewrite Htr, observed_ObserverPassThrough. exact Hl.
  - intros Hlt. replace (Z.to_nat (trunc tMax)) with 0%nat in Ht by lia.
    destruct l; [|discriminate Ht]. cbn in Hl. congruence.
Qed.

Lemma SimulateMap_returns_last_sample_witness :
  let r := @SimulateMap_simulate Examples.Oscillators
             MoreExamples.oscillator_pair (1 # 2) [1; 2; 3; 4; 5]%Q in
  last (fst (observed (snd r))) = Some (snd (fst r))
  ∧ snd (fst r) = [1; 2; 3; 4; 5]%Q.
Proof.
  cbv zeta.
  destruct (@SimulateMap_returns_last_sample Examples.Oscillators
              MoreExamples.oscillator_pair (1 # 2) [1; 2; 3; 4; 5]%Q) as [H1 H2].
  - vm_compute. reflexivity.
  - split; [exact H1|]. apply H2. vm_compute. reflexivity.
Defined.

(** ** The change log written to a stream *)

Lemma append_assoc (s1 s2 s3 : string) :
  String.append (String.append s1 s2) s3 = String.append s1 (String.append s2 s3).
Proof.
  induction s1 as [|c s1 IH]; [reflexivity|].
  change (String c (String.append (String.append s1 s2) s3)
          = String c (String.append s1 (String.append s2 s3))).
  now rewrite IH.
Qed.

Lemma append_empty (s : string) : String.append s "" = s.
Proof.
  induction s as [|c s IH]; [reflexivity|].
  change (String c (String.append s "") = String c s). now rewrite IH.
Qed.

Section StreamProps.
Context `{TX : GML.Text}.

Import ChangeLogToStream.

Lemma calls_app (cs1 cs2 : list LogCall) (l : t) :
  calls (cs1 ++ cs2) l
  = match calls cs1 l with Some l1 => calls cs2 l1 | None => None end.
Proof.
  revert l. induction cs1 as [|c cs1 IH]; intros l; [reflexivity|].
  cbn [calls app]. destruct (call c l); [apply IH | reflexivity].
Qed.

(** Calls that write records leave the stream alone and append their
    records to the buffer, in the order of the calls. *)
Lemma calls_records (cs : list LogCall) (txt : string) (l : t) :
  concat_records (map record_text cs) = Some txt ->
  calls cs l = Some (mk (mOut l) (String.append (buffer l) txt)).
Proof.
  revert txt l. induction cs as [|c cs IH]; intros txt l H.
  - injection H as <-. rewrite append_empty. destruct l; reflexivity.
  - cbn [map concat_records] in H.
    destruct (record_text c) as [r|] eqn:Er; [|discriminate H].
    destruct (concat_records (map record_text cs)) as [rest|] eqn:Erest; [|discriminate H].
    injection H as <-. cbn [calls].
    assert (Hcall : call c l = Some (put r l)).
    { unfold call. destruct c; try (rewrite Er; reflexivity); discriminate Er. }
    rewrite Hcall, (IH rest (put r l) eq_refl). cbn [put mOut buffer].
    now rewrite append_assoc.
Qed.

(** Record calls never touch the stream, defined or not. *)
Lemma calls_records_mOut (cs : list LogCall) (l l1 : t) :
  forallb is_record cs = true -> calls cs l = Some l1 -> mOut l1 = mOut l.
Proof.
  revert l. induction cs as [|c cs IH]; intros l Hrec H.
  - injection H as <-. reflexivity.
  - cbn [forallb] in Hrec. apply andb_true_iff in Hrec as [Hc Hrec].
    cbn [calls] in H. destruct (call c l) as [l2|] eqn:Ec; [|discriminate H].
    rewrite (IH l2 Hrec H).
    unfold call in Ec. destruct c; try discriminate Hc;
      destruct (record_text _); try discriminate Ec; injection Ec as <-; reflexivity.
Qed.

End StreamProps.

(** X11: what a [ChangeLogToStream] has buffered is dropped by
    [rollback]: after any record calls (node, arc, update, state and
    end-of-step records) that return, a rollback leaves the output stream
    as it was before them and the buffer empty, so the calls that follow
    behave as if the dropped ones were never made. *)
Theorem rollback_drops_the_buffered_records `{TX : GML.Text}
    (cs rest : list LogCall) (l l1 : ChangeLogToStream.t) :
  forallb is_record cs = true ->
  ChangeLogToStream.calls cs l = Some l1 ->
  ChangeLogToStream.calls (cs ++ LogRollback :: rest) l
  = ChangeLogToStream.calls rest (ChangeLogToStream.mk (ChangeLogToStream.mOut l) "").
Proof.
  intros Hrec H. rewrite calls_app, H. cbn [ChangeLogToStream.calls ChangeLogToStream.call].
  unfold ChangeLogToStream.rollback. now rewrite (calls_records_mOut cs l l1 Hrec H).
Qed.

(** X12: the records of a [ChangeLogToStream] reach the output stream at
    [commit] and not before: record calls only extend the buffer, in the
    order of the calls; the commit appends the whole buffer to the stream
    and empties it, and a second commit writes nothing more. *)
Theorem commit_writes_the_buffered_records `{TX : GML.Text}
    (cs : list LogCall) (txt : string) (l : ChangeLogToStream.t) :
  ChangeLogToStream.concat_records (map ChangeLogToStream.record_text cs) = Some txt ->
  ChangeLogToStream.calls cs l
  = Some (ChangeLogToStream.mk (ChangeLogToStream.mOut l)
            (String.append (ChangeLogToStream.buffer l) txt))
  ∧ ChangeLogToStream.calls (cs ++ [LogCommit]) l
    = Some (ChangeLogToStream.mk
              (String.append (ChangeLogToStream.mOut l)
                 (String.append (ChangeLogToStream.buffer l) txt)) "")
  ∧ ChangeLogToStream.calls (cs ++ [LogCommit; LogCommit]) l
    = ChangeLogToStream.calls (cs ++ [LogCommit]) l.
Proof.
  intros H. pose proof (calls_records cs txt l H) as Hcs.
  split; [exact Hcs|]. rewrite !calls_app, Hcs. split; [reflexivity|].
  cbn [ChangeLogToStream.calls ChangeLogToStream.call].
  unfold ChangeLogToStream.commit, ChangeLogToStream.rollback.
  cbn [ChangeLogToStream.mOut ChangeLogToStream.buffer].
  now rewrite append_empty.
Qed.

Lemma rollback_drops_the_buffered_records_witness :
  @ChangeLogToStream.calls StreamExamples.whole_part
    ([LogAddNode Examples.two_nodes 1%nat; LogEndStep EVO_STEP]
     ++ LogRollback :: [LogAddNode Examples.two_nodes 0%nat; LogCommit])
    (ChangeLogToStream.mk "" "")
  = Some (ChangeLogToStream.mk (String.append "N+,0" ChangeLogToStream.endl) "").
Proof.
  rewrite (@rollback_drops_the_buffered_records StreamExamples.whole_part
             [LogAddNode Examples.two_nodes 1%nat; LogEndStep EVO_STEP]
             [LogAddNode Examples.two_nodes 0%nat; LogCommit]
             (ChangeLogToStream.mk "" "")
             (ChangeLogToStream.mk ""
                (String.append "N+,1"
                   (String.append ChangeLogToStream.endl
                      (String.append "--" ChangeLogToStream.endl))))).
  - vm_compute. reflexivity.
  - vm_compute. reflexivity.
  - vm_compute. reflexivity.
Defined.

Lemma commit_writes_the_buffered_records_witness :
  @ChangeLogToStream.calls StreamExamples.whole_part
    ([LogNewState (refreshStateIDs MoreExamples.oscillator_pair) [1; 2; 3; 4; 5]%Q;
      LogEndStep SIM_STEP] ++ [LogCommit])
    (ChangeLogToStream.mk "" "")
  = Some (ChangeLogToStream.mk
            (String.append "NS,1,1,2"
               (String.append ChangeLogToStream.endl
                  (String.append "NS,0,3,4"
                     (String.append ChangeLogToStream.endl
                        (String.append "ES,1,0,5"
                           (String.append ChangeLogToStream.endl
                              (String.append "-" ChangeLogToStream.endl))))))) "").
Proof.
  destruct (@commit_writes_the_buffered_records StreamExamples.whole_part
              [LogNewState (refreshStateIDs MoreExamples.oscillator_pair) [1; 2; 3; 4; 5]%Q;
               LogEndStep SIM_STEP]
              (String.append "NS,1,1,2"
                 (String.append ChangeLogToStream.endl
                    (String.append "NS,0,3,4"
                       (String.append ChangeLogToStream.endl
                          (String.append "ES,1,0,5"
                             (String.append ChangeLogToStream.endl
                                (String.append "-" ChangeLogToStream.endl)))))))
              (ChangeLogToStream.mk "" "")) as (_ & H & _).
  - vm_compute. reflexivity.
  - rewrite H. vm_compute. reflexivity.
Defined.

Section StateRecords.
Context `{TX : GML.Text}.

Import ChangeLogToStream.



End StateRecords.



(** ** Random mutation *)

Section MutateProps.
Context `{HK : MutateRandom.Hooks}.

Import MutateRandom.

Lemma Qlt_bool_false (x prob : Q) : (0 <= x)%Q -> (prob <= 0)%Q -> Qlt_bool x prob = false.
Proof.
  intros Hx Hp. unfold Qlt_bool.
  assert (H : Qle_bool prob x = true) by (apply Qle_bool_iff; now apply Qle_trans with 0%Q).
  now rewrite H.
Qed.

Lemma maybe_skips (prob : Q) (hook : System -> Rnd -> System * Rnd) (sys : System) (r : Rnd) :
  (forall r', 0 <= fst (mRnd r'))%Q -> (prob <= 0)%Q ->
  maybe prob hook (sys, r) = (sys, snd (mRnd r)).
Proof.
  intros Hrnd Hp. unfold maybe. cbn [fst snd].
  pose proof (Hrnd r) as Hx. destruct (mRnd r) as [x r1]. cbn [fst snd] in *.
  now rewrite (Qlt_bool_false x prob Hx Hp).
Qed.

Lemma mutate_trial_skips (m : t) (sys : System) (r : Rnd) :
  (forall r', 0 <= fst (mRnd r'))%Q ->
  Forall (fun p => p <= 0)%Q (probabilities m) ->
  mutate_trial m (sys, r) = (sys, drawn 8 r).
Proof.
  intros Hrnd Hp. unfold probabilities in Hp.
  repeat (apply Forall_cons in Hp as [? Hp]).
  unfold mutate_trial. rewrite !maybe_skips by assumption. reflexivity.
Qed.

End MutateProps.

(** X14: with a generator whose numbers are never negative and the eight
    probabilities at 0 (as the constructor sets them) or below,
    [MutateRandom::mutate] calls none of the eight mutation methods: the
    System is left as it is, and eight random numbers are drawn in each of
    the [mMutateTrials] rounds (none when that count is 0 or negative). *)
Theorem mutate_without_probabilities_changes_nothing `{HK : MutateRandom.Hooks}
    (m : MutateRandom.t) (sys : System) (r : MutateRandom.Rnd) :
  (forall r', 0 <= fst (MutateRandom.mRnd r'))%Q ->
  Forall (fun p => p <= 0)%Q (probabilities m) ->
  MutateRandom.mutate m sys r
  = (sys, MutateRandom.drawn (8 * Z.to_nat (MutateRandom.mMutateTrials m)) r).
Proof.
  intros Hrnd Hp. unfold MutateRandom.mutate.
  induction (Z.to_nat (MutateRandom.mMutateTrials m)) as [|n IH]; [reflexivity|].
  rewrite Nat.iter_succ, IH, (mutate_trial_skips m sys _ Hrnd Hp).
  f_equal. replace (8 * S n)%nat with (8 + 8 * n)%nat by lia.
  unfold MutateRandom.drawn. now rewrite Nat.iter_add.
Qed.

Lemma mutate_without_probabilities_changes_nothing_witness :
  @MutateRandom.mutate MutateExamples.counting
    (MutateRandom.mk 0 0 0 0 0 0 0 0 3) Examples.two_nodes 0%nat
  = (Examples.two_nodes, 24%nat).
Proof.
  rewrite (@mutate_without_probabilities_changes_nothing MutateExamples.counting).
  - vm_compute. reflexivity.
  - intros r'. vm_compute. discriminate.
  - unfold probabilities. cbn. repeat constructor; vm_compute; discriminate.
Defined.

(** ** The cooling loop *)

Lemma count_up_succ (n : nat) : count_up (S n) = count_up n ++ [Z.of_nat n].
Proof. unfold count_up. rewrite seq_S, map_app. reflexivity. Qed.

Section CoolingProps.
Context `{UD : UserDynamics} `{LM : Lemon} `{OD : Odeint} `{CO : Collaborators}.
Variable sim : Simulate.

Import EvolveSA.

Lemma main_trial_fields (st : LoopState) (accepts : Z) :
  ls_iteration (fst (main_trial sim st accepts)) = ls_iteration st
  ∧ ls_temp (fst (main_trial sim st accepts)) = ls_temp st
  ∧ ls_noChange (fst (main_trial sim st accepts)) = ls_noChange st
  ∧ obs_iterations (ls_obs (fst (main_trial sim st accepts)))
    = obs_iterations (ls_obs st) ++ [ls_iteration st].
Proof.
  unfold main_trial.
  destruct (trial sim (ls_temp st) (ls_curSys st) (ls_result st) (ls_world st))
    as [[[newSys sys1] r] w1].
  cbn [fst ls_iteration ls_temp ls_noChange ls_obs].
  repeat split. unfold obs_iterations. rewrite map_app. reflexivity.
Qed.

Lemma main_trials_observed (k : nat) (st : LoopState) (accepts : Z) :
  observed_so_far st -> observed_so_far (fst (main_trials sim k st accepts)).
Proof.
  revert st accepts. induction k as [|k IH]; intros st accepts [H0 Hobs]; [now split|].
  cbn [main_trials]. cbn [ls_iteration].
  destruct (Z.gtb_spec (ls_iteration st + 1) (maxIterations mParams)) as [Hgt|Hle].
  - cbn [fst]. split; cbn [ls_iteration ls_obs]; [lia|].
    rewrite Hobs. do 2 f_equal. lia.
  - set (st1 := mkLoopState (ls_curSys st) (ls_result st) (ls_iteration st + 1)
                  (ls_temp st) (ls_noChange st) (ls_world st) (ls_obs st)).
    destruct (main_trial_fields st1 accepts) as (Hit & _ & _ & Hob).
    destruct (main_trial sim st1 accepts) as [st2 accepts2]. cbn [fst] in *.
    assert (H2 : observed_so_far st2).
    { split; [rewrite Hit; cbn; lia|]. rewrite Hob, Hit. cbn [st1 ls_obs ls_iteration].
      rewrite Hobs.
      replace (Z.to_nat (Z.min (ls_iteration st + 1) (maxIterations mParams)))
        with (S (Z.to_nat (Z.min (ls_iteration st) (maxIterations mParams)))) by lia.
      rewrite (count_up_succ (S _)). do 2 f_equal. lia. }
    destruct (accepts2 >=? acceptTrials mParams); [exact H2|].
    apply IH. exact H2.
Qed.

Lemma main_trials_advance (k : nat) (st : LoopState) (accepts : Z) :
  ls_iteration st + (if k is O then 0 else 1)
  <= ls_iteration (fst (main_trials sim k st accepts)).
Proof.
  revert st accepts. induction k as [|k IH]; intros st accepts; [cbn; lia|].
  cbn [main_trials]. cbn [ls_iteration].
  destruct (ls_iteration st + 1 >? maxIterations mParams); [cbn; lia|].
  set (st1 := mkLoopState (ls_curSys st) (ls_result st) (ls_iteration st + 1)
                (ls_temp st) (ls_noChange st) (ls_world st) (ls_obs st)).
  destruct (main_trial_fields st1 accepts) as (Hit & _).
  destruct (main_trial sim st1 accepts) as [st2 accepts2]. cbn [fst] in *.
  destruct (accepts2 >=? acceptTrials mParams); [cbn [fst]; rewrite Hit; cbn; lia|].
  specialize (IH st2 accepts2). rewrite Hit in IH. cbn [st1 ls_iteration] in IH.
  destruct k; lia.
Qed.

Lemma outer_iteration_fields (st : LoopState) :
  ls_iteration (fst (outer_iteration sim st))
  = ls_iteration (fst (main_trials sim (Z.to_nat (mainTrials mParams)) st 0))
  ∧ ls_obs (fst (outer_iteration sim st))
    = ls_obs (fst (main_trials sim (Z.to_nat (mainTrials mParams)) st 0)).
Proof.
  unfold outer_iteration.
  destruct (main_trials sim (Z.to_nat (mainTrials mParams)) st 0) as [st1 accepts].
  split; reflexivity.
Qed.

Lemma outer_iteration_observed (st : LoopState) :
  observed_so_far st -> observed_so_far (fst (outer_iteration sim st)).
Proof.
  intros H. pose proof (main_trials_observed (Z.to_nat (mainTrials mParams)) st 0 H) as H1.
  destruct (outer_iteration_fields st) as [Hit Hob].
  unfold observed_so_far in *. now rewrite Hit, Hob.
Qed.

Lemma cooling_loop_observed (fuel : nat) (st st' : LoopState) (runs runs' : list Z) :
  observed_so_far st ->
  cooling_loop sim fuel st runs = Returned (st', runs') ->
  observed_so_far st'.
Proof.
  revert st runs. induction fuel as [|fuel IH]; intros st runs Hst H; [discriminate H|].
  cbn [cooling_loop] in H. destruct (continue_search st).
  - pose proof (outer_iteration_observed st Hst) as H1.
    destruct (outer_iteration sim st) as [st1 accepts]. exact (IH _ _ H1 H).
  - injection H as <- <-. exact Hst.
Qed.

(** With a main trial to run, every round of the cooling loop advances
    the iteration count; the loop returns once the count has passed
    [maxIterations]. *)
Lemma cooling_loop_returns (fuel : nat) (st : LoopState) (runs : list Z) :
  1 <= mainTrials mParams ->
  (Z.to_nat (maxIterations mParams + 1 - ls_iteration st) < fuel)%nat ->
  exists st' runs', cooling_loop sim fuel st runs = Returned (st', runs').
Proof.
  intros Hmain. revert st runs. induction fuel as [|fuel IH]; intros st runs Hfuel; [lia|].
  cbn [cooling_loop]. destruct (continue_search st) eqn:Ec; [|eauto].
  unfold continue_search in Ec. apply andb_true_iff in Ec as [_ Hit].
  apply Z.leb_le in Hit.
  destruct (outer_iteration_fields st) as [Hit1 _].
  pose proof (main_trials_advance (Z.to_nat (mainTrials mParams)) st 0) as Hadv.
  destruct (Z.to_nat (mainTrials mParams)) eqn:Ek; [lia|].
  rewrite <- Hit1 in Hadv.
  destruct (outer_iteration sim st) as [st1 accepts]. cbn [fst] in *.
  apply IH. lia.
Qed.

Lemma main_trials_bound (k : nat) (st : LoopState) (accepts : Z) :
  ls_iteration st <= maxIterations mParams ->
  ls_iteration (fst (main_trials sim k st accepts)) <= maxIterations mParams + 1.
Proof.
  revert st accepts. induction k as [|k IH]; intros st accepts Hle; [cbn; lia|].
  cbn [main_trials]. cbn [ls_iteration].
  destruct (Z.gtb_spec (ls_iteration st + 1) (maxIterations mParams)) as [Hgt|Hle1];
    [cbn; lia|].
  set (st1 := mkLoopState (ls_curSys st) (ls_result st) (ls_iteration st + 1)
                (ls_temp st) (ls_noChange st) (ls_world st) (ls_obs st)).
  destruct (main_trial_fields st1 accepts) as (Hit & _).
  destruct (main_trial sim st1 accepts) as [st2 accepts2]. cbn [fst] in *.
  cbn [st1 ls_iteration] in Hit.
  destruct (accepts2 >=? acceptTrials mParams); [cbn [fst]; lia|].
  apply IH. lia.
Qed.

Lemma cooling_loop_bound (fuel : nat) (st st' : LoopState) (runs runs' : list Z) :
  cooling_loop sim fuel st runs = Returned (st', runs') ->
  ls_iteration st' <= Z.max (ls_iteration st) (maxIterations mParams + 1).
Proof.
  revert st runs. induction fuel as [|fuel IH]; intros st runs H; [discriminate H|].
  cbn [cooling_loop] in H. destruct (continue_search st) eqn:Ec.
  - unfold continue_search in Ec. apply andb_true_iff in Ec as [_ Hit].
    apply Z.leb_le in Hit.
    destruct (outer_iteration_fields st) as [Hit1 _].
    pose proof (main_trials_bound (Z.to_nat (mainTrials mParams)) st 0 Hit) as Hb.
    rewrite <- Hit1 in Hb.
    destruct (outer_iteration sim st) as [st1 accepts]. cbn [fst] in *.
    specialize (IH _ _ H). lia.
  - injection H as <- <-. lia.
Qed.

(** [evolve] up to the cooling loop: undefined without an initial trial,
    else the state the loop is entered with. *)
Lemma evolve_unfold (fuel : nat) (sys : System) (w : World) :
  (initialTrials mParams <= 0 ∧ evolve sim fuel sys w = None)
  ∨ (1 <= initialTrials mParams
     ∧ exists st,
         observed_so_far st ∧ ls_iteration st = 0
         ∧ evolve sim fuel sys w
           = if Qlt_bool 0 (ls_temp st)
             then Some (cooling_loop sim fuel st [])
             else Some (Returned (st, []))).
Proof.
  unfold evolve.
  destruct (performance sim (copySystem sys System_new) w) as [[initialPerf curSys1] w1].
  unfold bootstrap.
  destruct (Z.to_nat (initialTrials mParams)) as [|n] eqn:En;
    [left; split; [lia|reflexivity]|].
  right. split; [lia|].
  destruct (trial sim _ curSys1 _ w1) as [[[newSys curSys2] result1] w2].
  destruct (initial_trials sim n _ newSys result1 _ _ w2) as [[[result2 minQ] maxQ] w3].
  exists (mkLoopState curSys2 result2 0 (initialTemperature minQ maxQ) false w3
            [EvoObserve curSys1 initialPerf 0]).
  split; [|split; reflexivity].
  split; cbn [ls_iteration ls_obs]; [lia|].
  destruct (maxIterations mParams); reflexivity.
Qed.

End CoolingProps.

(** X15: when a search returns, its observer has been called with the
    iteration numbers 0, 1, 2, ... without gap or repeat, one call per
    trial of the cooling loop after the call for the start System; the
    last number is the iteration count reached, capped at
    [maxIterations] (the count itself may end one above it). *)
Theorem evolve_observes_consecutive_iterations
    `{UD : UserDynamics} `{LM : Lemon} `{OD : Odeint} `{CO : Collaborators}
    (sim : Simulate) (fuel : nat) (sys : System) (w : World)
    (st : EvolveSA.LoopState) (runs : list Z) :
  EvolveSA.evolve sim fuel sys w = Some (Returned (st, runs)) ->
  obs_iterations (EvolveSA.ls_obs st)
  = count_up (S (Z.to_nat (Z.min (EvolveSA.ls_iteration st) (maxIterations mParams))))
  ∧ EvolveSA.ls_iteration st <= Z.max 0 (maxIterations mParams + 1).
Proof.
  intros H. destruct (evolve_unfold sim fuel sys w) as [[_ Hnone]|(_ & st0 & Hst0 & Hit0 & E)];
    [congruence|].
  rewrite E in H. destruct (Qlt_bool 0 (EvolveSA.ls_temp st0)).
  - injection H as H. split.
    + exact (proj2 (cooling_loop_observed sim fuel st0 st [] runs Hst0 H)).
    + pose proof (cooling_loop_bound sim fuel st0 st [] runs H). lia.
  - injection H as <- <-. split; [exact (proj2 Hst0)|lia].
Qed.

(** An instance of X15: the search of [Examples.stalled_search] stops at
    the iteration count 6 with [maxIterations] 5; the observer has seen
    the iterations 0 to 5. *)
Lemma evolve_observes_consecutive_iterations_witness :
  exists st runs,
    @EvolveSA.evolve Examples.Oscillators Examples.ListDigraph Examples.single_sample
      Examples.stalled_search SimulateMap 100 (@System_new Examples.Oscillators) tt
    = Some (Returned (st, runs))
    ∧ EvolveSA.ls_iteration st = 6
    ∧ obs_iterations (EvolveSA.ls_obs st) = [0; 1; 2; 3; 4; 5].
Proof.
  destruct (@EvolveSA.evolve Examples.Oscillators Examples.ListDigraph
              Examples.single_sample Examples.stalled_search SimulateMap 100
              (@System_new Examples.Oscillators) tt)
    as [[[st runs]|p|p]|] eqn:E; try (vm_compute in E; discriminate E).
  exists st, runs. split; [reflexivity|].
  destruct (@evolve_observes_consecutive_iterations Examples.Oscillators
              Examples.ListDigraph Examples.single_sample Examples.stalled_search
              SimulateMap 100 (@System_new Examples.Oscillators) tt st runs E) as [H _].
  rewrite H. vm_compute in E. injection E as <- _. split; reflexivity.
Defined.

Section RoundProps.
Context `{UD : UserDynamics} `{LM : Lemon} `{OD : Odeint} `{CO : Collaborators}.
Variable sim : Simulate.

Import EvolveSA.

(** With a main trial to run, a round of the cooling loop adds one entry
    to [runs] and at least one to the iteration count. *)
Lemma cooling_loop_rounds (fuel : nat) (st st' : LoopState) (runs runs' : list Z) :
  1 <= mainTrials mParams ->
  cooling_loop sim fuel st runs = Returned (st', runs') ->
  size runs' - size runs <= ls_iteration st' - ls_iteration st.
Proof.
  intros Hmain. revert st runs.
  induction fuel as [|fuel IH]; intros st runs H; [discriminate H|].
  cbn [cooling_loop] in H. destruct (continue_search st).
  - destruct (outer_iteration_fields sim st) as [Hit1 _].
    pose proof (main_trials_advance sim (Z.to_nat (mainTrials mParams)) st 0) as Hadv.
    destruct (Z.to_nat (mainTrials mParams)) eqn:Ek; [lia|].
    rewrite <- Hit1 in Hadv.
    destruct (outer_iteration sim st) as [st1 accepts]. cbn [fst] in *.
    specialize (IH _ _ H). unfold size in *. rewrite length_app in IH.
    cbn [length] in IH. lia.
  - injection H as <- <-. lia.
Qed.

End RoundProps.

(** X16: when a search with at least one main trial per round and
    [maxIterations] below [INT_MAX] returns, its cooling loop has run at
    most [maxIterations + 1] rounds, whatever the scores, the
    temperatures and the random numbers: every round advances the
    iteration count, the count ends at [maxIterations + 1] at most, and
    so it has stayed an [int].  (With [maxIterations = INT_MAX] the count
    would have to pass [INT_MAX] for the loop to be left.) *)
Theorem evolve_rounds_are_bounded
    `{UD : UserDynamics} `{LM : Lemon} `{OD : Odeint} `{CO : Collaborators}
    (sim : Simulate) (fuel : nat) (sys : System) (w : World)
    (st : EvolveSA.LoopState) (runs : list Z) :
  1 <= mainTrials mParams -> maxIterations mParams < INT_MAX ->
  EvolveSA.evolve sim fuel sys w = Some (Returned (st, runs)) ->
  size runs <= EvolveSA.ls_iteration st
  ∧ size runs <= Z.max 0 (maxIterations mParams + 1)
  ∧ EvolveSA.ls_iteration st <= INT_MAX.
Proof.
  intros Hmain Hmax H.
  assert (Hb : size runs <= EvolveSA.ls_iteration st
               ∧ EvolveSA.ls_iteration st <= Z.max 0 (maxIterations mParams + 1)).
  { destruct (evolve_unfold sim fuel sys w) as [[_ Hnone]|(_ & st0 & _ & Hit0 & E)];
      [congruence|].
    rewrite E in H. destruct (Qlt_bool 0 (EvolveSA.ls_temp st0)).
    - injection H as H.
      pose proof (cooling_loop_rounds sim fuel st0 st [] runs Hmain H) as Hr.
      pose proof (cooling_loop_bound sim fuel st0 st [] runs H) as Hbd.
      unfold size in *. cbn [length] in Hr. lia.
    - injection H as <- <-. unfold size. cbn [length]. lia. }
  unfold INT_MAX in *. lia.
Qed.

(** An instance of X16: the search of [Examples.stalled_search], with
    [maxIterations] 5, returns after its rounds with the count at 6. *)
Lemma evolve_rounds_are_bounded_witness :
  exists st runs,
    @EvolveSA.evolve Examples.Oscillators Examples.ListDigraph Examples.single_sample
      Examples.stalled_search SimulateMap 100 (@System_new Examples.Oscillators) tt
    = Some (Returned (st, runs))
    ∧ 1 <= size runs <= 6
    ∧ EvolveSA.ls_iteration st = 6.
Proof.
  destruct (@EvolveSA.evolve Examples.Oscillators Examples.ListDigraph
              Examples.single_sample Examples.stalled_search SimulateMap 100
              (@System_new Examples.Oscillators) tt)
    as [[[st runs]|p|p]|] eqn:E; try (vm_compute in E; discriminate E).
  exists st, runs. split; [reflexivity|].
  destruct (@evolve_rounds_are_bounded Examples.Oscillators
              Examples.ListDigraph Examples.single_sample Examples.stalled_search
              SimulateMap 100 (@System_new Examples.Oscillators) tt st runs) as (_ & H & _).
  - vm_compute. discriminate.
  - reflexivity.
  - exact E.
  - vm_compute in E. injection E as <- <-. split; [split; [vm_compute; discriminate|exact H]|].
    reflexivity.
Defined.

(** ** Acceptance and scores *)

Lemma Qlt_bool_iff (x y : Q) : Qlt_bool x y = true <-> (x < y)%Q.
Proof.
  unfold Qlt_bool. rewrite negb_true_iff. split.
  - intros H. apply Qnot_le_lt. intros Hle. apply Qle_bool_iff in Hle. congruence.
  - intros H. destruct (Qle_bool y x) eqn:E; [|reflexivity].
    apply Qle_bool_iff in E. exfalso. exact (Qlt_not_le _ _ H E).
Qed.

Section AcceptProps.
Context `{UD : UserDynamics} `{LM : Lemon} `{OD : Odeint} `{CO : Collaborators}.
Variable sim : Simulate.

Import EvolveSA.

(** What a trial leaves in [result] and in [sys]. *)
Lemma trial_cases (temp : Q) (sys : System) (result : evolve_sa_result_t) (w : World) :
  let r := snd (fst (trial sim temp sys result w)) in
  let w1 := snd (mMut_mutate (copySystem sys System_new) w) in
  Q1 r = Q1 result
  ∧ (Q2 r = Q2 result ∨ Q2 r = fst (fst (performance sim sys w1)))
  ∧ (snd (fst (fst (trial sim temp sys result w))) = sys
     ∨ snd (fst (fst (trial sim temp sys result w))) = snd (fst (performance sim sys w1)))
  ∧ (a r = true -> (0 < Q1 r - Q2 r)%Q ∨ (0 < temp)%Q).
Proof.
  unfold trial.
  destruct (mMut_mutate (copySystem sys System_new) w) as [newSys w1]. cbn [fst snd].
  destruct (ensureWeaklyConnected mParams && negb (weaklyConnectedComponents newSys =? 1)).
  - cbn. split; [reflexivity|]. split; [now left|]. split; [now left|]. discriminate.
  - destruct (performance sim sys w1) as [[q2 sys1] w2]. cbn [fst snd Q1].
    destruct (Qlt_bool 0 (Q1 result - q2)) eqn:Ed.
    + cbn. split; [reflexivity|]. split; [now right|]. split; [now right|].
      intros _. left. now apply Qlt_bool_iff.
    + destruct (negb (Qeq_bool temp 0) && Qlt_bool 0 temp) eqn:Et.
      * apply andb_true_iff in Et as [_ Et]. apply Qlt_bool_iff in Et.
        destruct (mParams_rnd w2) as [x w3].
        destruct (Qle_bool x (acceptProb (Q1 result - q2) temp)); cbn;
          (split; [reflexivity|]; split; [now right|]; split; [now right|]);
          intros _; now right.
      * cbn. split; [reflexivity|]. split; [now right|]. split; [now right|]. discriminate.
Qed.

(** With a topology-only measure [performance] is the score of the
    measure and touches nothing. *)
Lemma performance_topology (sys : System) (w : World) :
  mQ_getType = TOPOLOGY_ONLY ->
  performance sim sys w = (mQ_performance sys None, sys, w).
Proof. intros Hty. unfold performance. rewrite Hty. reflexivity. Qed.

Lemma initial_trials_nonpositive (n : nat) (temp : Q) (tempSys : System)
    (result : evolve_sa_result_t) (minQ maxQ : Q) (w : World) :
  mQ_getType = TOPOLOGY_ONLY ->
  (forall s, mQ_performance s None <= 0)%Q ->
  (Q2 result <= 0)%Q -> (maxQ <= 0)%Q ->
  (snd (fst (initial_trials sim n temp tempSys result minQ maxQ w)) <= 0)%Q.
Proof.
  intros Hty Hneg. revert tempSys result minQ maxQ w.
  induction n as [|n IH]; intros tempSys result minQ maxQ w HQ2 Hmax; [exact Hmax|].
  cbn [initial_trials].
  destruct (trial_cases temp tempSys result w) as (_ & HQ & _).
  destruct (trial sim temp tempSys result w) as [[[newSys sys1] r] w1]. cbn [fst snd] in HQ.
  assert (Hr : (Q2 r <= 0)%Q).
  { destruct HQ as [-> | ->]; [exact HQ2|].
    rewrite performance_topology by exact Hty. apply Hneg. }
  apply IH; [exact Hr|]. destruct (Qlt_bool maxQ (Q2 r)); assumption.
Qed.

End AcceptProps.

(** X17: a trial leaves [result.Q1] as it was, at any temperature; at a
    temperature of zero or below it is accepted only when it improves on
    that score ([Q2 < Q1]). *)
Theorem cold_trial_accepts_improvements_only
    `{UD : UserDynamics} `{LM : Lemon} `{OD : Odeint} `{CO : Collaborators}
    (sim : Simulate) (temp : Q) (sys : System) (result : evolve_sa_result_t) (w : World) :
  Q1 (snd (fst (EvolveSA.trial sim temp sys result w))) = Q1 result
  ∧ ((temp <= 0)%Q ->
     a (snd (fst (EvolveSA.trial sim temp sys result w))) = true ->
     (Q2 (snd (fst (EvolveSA.trial sim temp sys result w)))
      < Q1 (snd (fst (EvolveSA.trial sim temp sys result w))))%Q).
Proof.
  destruct (trial_cases sim temp sys result w) as (H1 & _ & _ & Hacc).
  cbv zeta in *. split; [exact H1|]. intros Htemp Ha.
  destruct (Hacc Ha) as [Hd|Ht].
  - now apply Qlt_minus_iff.
  - exfalso. exact (Qlt_not_le _ _ Ht Htemp).
Qed.

(** An instance of X17: a trial accepted at temperature 0, and a trial
    at temperature 1 that leaves [Q1 = 7]. *)
Lemma cold_trial_accepts_improvements_only_witness :
  (let r := snd (fst (@EvolveSA.trial Examples.Oscillators Examples.ListDigraph
                        Examples.single_sample Examples.grow_search SimulateMap
                        0 Examples.two_nodes (mkResult 0 0 0 false) tt)) in
   (Q2 r < Q1 r)%Q ∧ Q1 r = 0%Q)
  ∧ Q1 (snd (fst (@EvolveSA.trial Examples.Oscillators Examples.ListDigraph
                    Examples.single_sample Examples.grow_search SimulateMap
                    1 Examples.two_nodes (mkResult 7 0 0 false) tt))) = 7%Q.
Proof.
  cbv zeta. split.
  - destruct (@cold_trial_accepts_improvements_only Examples.Oscillators Examples.ListDigraph
                Examples.single_sample Examples.grow_search SimulateMap
                0 Examples.two_nodes (mkResult 0 0 0 false) tt) as [H1 H2].
    split; [|exact H1]. apply H2.
    + vm_compute. discriminate.
    + vm_compute. reflexivity.
  - exact (proj1 (@cold_trial_accepts_improvements_only Examples.Oscillators
                    Examples.ListDigraph Examples.single_sample Examples.grow_search
                    SimulateMap 1 Examples.two_nodes (mkResult 7 0 0 false) tt)).
Defined.

(** X18: with a topology-only measure whose scores are never positive and
    the default initial temperature (four times the largest score of the
    initial trials), the start temperature is not above 0 and [evolve]
    does not search: no round of the cooling loop is run, the observer
    is called once, for iteration 0, and the System returned is the copy
    of the one handed in. *)
Theorem evolve_with_nonpositive_scores_does_not_search
    `{UD : UserDynamics} `{LM : Lemon} `{OD : Odeint} `{CO : Collaborators}
    (sim : Simulate) (fuel : nat) (sys : System) (w : World) :
  mQ_getType = TOPOLOGY_ONLY ->
  (forall s, mQ_performance s None <= 0)%Q ->
  (forall minQ maxQ, initialTemperature minQ maxQ = initialTemperature_default minQ maxQ) ->
  1 <= initialTrials mParams ->
  exists st,
    EvolveSA.evolve sim fuel sys w = Some (Returned (st, []))
    ∧ EvolveSA.ls_curSys st = copySystem sys System_new
    ∧ EvolveSA.ls_iteration st = 0
    ∧ EvolveSA.ls_obs st
      = [EvoObserve (copySystem sys System_new)
           (mQ_performance (copySystem sys System_new) None) 0].
Proof.
  intros Hty Hneg Htemp Hinit. unfold EvolveSA.evolve.
  rewrite (performance_topology sim _ _ Hty).
  unfold EvolveSA.bootstrap.
  destruct (Z.to_nat (initialTrials mParams)) as [|n] eqn:En; [lia|].
  set (sys0 := copySystem sys System_new).
  set (q0 := mQ_performance sys0 None). cbn [Q2 dQ a].
  destruct (trial_cases sim 1000000000000 sys0 (mkResult q0 0 0 false) w)
    as (_ & HQ & Hsys & _).
  destruct (EvolveSA.trial sim 1000000000000 sys0 (mkResult q0 0 0 false) w)
    as [[[newSys curSys2] result1] w2]. cbn [fst snd Q2] in HQ, Hsys.
  assert (Hcur : curSys2 = sys0).
  { destruct Hsys as [-> | ->]; [reflexivity|].
    now rewrite (performance_topology sim _ _ Hty). }
  assert (Hr : (Q2 result1 <= 0)%Q).
  { destruct HQ as [-> | ->]; [apply Qle_refl|].
    rewrite (performance_topology sim _ _ Hty). apply Hneg. }
  assert (Hq0 : (q0 <= 0)%Q) by apply Hneg.
  pose proof (initial_trials_nonpositive sim n 1000000000000 newSys result1
                (if Qlt_bool (Q2 result1) q0 then Q2 result1 else q0)
                (if Qlt_bool q0 (Q2 result1) then Q2 result1 else q0) w2 Hty Hneg Hr
                ltac:(destruct (Qlt_bool q0 (Q2 result1)); assumption)) as Hmax.
  destruct (EvolveSA.initial_trials sim n _ newSys result1 _ _ w2)
    as [[[result2 minQ] maxQ] w3]. cbn [fst snd] in Hmax.
  assert (Hcold : Qlt_bool 0 (initialTemperature minQ maxQ) = false).
  { rewrite Htemp. unfold initialTemperature_default.
    destruct (Qlt_bool 0 (maxQ * 4)) eqn:E; [|reflexivity].
    apply Qlt_bool_iff in E. exfalso. apply (Qlt_not_le _ _ E).
    apply Qle_trans with (0 * 4)%Q; [|vm_compute; discriminate].
    apply Qmult_le_compat_r; [exact Hmax|discriminate]. }
  rewrite Hcold. eexists. split; [reflexivity|].
  cbn [EvolveSA.ls_curSys EvolveSA.ls_iteration EvolveSA.ls_obs].
  split; [exact Hcur|]. split; reflexivity.
Qed.

Lemma evolve_with_nonpositive_scores_does_not_search_witness :
  exists st,
    @EvolveSA.evolve Examples.Oscillators Examples.ListDigraph Examples.single_sample
      Examples.grow_search SimulateMap 100 Examples.two_nodes tt
    = Some (Returned (st, []))
    ∧ obs_iterations (EvolveSA.ls_obs st) = [0].
Proof.
  destruct (@evolve_with_nonpositive_scores_does_not_search Examples.Oscillators
              Examples.ListDigraph Examples.single_sample Examples.grow_search
              SimulateMap 100 Examples.two_nodes tt) as (st & E & _ & _ & Hobs).
  - reflexivity.
  - intros s. unfold Qle. cbn. lia.
  - reflexivity.
  - vm_compute. discriminate.
  - exists st. split; [exact E|]. rewrite Hobs. reflexivity.
Defined.

(** ** Loading into a System that is not empty *)

Section LoadingAdds.
Context `{UD : UserDynamics} `{TX : GML.Text}.

Lemma node_attr_graph (v : Node) (s s' : System) (p : GML.GML_pair) :
  GML.node_attr v s p = Some s' -> nodes s' = nodes s ∧ arcs s' = arcs s.
Proof.
  unfold GML.node_attr.
  repeat match goal with
         | |- context [if ?b then _ else _] => destruct b
         end;
    destruct p; try discriminate;
    try destruct (GML.map_index _ _ _);
    intros H; injection H as <-; auto.
Qed.

Lemma edge_attr_graph (e : Arc) (s s' : System) (p : GML.GML_pair) :
  GML.edge_attr e s p = Some s' -> nodes s' = nodes s ∧ arcs s' = arcs s.
Proof.
  unfold GML.edge_attr.
  repeat match goal with
         | |- context [if ?b then _ else _] => destruct b
         end;
    destruct p; try discriminate;
    try destruct (GML.map_index _ _ _);
    intros H; injection H as <-; auto.
Qed.

Lemma apply_attrs_graph {A : Type} (f : A -> System -> GML.GML_pair -> option System)
    (x : A) (l : list GML.GML_pair) (s s' : System) :
  (forall s1 s2 p, f x s1 p = Some s2 -> nodes s2 = nodes s1 ∧ arcs s2 = arcs s1) ->
  GML.apply_attrs f x s l = Some s' -> nodes s' = nodes s ∧ arcs s' = arcs s.
Proof.
  intros Hf. revert s. induction l as [|p l IH]; intros s; simpl.
  - intros H. injection H as <-. auto.
  - destruct (f x s p) as [s1|] eqn:E; [|discriminate].
    intros H. destruct (IH _ H) as [-> ->]. exact (Hf _ _ _ E).
Qed.

Lemma load_nodes_graph (entries : list (Z * list GML.GML_pair)) (s : System)
    (id_2_node : gmap Z Node) (s' : System) (m : gmap Z Node) :
  GML.load_nodes entries s id_2_node = Some (s', m) ->
  arcs s' = arcs s
  ∧ exists new, nodes s' = new ++ nodes s ∧ length new = length entries.
Proof.
  revert s id_2_node. induction entries as [|[i attrs] rest IH]; intros s id_2_node; simpl.
  - intros H. injection H as <- <-. split; [reflexivity|]. now exists [].
  - destruct (addNode "NoNodeDynamic" s) as [[v s1]|] eqn:E1; [|discriminate].
    destruct (GML.apply_attrs GML.node_attr v s1 attrs) as [s2|] eqn:E2; [|discriminate].
    intros H. destruct (IH _ _ H) as (Ha & new & Hn & Hlen).
    destruct (apply_attrs_graph _ _ _ _ _ (node_attr_graph v) E2) as [Hn2 Ha2].
    destruct (addNode_effect _ _ _ _ E1) as (_ & Hn1 & _).
    destruct (addNode_rest _ _ _ _ E1) as (Ha1 & _).
    split; [now rewrite Ha, Ha2, Ha1|].
    exists (new ++ [v]). rewrite Hn, Hn2, Hn1, <- app_assoc, length_app, Hlen.
    split; [reflexivity|]. simpl. lia.
Qed.

Lemma fix_next_key_arcs (s : System) : arcs (GML.fix_next_key s) = arcs s.
Proof.
  unfold GML.fix_next_key. cbn [arcs set_mNextKey].
  apply (fold_left_preserves arcs). intros acc v. now destruct (_ <? _).
Qed.

Lemma load_edges_graph (entries : list (Z * Z * list GML.GML_pair)) (s : System)
    (id_2_node : gmap Z Node) (s' : System) :
  GML.load_edges entries s id_2_node = Some s' ->
  length (arcs s') = (length entries + length (arcs s))%nat.
Proof.
  revert s. induction entries as [|[[x y] attrs] rest IH]; intros s; simpl.
  - intros H. now injection H as <-.
  - destruct (id_2_node !! x) as [source|]; [|discriminate].
    destruct (id_2_node !! y) as [target|]; [|discriminate].
    destruct (addArc source target "NoArcDynamic" s) as [[e s1]|] eqn:E1; [|discriminate].
    destruct (GML.apply_attrs GML.edge_attr e s1 attrs) as [s2|] eqn:E2; [|discriminate].
    intros H. rewrite (IH _ H).
    destruct (apply_attrs_graph _ _ _ _ _ (edge_attr_graph e) E2) as [_ ->].
    destruct (addArc_effect _ _ _ _ _ _ E1) as (_ & -> & _). simpl. lia.
Qed.

End LoadingAdds.

(** X21: [openFromGML] does not clear the System it is called on: the
    nodes and arcs it had stay, one node is added for each node entry of
    the file and one arc for each edge entry; and the key of every node,
    old or new, is 0 afterwards. *)
Theorem openFromGML_adds_to_the_System `{UD : UserDynamics} `{TX : GML.Text}
    (file graph_list : list GML.GML_pair)
    (node_entries : list (Z * list GML.GML_pair))
    (edge_entries : list (Z * Z * list GML.GML_pair)) (s L : System) :
  GML.find_graph file = Some graph_list ->
  GML.sort_entries graph_list [] [] = Some (node_entries, edge_entries) ->
  GML.openFromGML file s = Some L ->
  (exists new, NodeIt L = new ++ NodeIt s ∧ length new = length node_entries)
  ∧ countArcs L = countArcs s + size edge_entries
  ∧ forall v, v ∈ NodeIt L -> key (nodeData L v) = 0.
Proof.
  intros Hg Hsort H. split; [|split; [|exact (openFromGML_resets_keys file s L H)]];
    unfold GML.openFromGML in H; rewrite Hg, Hsort in H;
    destruct (GML.load_nodes node_entries s ∅) as [[s1 id_2_node]|] eqn:E1;
      try discriminate H;
    destruct (GML.load_edges edge_entries (GML.fix_next_key s1) id_2_node) as [s2|] eqn:E2;
      try discriminate H;
    injection H as <-;
    destruct (refreshStateIDs_graph s2) as [Hn Ha];
    destruct (load_nodes_graph _ _ _ _ _ E1) as (Ha1 & new & Hn1 & Hlen).
  - exists new. unfold NodeIt. rewrite Hn.
    destruct (load_edges_nodes _ _ _ _ E2) as [-> _].
    destruct (fix_next_key_keys s1) as [-> _]. now split.
  - unfold countArcs, size. rewrite Ha, (load_edges_graph _ _ _ _ E2).
    rewrite fix_next_key_arcs, Ha1. lia.
Qed.

(** An instance of X21: the saved [Examples.two_nodes], loaded into
    [Examples.two_nodes] itself, gives four nodes, all with the key 0. *)
Lemma openFromGML_adds_to_the_System_witness :
  exists L,
    @GML.openFromGML Examples.Oscillators StreamExamples.whole_part
      (@GML.saveToGML Examples.Oscillators StreamExamples.whole_part Examples.two_nodes)
      Examples.two_nodes = Some L
    ∧ countNodes L = 4
    ∧ forall v, v ∈ NodeIt L -> key (nodeData L v) = 0.
Proof.
  destruct (@GML.openFromGML Examples.Oscillators StreamExamples.whole_part
              (@GML.saveToGML Examples.Oscillators StreamExamples.whole_part
                 Examples.two_nodes) Examples.two_nodes) as [L|] eqn:E;
    [|vm_compute in E; discriminate E].
  destruct (@GML.find_graph
              (@GML.saveToGML Examples.Oscillators StreamExamples.whole_part
                 Examples.two_nodes)) as [g|] eqn:Eg; [|vm_compute in Eg; discriminate Eg].
  destruct (GML.sort_entries g [] []) as [[ne ee]|] eqn:Es;
    [|vm_compute in Eg; injection Eg as <-; vm_compute in Es; discriminate Es].
  destruct (@openFromGML_adds_to_the_System Examples.Oscillators StreamExamples.whole_part
              _ g ne ee Examples.two_nodes L Eg Es E) as ((new & Hn & Hlen) & _ & Hk).
  exists L. split; [reflexivity|]. split; [|exact Hk].
  unfold countNodes. change (nodes L) with (NodeIt L). rewrite Hn, length_app, Hlen.
  vm_compute in Eg. injection Eg as <-. vm_compute in Es. injection Es as <- _.
  reflexivity.
Defined.

(** ** Scores that depend on the dynamics *)

(** The conversion of a [size_t] to a [double] gives a whole number from
    0 to 2^64, ends included. *)
Lemma size_t_to_double_range (n : Z) :
  0 <= n < 2 ^ 64 -> 0 <= size_t_to_double n <= 2 ^ 64.
Proof.
  intros [H0 Hlt]. unfold size_t_to_double.
  destruct (Z.ltb_spec n (2 ^ 53)) as [Hsmall|Hbig]; [lia|].
  assert (Hpos : 0 < n) by lia.
  assert (Hlo : 53 <= Z.log2 n) by (apply Z.log2_le_pow2; lia).
  assert (Hhi : Z.log2 n < 64) by (apply Z.log2_lt_pow2; lia).
  pose proof (Z.log2_spec n Hpos) as [Hl Hu].
  set (e := Z.log2 n - 52) in *.
  assert (He : 1 <= e <= 11) by (unfold e; lia).
  replace (Z.succ (Z.log2 n)) with (53 + e) in Hu by (unfold e; lia).
  rewrite Z.pow_add_r in Hu by lia.
  assert (Hp : 0 < 2 ^ e) by (apply Z.pow_pos_nonneg; lia).
  assert (Hq : 0 <= n / 2 ^ e < 2 ^ 53).
  { split; [apply Z.div_pos; lia|]. apply Z.div_lt_upper_bound; lia. }
  assert (Hcap : 2 ^ 53 * 2 ^ e <= 2 ^ 64).
  { rewrite <- Z.pow_add_r by lia. apply Z.pow_le_mono_r; lia. }
  destruct ((2 ^ (e - 1) <? n mod 2 ^ e)
            || ((n mod 2 ^ e =? 2 ^ (e - 1)) && Z.odd (n / 2 ^ e))); nia.
Qed.

(** X19: with a measure that needs the dynamics, [performance] returns
    either the fixed poor score 100000000000 (no initial condition) or a
    whole number from 0 to 2^64, whatever the measure returns for the
    single simulations: the sum is kept in an [int], divided as an
    unsigned integer and the quotient converted to a [double].  (A sum of
    -1 over one simulation gives 2^64.) *)
Theorem dynamic_performance_is_a_whole_number
    `{UD : UserDynamics} `{LM : Lemon} `{OD : Odeint} `{CO : Collaborators}
    (sim : Simulate) (sys : System) (w : World) :
  mQ_getType ≠ TOPOLOGY_ONLY ->
  fst (fst (EvolveSA.performance sim sys w)) = 100000000000%Q
  ∨ exists z, 0 <= z <= 2 ^ 64 ∧ fst (fst (EvolveSA.performance sim sys w)) = inject_Z z.
Proof.
  intros Hty. unfold EvolveSA.performance.
  assert (Hdyn : forall res : Q * System * World,
            res = (let '(initialConds, w1) := initial_initialStates sys w in
                   if size initialConds >? 0
                   then let '(sys1, qSum) :=
                          EvolveSA.performance_loop sim initialConds sys 0 in
                        (inject_Z (size_t_to_double (to_size_t qSum / size initialConds)),
                         sys1, w1)
                   else (100000000000%Q, sys, w1)) ->
            fst (fst res) = 100000000000%Q
            ∨ exists z, 0 <= z <= 2 ^ 64 ∧ fst (fst res) = inject_Z z).
  { intros res ->. destruct (initial_initialStates sys w) as [conds w1].
    destruct (Z.gtb_spec (size conds) 0) as [Hpos|_]; [|now left].
    destruct (EvolveSA.performance_loop sim conds sys 0) as [sys1 qSum].
    right. exists (size_t_to_double (to_size_t qSum / size conds)). split; [|reflexivity].
    apply size_t_to_double_range. unfold to_size_t.
    pose proof (Z.mod_pos_bound qSum (2 ^ 64) ltac:(lia)) as Hm.
    split; [apply Z.div_pos; lia|].
    apply Z.div_lt_upper_bound; [lia|]. nia. }
  destruct mQ_getType; [contradiction| |]; apply Hdyn; reflexivity.
Qed.

(** An instance of X19: the measure of [ScoreExamples.minus_one_search]
    scores the one simulation -1; [performance] returns 2^64. *)
Lemma dynamic_performance_is_a_whole_number_witness :
  fst (fst (@EvolveSA.performance Examples.Oscillators Examples.single_sample
              ScoreExamples.minus_one_search SimulateMap Examples.two_nodes tt))
  = inject_Z (2 ^ 64)
  ∧ (fst (fst (@EvolveSA.performance Examples.Oscillators Examples.single_sample
                 ScoreExamples.minus_one_search SimulateMap Examples.two_nodes tt))
     = 100000000000%Q
     ∨ exists z, 0 <= z <= 2 ^ 64
         ∧ fst (fst (@EvolveSA.performance Examples.Oscillators Examples.single_sample
                       ScoreExamples.minus_one_search SimulateMap Examples.two_nodes tt))
           = inject_Z z).
Proof.
  split; [vm_compute; reflexivity|].
  apply (@dynamic_performance_is_a_whole_number Examples.Oscillators Examples.ListDigraph
           Examples.single_sample ScoreExamples.minus_one_search SimulateMap
           Examples.two_nodes tt).
  vm_compute. discriminate.
Defined.

(** ** Nodes by position *)

(** X20: after [resetKeys], [getNode] finds the nodes by their keys: for
    an [ID] from 0 up to the number of nodes (excluded), [getNode (ID)] is
    a node of the System and its key is [ID]. *)
Theorem getNode_after_resetKeys (s : System) (ID : Z) :
  NoDup (nodes s) -> 0 <= ID < countNodes s ->
  exists v, getNode ID (resetKeys s) = Some v
    ∧ v ∈ NodeIt s
    ∧ key (nodeData (resetKeys s) v) = ID.
Proof.
  intros Hnd [H0 Hlt]. unfold countNodes in Hlt.
  destruct (lookup_lt_is_Some_2 (nodes s) (Z.to_nat ID) ltac:(lia)) as [v Hv].
  unfold resetKeys, getNode, NodeIt in *.
  destruct (resetKeys_loop (nodes s) (set_mNextKey 0 s) Hnd) as (Hn & _ & _ & Hin).
  exists v. split; [|split].
  - etransitivity; [|exact Hv]. f_equal. exact Hn.
  - eapply list_elem_of_lookup_2, Hv.
  - etransitivity; [exact (f_equal key (Hin _ v Hv))|]. simpl. lia.
Qed.

Lemma getNode_after_resetKeys_witness :
  exists v, getNode 1 (resetKeys MoreExamples.oscillator_pair) = Some v
    ∧ v ∈ NodeIt MoreExamples.oscillator_pair
    ∧ key (nodeData (resetKeys MoreExamples.oscillator_pair) v) = 1.
Proof.
  apply (getNode_after_resetKeys MoreExamples.oscillator_pair 1).
  - apply (bool_decide_unpack _). vm_compute. exact I.
  - split; [lia|]. vm_compute. reflexivity.
Defined.

(** ** Loading a saved file *)

Section RoundTrip.
Context `{UD : UserDynamics} `{TX : GML.Text}.


















End RoundTrip.


